(** * agent-crossing-template.py: the time-expanded PDDL encoder and the plan translator

    A shallow embedding of [GeneratePDDL_Stationary.generateInitString],
    [generateGoalString], [generateGridCells], the object declarations of
    [generateProblemPDDLFile], and the two plan consumers [generatePlan] and
    [simulateSolution].

    Python integers are [Z]; Python strings are [string]; Python exceptions are
    the [Err] results of a small error monad.  The text of the init section is
    kept as the ordered list of the facts that the source concatenates; each
    fact has its exact text ([render_fact]). *)

From Stdlib Require Import ZArith List String Ascii Bool Lia FinFun.
From Stdlib Require Import DecimalString DecimalZ.
Import ListNotations.

Local Open Scope Z_scope.

(* ===================================================================== *)
(** * Python values and exceptions *)
(* ===================================================================== *)

Inductive pyerr : Type :=
| IndexError
| ValueError
| ZeroDivisionError
| UnboundLocalError.

Inductive result (A : Type) : Type :=
| Ok (a : A)
| Err (e : pyerr).

Arguments Ok {A} a.
Arguments Err {A} e.

Definition bind {A B : Type} (m : result A) (k : A -> result B) : result B :=
  match m with
  | Ok a => k a
  | Err e => Err e
  end.

Notation "x <- m ;; k" := (bind m (fun x => k))
  (at level 61, m at next level, right associativity).

(** A [for] loop whose body can raise: the state is threaded left to right. *)
Fixpoint for_each {X S : Type} (body : X -> S -> result S) (xs : list X) (s : S)
  : result S :=
  match xs with
  | [] => Ok s
  | x :: xs' => s' <- body x s ;; for_each body xs' s'
  end.

(** [[f(x) for x in xs]] where [f] can raise. *)
Fixpoint map_m {X Y : Type} (f : X -> result Y) (xs : list X) : result (list Y) :=
  match xs with
  | [] => Ok []
  | x :: xs' => y <- f x ;; ys <- map_m f xs' ;; Ok (y :: ys)
  end.

(** [range(a, b)]. *)
Definition range (a b : Z) : list Z :=
  map (fun i => a + Z.of_nat i) (seq 0 (Z.to_nat (b - a))).

(** Resolution of a Python index (negative indices count from the end). *)
Definition py_index (len : nat) (i : Z) : result nat :=
  let n := Z.of_nat len in
  let j := if i <? 0 then i + n else i in
  if (0 <=? j) && (j <? n) then Ok (Z.to_nat j) else Err IndexError.

(** [l[i]]. *)
Definition py_get {A : Type} (l : list A) (i : Z) : result A :=
  j <- py_index (List.length l) i ;;
  match nth_error l j with
  | Some a => Ok a
  | None => Err IndexError
  end.

(** The list [l] with position [i] replaced by [v] ([i] already resolved). *)
Fixpoint list_set {A : Type} (l : list A) (i : nat) (v : A) : list A :=
  match l, i with
  | [], _ => []
  | _ :: l', O => v :: l'
  | a :: l', S i' => a :: list_set l' i' v
  end.

(** [name in l] on a list of strings. *)
Definition mem (name : string) (l : list string) : bool :=
  existsb (String.eqb name) l.

(** [l.remove(name)]: drops the first occurrence, [ValueError] when absent. *)
Fixpoint list_remove (name : string) (l : list string) : result (list string) :=
  match l with
  | [] => Err ValueError
  | c :: l' =>
      if String.eqb c name then Ok l'
      else l'' <- list_remove name l' ;; Ok (c :: l'')
  end.

(** [l[a:b]] for nonnegative constants. *)
Definition slice {A : Type} (a b : nat) (l : list A) : list A :=
  firstn (b - a) (skipn a l).

(** [len(set(l))]. *)
Definition distinct_count (l : list string) : nat :=
  List.length (nodup string_dec l).

(* ===================================================================== *)
(** * Python strings *)
(* ===================================================================== *)

Definition newline : ascii := Ascii.ascii_of_nat 10.

(** Whitespace of [str.split()] and of [int()] on ASCII text:
    TAB..CR (9-13), FS..US (28-31) and the space (32). *)
Definition is_space (c : ascii) : bool :=
  let n := N_of_ascii c in
  ((9 <=? n)%N && (n <=? 13)%N) || ((28 <=? n)%N && (n <=? 32)%N).

Definition is_digit (c : ascii) : bool :=
  let n := N_of_ascii c in (48 <=? n)%N && (n <=? 57)%N.

Definition snoc (s : string) (c : ascii) : string :=
  (s ++ String c EmptyString)%string.

Definition is_empty (s : string) : bool :=
  match s with EmptyString => true | _ => false end.

(** [s[0]]. *)
Definition first_char (s : string) : result ascii :=
  match s with
  | EmptyString => Err IndexError
  | String c _ => Ok c
  end.

(** [s[1:]]. *)
Definition drop_first (s : string) : string :=
  match s with
  | EmptyString => EmptyString
  | String _ r => r
  end.

(** [s[:-1]]. *)
Fixpoint drop_last (s : string) : string :=
  match s with
  | EmptyString => EmptyString
  | String c r =>
      match r with
      | EmptyString => EmptyString
      | _ => String c (drop_last r)
      end
  end.

(** [s.split()]: maximal runs of non-whitespace characters. *)
Fixpoint split_ws_from (cur : string) (s : string) : list string :=
  match s with
  | EmptyString => if is_empty cur then [] else [cur]
  | String c r =>
      if is_space c
      then (if is_empty cur then split_ws_from EmptyString r
            else cur :: split_ws_from EmptyString r)
      else split_ws_from (snoc cur c) r
  end.

Definition split_ws (s : string) : list string := split_ws_from EmptyString s.

(** [s.split('pt')]: the pieces between the non-overlapping occurrences of
    the separator, scanned from the left. *)
Fixpoint split_pt_from (cur : string) (s : string) : list string :=
  match s with
  | EmptyString => [cur]
  | String c r =>
      if Ascii.eqb c "p"
      then match r with
           | String c' r' =>
               if Ascii.eqb c' "t" then cur :: split_pt_from EmptyString r'
               else split_pt_from (snoc cur c) r
           | EmptyString => split_pt_from (snoc cur c) r
           end
      else split_pt_from (snoc cur c) r
  end.

Definition split_pt (s : string) : list string := split_pt_from EmptyString s.

(** [file.readlines()] on the text of the file (newlines already translated):
    every line keeps its terminator; a last line without one is kept too. *)
Fixpoint readlines_from (cur : string) (s : string) : list string :=
  match s with
  | EmptyString => if is_empty cur then [] else [cur]
  | String c r =>
      if Ascii.eqb c newline
      then snoc cur c :: readlines_from EmptyString r
      else readlines_from (snoc cur c) r
  end.

Definition readlines (s : string) : list string := readlines_from EmptyString s.

(** [str(z)] and the [{z}] of an f-string. *)
Definition str (z : Z) : string := NilZero.string_of_int (Z.to_int z).

Fixpoint lstrip (s : string) : string :=
  match s with
  | EmptyString => EmptyString
  | String c r => if is_space c then lstrip r else s
  end.

Fixpoint rstrip (s : string) : string :=
  match s with
  | EmptyString => EmptyString
  | String c r =>
      let r' := rstrip r in
      if is_space c && is_empty r' then EmptyString else String c r'
  end.

(** The digits of an [int()] literal: at least one digit, single underscores
    allowed between digits only.  Returns the digits without the underscores. *)
Fixpoint digit_groups (after_digit : bool) (s : string) : option string :=
  match s with
  | EmptyString => if after_digit then Some EmptyString else None
  | String c r =>
      if is_digit c then option_map (String c) (digit_groups true r)
      else if Ascii.eqb c "_" && after_digit then digit_groups false r
      else None
  end.

Definition unsigned_literal (s : string) : result Z :=
  match digit_groups false s with
  | None => Err ValueError
  | Some ds =>
      match NilEmpty.uint_of_string ds with
      | Some u => Ok (Z.of_uint u)
      | None => Err ValueError
      end
  end.

(** [int(s)] in base 10: surrounding whitespace, an optional sign, digits. *)
Definition py_int (s : string) : result Z :=
  match lstrip (rstrip s) with
  | EmptyString => Err ValueError
  | String c r =>
      if Ascii.eqb c "-" then n <- unsigned_literal r ;; Ok (- n)
      else if Ascii.eqb c "+" then unsigned_literal r
      else unsigned_literal (String c r)
  end.

(** [a // b]. *)
Definition py_floordiv (a b : Z) : result Z :=
  if b =? 0 then Err ZeroDivisionError else Ok (a / b).

(* ===================================================================== *)
(** * The snapshot read by the encoder *)
(* ===================================================================== *)

Record Point : Type := { px : Z; py : Z }.

(** A car of [self.state.cars]; [speed_range] is the pair the lane gives. *)
Record Car : Type := {
  car_id : Z;
  car_position : Point;
  car_speed_range : Z * Z
}.

Record Agent : Type := {
  agent_position : Point;
  agent_speed_range : Z * Z
}.

Record State : Type := {
  agent : Agent;
  cars : list Car;
  finish_position : Point
}.

(** The fields of [GeneratePDDL_Stationary] that the encoder reads. *)
Record Gen : Type := {
  state : State;
  num_lanes : Z;
  width : Z
}.

(* ===================================================================== *)
(** * Cells and facts *)
(* ===================================================================== *)

(** [f"pt{x}pt{y}"]. *)
Definition pt (x y : Z) : string :=
  ("pt" ++ str x ++ "pt" ++ str y)%string.

(** [generateGridCells]: column by column, the lanes of a column in order. *)
Definition generateGridCells (w l : Z) : list string :=
  flat_map (fun x => map (fun lane => pt x lane) (range 0 l)) (range 0 w).

Definition grid_cell_list (g : Gen) : list string :=
  generateGridCells (width g) (num_lanes g).

(** The pieces of text that [generateInitString] appends. *)
Inductive fact : Type :=
| At (cell : string) (t : Z) (who : string)
| Blocked (cell : string) (t : Z)
| NotBlocked (cell : string) (t : Z)
| UpNext (cell next : string) (t : Z)
| DownNext (cell next : string) (t : Z)
| ForwardNext (cell next : string) (t s : Z)
| NextInstant (i j : Z).

Definition render_fact (f : fact) : string :=
  match f with
  | At c t who => "(at " ++ c ++ " " ++ str t ++ " " ++ who ++ ") "
  | Blocked c t => "(blocked " ++ c ++ " " ++ str t ++ ") "
  | NotBlocked c t => "(not (blocked " ++ c ++ " " ++ str t ++ ")) "
  | UpNext c n t => "(up_next " ++ c ++ " " ++ n ++ " " ++ str t ++ ") "
  | DownNext c n t => "(down_next " ++ c ++ " " ++ n ++ " " ++ str t ++ ") "
  | ForwardNext c n t s =>
      "(forward_next " ++ c ++ " " ++ n ++ " " ++ str t ++ " " ++ str s ++ ")  "
  | NextInstant i j => "(next_instant " ++ str i ++ " " ++ str j ++ ") "
  end%string.

Definition render (fs : list fact) : string :=
  fold_right (fun f acc => (render_fact f ++ acc)%string) EmptyString fs.

(** The instants a fact names. *)
Definition fact_instants (f : fact) : list Z :=
  match f with
  | At _ t _ | Blocked _ t | NotBlocked _ t
  | UpNext _ _ t | DownNext _ _ t | ForwardNext _ _ t _ => [t]
  | NextInstant i j => [i; j]
  end.

Definition car_name (c : Car) : string := ("car" ++ str (car_id c))%string.
Definition agent_name : string := "agent1"%string.

(* ===================================================================== *)
(** * generateInitString *)
(* ===================================================================== *)

(** The two locals that the loops mutate. *)
Record InitSt : Type := {
  initString : list fact;
  free_cells : list (list string)
}.

Definition emit (fs : list fact) (st : InitSt) : InitSt :=
  {| initString := initString st ++ fs; free_cells := free_cells st |}.

(** [name in free_cells[t]]. *)
Definition is_free (t : Z) (name : string) (st : InitSt) : result bool :=
  row <- py_get (free_cells st) t ;; Ok (mem name row).

(** [free_cells[t].remove(name)]. *)
Definition remove_free (t : Z) (name : string) (st : InitSt) : result InitSt :=
  j <- py_index (List.length (free_cells st)) t ;;
  row <- py_get (free_cells st) t ;;
  row' <- list_remove name row ;;
  Ok {| initString := initString st;
        free_cells := list_set (free_cells st) j row' |}.

(** [self.width // abs(max(self.state.agent.speed_range)) + 1]. *)
Definition max_time (g : Gen) : result Z :=
  let r := agent_speed_range (agent (state g)) in
  q <- py_floordiv (width g) (Z.abs (Z.max (fst r) (snd r))) ;;
  Ok (q + 1).

(** Lines 201-205: the obstacles at instant 0. *)
Definition block_initial (c : Car) (st : InitSt) : result InitSt :=
  let x := px (car_position c) in
  let y := py (car_position c) in
  if negb (x =? 0) || negb (y =? 0)
  then remove_free 0 (pt x y)
         (emit [At (pt x y) 0 (car_name c); Blocked (pt x y) 0] st)
  else Ok st.

(** The conditional expression of lines 210 and 212. *)
Definition project_x (w x0 speed t : Z) : Z :=
  if 0 <=? x0 - speed * t then x0 - speed * t
  else (x0 - ((speed * t) mod w) + w) mod w.

Definition car_speed (c : Car) : Z := Z.abs (fst (car_speed_range c)).

(** The cell of a car at instant [t]: the lane never changes. *)
Definition project (w : Z) (c : Car) (t : Z) : Point :=
  {| px := project_x w (px (car_position c)) (car_speed c) t;
     py := py (car_position c) |}.

(** [if name in free_cells[t]: initString += ...; free_cells[t].remove(name)]. *)
Definition block_if_free (t : Z) (name : string) (fs : list fact) (st : InitSt)
  : result InitSt :=
  b <- is_free t name st ;;
  if b then remove_free t name (emit fs st) else Ok st.

(** Lines 209-230: one car at one instant [t >= 1]. *)
Definition sweep_car (w t : Z) (c : Car) (st : InitSt) : result InitSt :=
  let speed := car_speed c in
  let prev_x := px (project w c (t - 1)) in
  let new_x := px (project w c t) in
  let new_y := py (project w c t) in
  st1 <- block_if_free t (pt new_x new_y)
           [At (pt new_x new_y) t (car_name c); Blocked (pt new_x new_y) t] st ;;
  if (new_x <? prev_x) && (1 <? speed) then
    for_each (fun x_co => block_if_free t (pt x_co new_y) [Blocked (pt x_co new_y) t])
             (range (new_x + 1) prev_x) st1
  else if prev_x <? new_x then
    for_each (fun x_co => block_if_free t (pt x_co new_y) [Blocked (pt x_co new_y) t])
             (range 0 prev_x ++ range (new_x + 1) w) st1
  else Ok st1.

(** Lines 208-234: the body of the loop over [t]. *)
Definition sweep_instant (g : Gen) (t : Z) (st : InitSt) : result InitSt :=
  st1 <- for_each (sweep_car (width g) t) (cars (state g)) st ;;
  row <- py_get (free_cells st1) t ;;
  Ok (emit (map (fun cell => NotBlocked cell t) row) st1).

(** Line 238; [t] is the variable left by the loop of line 207. *)
Definition readmit_origin (t : Z) (st : InitSt) : result InitSt :=
  b <- is_free t "pt0pt0" st ;;
  if negb b then
    j <- py_index (List.length (free_cells st)) t ;;
    row <- py_get (free_cells st) t ;;
    Ok {| initString := initString st;
          free_cells := list_set (free_cells st) j (row ++ ["pt0pt0"%string]) |}
  else Ok st.

(** [_, cur_x, cur_y = cell.split('pt')] followed by the two [int()]. *)
Definition parse_cell (cell : string) : result (Z * Z) :=
  match split_pt cell with
  | [_; sx; sy] => x <- py_int sx ;; y <- py_int sy ;; Ok (x, y)
  | _ => Err ValueError
  end.

(** Lines 241-254: the transition facts of one cell at one instant. *)
Definition transitions_cell (g : Gen) (t : Z) (cell : string) (st : InitSt)
  : result InitSt :=
  xy <- parse_cell cell ;;
  let cur_x := fst xy in
  let cur_y := snd xy in
  let new_x := if cur_x =? 0 then cur_x else Z.max 0 (cur_x - 1) in
  let up_y := if cur_y =? 0 then cur_y else cur_y - 1 in
  up_free <- is_free t (pt new_x up_y) st ;;
  let new_up_y := if up_free then up_y else cur_y in
  let down_y := if cur_y =? num_lanes g - 1 then cur_y else cur_y + 1 in
  down_free <- is_free t (pt new_x down_y) st ;;
  let new_down_y := if down_free then down_y else cur_y in
  let st1 := emit [UpNext cell (pt new_x new_up_y) t;
                   DownNext cell (pt new_x new_down_y) t] st in
  Ok (fold_left
        (fun acc s =>
           let new_x := if cur_x =? 0 then cur_x else Z.max 0 (cur_x - s) in
           emit [ForwardNext cell (pt new_x cur_y) t (- s)] acc)
        (range 1 4) st1).

(** The whole body, with the final value of [free_cells] kept. *)
Definition generateInitString_state (g : Gen) : result InitSt :=
  max_time <- max_time g ;;
  let st0 := {| initString := [];
                free_cells := map (fun _ => grid_cell_list g) (range 0 max_time) |} in
  st1 <- for_each block_initial (cars (state g)) st0 ;;
  st2 <- for_each (sweep_instant g) (range 1 max_time) st1 ;;
  let st3 := emit [At (pt (px (agent_position (agent (state g))))
                          (py (agent_position (agent (state g))))) 0 agent_name] st2 in
  t <- match last (map Some (range 1 max_time)) None with
       | Some t => Ok t
       | None => Err UnboundLocalError
       end ;;
  st4 <- readmit_origin t st3 ;;
  st5 <- for_each (fun t => for_each (transitions_cell g t) (grid_cell_list g))
                  (range 1 max_time) st4 ;;
  Ok (emit (map (fun i => NextInstant i (i + 1)) (range 0 max_time)) st5).

Definition generateInitString (g : Gen) : result (list fact) :=
  st <- generateInitString_state g ;; Ok (initString st).

(** The value of [free_cells[t]] when the function returns. *)
Definition free_at (st : InitSt) (t : Z) : list string :=
  match py_get (free_cells st) t with
  | Ok row => row
  | Err _ => []
  end.

(* ===================================================================== *)
(** * generateGoalString and the objects of generateProblemPDDLFile *)
(* ===================================================================== *)

(** A goal condition: the only connective the source emits is [(or ...)]. *)
Inductive condition : Type :=
| COr (disjuncts : list fact).

Definition generateGoalString (g : Gen) : condition :=
  COr (map (fun i => At (pt (px (finish_position (state g)))
                            (py (finish_position (state g)))) i agent_name)
           (range 0 (width g))).

Definition render_condition (c : condition) : string :=
  match c with
  | COr fs => ("(or " ++ render fs ++ " )")%string
  end.

(** Truth of a condition in a set of true facts. *)
Definition holds (world : fact -> Prop) (c : condition) : Prop :=
  match c with
  | COr fs => exists f, In f fs /\ world f
  end.

(** [gen.addObjects("time", [str(x) for x in list(range(gen.width))])]. *)
Definition time_objects (g : Gen) : list string :=
  map str (range 0 (width g)).

(** [gen.addObjects("speed", [str(x) for x in list(range(-1, -4, -1))])]. *)
Definition speed_objects : list string := map str [-1; -2; -3].

(* ===================================================================== *)
(** * The plan consumers: generatePlan and simulateSolution *)
(* ===================================================================== *)

Section PlanConsumers.

(** The type of the environment's actions and the list [env.actions]. *)
Context {A : Type}.
Variable actions : list A.

(** The body of the loop of [generatePlan] for one line. *)
Definition generatePlan_line (line : string) (action_sequence : list A)
  : result (list A) :=
  c <- first_char line ;;
  if Ascii.eqb c "(" then
    tok <- py_get (split_ws line) 0 ;;
    let action := drop_first tok in
    coords <- map_m (fun points => py_get (split_pt points) 2)
                    (slice 1 3 (split_ws line)) ;;
    seq1 <- (if String.eqb action "up" then
               if Nat.eqb (distinct_count coords) 1
               then a <- py_get actions (-1) ;; Ok (action_sequence ++ [a])
               else a <- py_get actions 0 ;; Ok (action_sequence ++ [a])
             else Ok action_sequence) ;;
    seq2 <- (if String.eqb action "down" then
               if Nat.eqb (distinct_count coords) 1
               then a <- py_get actions (-1) ;; Ok (seq1 ++ [a])
               else a <- py_get actions 1 ;; Ok (seq1 ++ [a])
             else Ok seq1) ;;
    if String.eqb action "forward" then
      last_tok <- py_get (split_ws line) (-1) ;;
      speed <- py_int (drop_last last_tok) ;;
      a <- py_get actions speed ;;
      Ok (seq2 ++ [a])
    else Ok seq2
  else Ok action_sequence.

(** [generatePlan] on the text of [sas_plan]. *)
Definition generatePlan (plan_file : string) : result (list A) :=
  for_each generatePlan_line (readlines plan_file) [].

(** The environment as [simulateSolution] sees it: the actions passed to
    [env.step] so far, oldest first.  [env.render()] and [print] leave it
    unchanged. *)
Definition Env : Type := list A.

Definition env_step (env : Env) (a : A) : Env := env ++ [a].
Definition env_render (env : Env) : Env := env.

(** A run of the simulation: completed, or stopped by an exception with the
    steps already taken. *)
Inductive run : Type :=
| Finished (env : Env)
| Raised (e : pyerr) (env : Env).

Definition try_in {X : Type} (env : Env) (m : result X) (k : X -> run) : run :=
  match m with
  | Ok x => k x
  | Err e => Raised e env
  end.

Definition and_then (r : run) (k : Env -> run) : run :=
  match r with
  | Finished env => k env
  | Raised e env => Raised e env
  end.

(** The body of the loop of [simulateSolution] for one line. *)
Definition simulateSolution_line (line : string) (env : Env) : run :=
  try_in env (first_char line) (fun c =>
  if Ascii.eqb c "(" then
    try_in env (py_get (split_ws line) 0) (fun tok =>
    let action := drop_first tok in
    try_in env (map_m (fun points => py_get (split_pt points) 2)
                      (slice 1 3 (split_ws line))) (fun coords =>
    and_then
      (if String.eqb action "up" then
         if Nat.eqb (distinct_count coords) 1
         then try_in env (py_get actions (-1)) (fun a => Finished (env_step env a))
         else try_in env (py_get actions 0) (fun a => Finished (env_step env a))
       else Finished env) (fun env1 =>
    and_then
      (if String.eqb action "down" then
         if Nat.eqb (distinct_count coords) 1
         then try_in env1 (py_get actions (-1)) (fun a => Finished (env_step env1 a))
         else try_in env1 (py_get actions 1) (fun a => Finished (env_step env1 a))
       else Finished env1) (fun env2 =>
    and_then
      (if String.eqb action "forward" then
         try_in env2 (py_get (split_ws line) (-1)) (fun last_tok =>
         try_in env2 (py_int (drop_last last_tok)) (fun speed =>
         try_in env2 (py_get actions speed) (fun a =>
         Finished (env_step env2 a))))
       else Finished env2) (fun env3 =>
    Finished (env_render env3))))))
  else Finished env).

Fixpoint simulate_lines (lines : list string) (env : Env) : run :=
  match lines with
  | [] => Finished env
  | line :: rest => and_then (simulateSolution_line line env) (simulate_lines rest)
  end.

(** [simulateSolution] on a fresh environment and the text of [sas_plan]. *)
Definition simulateSolution (plan_file : string) : run :=
  simulate_lines (readlines plan_file) (env_render []).

End PlanConsumers.

(** The lines the planner writes for the three actions of the domain: the
    lower-cased action name and its arguments in the order of the parameter
    list, closed by a parenthesis and a line terminator. *)
Inductive plan_action : Type :=
| PUp (x1 y1 x2 y2 t1 t2 : Z)
| PDown (x1 y1 x2 y2 t1 t2 : Z)
| PForward (x1 y1 x2 y2 t1 t2 s : Z).

Definition plan_line (p : plan_action) : string :=
  match p with
  | PUp x1 y1 x2 y2 t1 t2 =>
      "(up " ++ pt x1 y1 ++ " " ++ pt x2 y2 ++ " " ++ str t1 ++ " " ++ str t2
        ++ ")" ++ String newline EmptyString
  | PDown x1 y1 x2 y2 t1 t2 =>
      "(down " ++ pt x1 y1 ++ " " ++ pt x2 y2 ++ " " ++ str t1 ++ " " ++ str t2
        ++ ")" ++ String newline EmptyString
  | PForward x1 y1 x2 y2 t1 t2 s =>
      "(forward " ++ pt x1 y1 ++ " " ++ pt x2 y2 ++ " " ++ str t1 ++ " " ++ str t2
        ++ " " ++ str s ++ ")" ++ String newline EmptyString
  end%string.

(** The action list of the grid-driving environment for the speed range
    [(-3, -1)]: the two lateral moves, then the forward moves from the fastest
    to the slowest. *)
Definition grid_driving_actions : list string :=
  ["up"; "down"; "forward[-3]"; "forward[-2]"; "forward[-1]"]%string.

(* ===================================================================== *)
(** * Notions used in the statements *)
(* ===================================================================== *)

(** Every character of [s] satisfies [p]. *)
Fixpoint all_chars (p : ascii -> bool) (s : string) : bool :=
  match s with
  | EmptyString => true
  | String c r => p c && all_chars p r
  end.

(** The characters of a printed integer. *)
Definition numeral_char (c : ascii) : bool := is_digit c || Ascii.eqb c "-".

(** The characters of a cell name. *)
Definition cell_char (c : ascii) : bool :=
  numeral_char c || Ascii.eqb c "p" || Ascii.eqb c "t".

(** ** Validity of a snapshot *)

Definition in_grid (g : Gen) (p : Point) : bool :=
  (0 <=? px p) && (px p <? width g) && (0 <=? py p) && (py p <? num_lanes g).

Definition is_origin (p : Point) : bool := (px p =? 0) && (py p =? 0).

Definition point_eqb (p q : Point) : bool := (px p =? px q) && (py p =? py q).

Fixpoint distinct_points (ps : list Point) : bool :=
  match ps with
  | [] => true
  | p :: r => negb (existsb (point_eqb p) r) && distinct_points r
  end.

(** [abs(max(self.state.agent.speed_range))]: the least speed magnitude of an
    agent whose speeds are all negative. *)
Definition min_speed (g : Gen) : Z :=
  Z.abs (Z.max (fst (agent_speed_range (agent (state g))))
               (snd (agent_speed_range (agent (state g))))).

(** The snapshots on which [generateInitString] returns: every car is on the
    grid, no two cars away from the origin share a cell, and the least speed
    magnitude of the agent is between 1 and the width. *)
Definition valid_snapshot (g : Gen) : bool :=
  forallb (fun c => in_grid g (car_position c)) (cars (state g))
  && distinct_points
       (filter (fun p => negb (is_origin p)) (map car_position (cars (state g))))
  && (1 <=? min_speed g) && (min_speed g <=? width g).

(** The horizon on a valid snapshot. *)
Definition horizon (g : Gen) : Z := width g / min_speed g + 1.

(** ** The encoder seen one row of [free_cells] at a time

    Between two instants the loops of [generateInitString] touch disjoint rows
    of [free_cells]; a row step maps a row to the facts it appends and the row
    it leaves. *)

Definition row_step : Type := list string -> list fact * list string.

Definition remove_first (name : string) (row : list string) : list string :=
  match list_remove name row with
  | Ok r => r
  | Err _ => row
  end.

Definition skip_row : row_step := fun row => ([], row).

Definition then_row (f1 f2 : row_step) : row_step :=
  fun row =>
    let r1 := f1 row in
    let r2 := f2 (snd r1) in
    (fst r1 ++ fst r2, snd r2).

Fixpoint each_row {X : Type} (f : X -> row_step) (xs : list X) : row_step :=
  match xs with
  | [] => skip_row
  | x :: r => then_row (f x) (each_row f r)
  end.

Definition block_row (name : string) (fs : list fact) : row_step :=
  fun row => if mem name row then (fs, remove_first name row) else ([], row).

(** Lines 201-205 on a row that still holds the cell of the car (the source
    raises otherwise; validity excludes it). *)
Definition block_initial_row (c : Car) : row_step :=
  let x := px (car_position c) in
  let y := py (car_position c) in
  if negb (x =? 0) || negb (y =? 0)
  then block_row (pt x y) [At (pt x y) 0 (car_name c); Blocked (pt x y) 0]
  else skip_row.

Definition sweep_car_row (w t : Z) (c : Car) : row_step :=
  let speed := car_speed c in
  let prev_x := px (project w c (t - 1)) in
  let new_x := px (project w c t) in
  let new_y := py (project w c t) in
  then_row
    (block_row (pt new_x new_y)
       [At (pt new_x new_y) t (car_name c); Blocked (pt new_x new_y) t])
    (if (new_x <? prev_x) && (1 <? speed) then
       each_row (fun x_co => block_row (pt x_co new_y) [Blocked (pt x_co new_y) t])
                (range (new_x + 1) prev_x)
     else if prev_x <? new_x then
       each_row (fun x_co => block_row (pt x_co new_y) [Blocked (pt x_co new_y) t])
                (range 0 prev_x ++ range (new_x + 1) w)
     else skip_row).

Definition sweep_cars_row (g : Gen) (t : Z) : row_step :=
  each_row (sweep_car_row (width g) t) (cars (state g)).

Definition sweep_instant_row (g : Gen) (t : Z) : row_step :=
  then_row (sweep_cars_row g t)
           (fun row => (map (fun cell => NotBlocked cell t) row, row)).

(** The row of instant [t] after the obstacle loops (lines 201-234). *)
Definition swept_row (g : Gen) (t : Z) : list string :=
  if t =? 0
  then snd (each_row block_initial_row (cars (state g)) (grid_cell_list g))
  else snd (sweep_cars_row g t (grid_cell_list g)).

(** The row of instant [t] when the function returns (after line 238). *)
Definition final_row (g : Gen) (t : Z) : list string :=
  if (t =? horizon g - 1) && negb (mem "pt0pt0" (swept_row g t))
  then swept_row g t ++ ["pt0pt0"%string]
  else swept_row g t.

(** The facts of lines 241-254 for the cell [(cur_x, cur_y)] named [cell]. *)
Definition cell_transitions (g : Gen) (t : Z) (row : list string)
           (cell : string) (cur_x cur_y : Z) : list fact :=
  let new_x := if cur_x =? 0 then cur_x else Z.max 0 (cur_x - 1) in
  let up_y := if cur_y =? 0 then cur_y else cur_y - 1 in
  let new_up_y := if mem (pt new_x up_y) row then up_y else cur_y in
  let down_y := if cur_y =? num_lanes g - 1 then cur_y else cur_y + 1 in
  let new_down_y := if mem (pt new_x down_y) row then down_y else cur_y in
  [UpNext cell (pt new_x new_up_y) t; DownNext cell (pt new_x new_down_y) t]
  ++ map (fun s => ForwardNext cell
                     (pt (if cur_x =? 0 then cur_x else Z.max 0 (cur_x - s)) cur_y)
                     t (- s))
         (range 1 4).

(** The coordinates of the cells, in the order of [generateGridCells]. *)
Definition grid_points (w l : Z) : list (Z * Z) :=
  flat_map (fun x => map (fun lane => (x, lane)) (range 0 l)) (range 0 w).

(** The facts of [generateInitString] on a valid snapshot, phase by phase. *)
Definition initial_facts (g : Gen) : list fact :=
  fst (each_row block_initial_row (cars (state g)) (grid_cell_list g)).

Definition sweep_facts (g : Gen) : list fact :=
  flat_map (fun t => fst (sweep_instant_row g t (grid_cell_list g)))
           (range 1 (horizon g)).

Definition agent_fact (g : Gen) : fact :=
  At (pt (px (agent_position (agent (state g))))
         (py (agent_position (agent (state g))))) 0 agent_name.

Definition transition_facts (g : Gen) : list fact :=
  flat_map (fun t =>
              flat_map (fun xy => cell_transitions g t (final_row g t)
                                    (pt (fst xy) (snd xy)) (fst xy) (snd xy))
                       (grid_points (width g) (num_lanes g)))
           (range 1 (horizon g)).

Definition instant_facts (g : Gen) : list fact :=
  map (fun i => NextInstant i (i + 1)) (range 0 (horizon g)).

Definition all_facts (g : Gen) : list fact :=
  initial_facts g ++ sweep_facts g ++ [agent_fact g]
  ++ transition_facts g ++ instant_facts g.

(** ** Properties of row steps *)

(** [op] reads and writes row [t] only, as the row step [f] describes. *)
Definition row_local (t : Z) (op : InitSt -> result InitSt) (f : row_step) : Prop :=
  forall st row,
    nth_error (free_cells st) (Z.to_nat t) = Some row ->
    op st = Ok {| initString := initString st ++ fst (f row);
                  free_cells := list_set (free_cells st) (Z.to_nat t) (snd (f row)) |}.

(** The facts the obstacle loops append at instant [t]. *)
Definition sweep_fact (t : Z) (f : fact) : Prop :=
  match f with
  | At _ t' _ | Blocked _ t' => t' = t
  | _ => False
  end.

(** A row step of instant [t] that only removes cells, and removes exactly
    the cells for which it appends a blocked fact. *)
Definition blocking_step (t : Z) (f : row_step) : Prop :=
  forall row,
    NoDup row ->
    NoDup (snd (f row))
    /\ (forall c, In c (snd (f row)) ->
                  In c row /\ ~ In (Blocked c t) (fst (f row)))
    /\ (forall c, In c row -> In c (snd (f row)) \/ In (Blocked c t) (fst (f row)))
    /\ (forall c, In (Blocked c t) (fst (f row)) -> In c row)
    /\ Forall (sweep_fact t) (fst (f row)).

(** The step leaves [name] out of the row. *)
Definition covers (name : string) (f : row_step) : Prop :=
  forall row, NoDup row -> ~ In name (snd (f row)).

(** The facts appended by lines 239-254. *)
Definition transition_fact (t : Z) (f : fact) : Prop :=
  match f with
  | UpNext _ _ t' | DownNext _ _ t' | ForwardNext _ _ t' _ => t' = t
  | _ => False
  end.

(** The facts from which the blocked cells of instant [t] are read. *)
Definition blocked_source (g : Gen) (t : Z) : list fact :=
  if t =? 0 then initial_facts g
  else fst (sweep_cars_row g t (grid_cell_list g)).

(** ** The properties under study *)

(** The blocked and the free cells of instant [t] are disjoint and cover the
    grid, as far as the cells in [P] are concerned. *)
Definition partition_on (P : string -> Prop) (g : Gen) (st : InitSt) (t : Z) : Prop :=
  (forall c, P c -> ~ (In (Blocked c t) (initString st) /\ In c (free_at st t)))
  /\ (forall c, P c ->
                (In c (grid_cell_list g)
                 <-> In (Blocked c t) (initString st) \/ In c (free_at st t))).

Definition occupancy_partition (g : Gen) (st : InitSt) (t : Z) : Prop :=
  partition_on (fun _ => True) g st t.



(** The destination of a lateral move towards lane [y'] from [(x, y)]. *)
Definition lateral_target (st : InitSt) (t x y y' : Z) : string :=
  if mem (pt (Z.max 0 (x - 1)) y') (free_at st t)
  then pt (Z.max 0 (x - 1)) y'
  else pt (Z.max 0 (x - 1)) y.

(** The candidate cell [(cx, cy)] of a lateral move at instant [t] is accepted:
    it carries no blocked fact at [t], or it is the cell (0,0) at the last
    instant, which line 238 puts back into the free set. *)
Definition candidate_accepted (g : Gen) (st : InitSt) (t cx cy : Z) : Prop :=
  ~ In (Blocked (pt cx cy) t) (initString st)
  \/ (cx = 0 /\ cy = 0 /\ t = horizon g - 1).

Definition candidate_refused (g : Gen) (st : InitSt) (t cx cy : Z) : Prop :=
  In (Blocked (pt cx cy) t) (initString st)
  /\ ~ (cx = 0 /\ cy = 0 /\ t = horizon g - 1).

(** [n] is the destination of a lateral move from [(x, y)] towards lane [y']:
    the candidate when it is accepted, the cell of the same lane otherwise. *)
Definition lateral_successor (g : Gen) (st : InitSt) (t x y y' : Z) (n : string)
  : Prop :=
  (candidate_accepted g st t (Z.max 0 (x - 1)) y' /\ n = pt (Z.max 0 (x - 1)) y')
  \/ (candidate_refused g st t (Z.max 0 (x - 1)) y' /\ n = pt (Z.max 0 (x - 1)) y).

(** A lateral-up move from [(x, y)] whose candidate cell has a blocked fact at
    [t] stays in its lane. *)
Definition blocked_up_degrades (st : InitSt) (t x y : Z) : Prop :=
  In (Blocked (pt (Z.max 0 (x - 1)) (Z.max 0 (y - 1))) t) (initString st) ->
  forall n, In (UpNext (pt x y) n t) (initString st) -> n = pt (Z.max 0 (x - 1)) y.

(** The cells of the obstacles are blocked at instant 0, except the cell where
    the agent starts, which has no blocked fact. *)
Definition start_cell_exempt (g : Gen) (st : InitSt) : Prop :=
  let a := agent_position (agent (state g)) in
  (forall c, In c (cars (state g)) ->
             px (car_position c) <> px a \/ py (car_position c) <> py a ->
             In (Blocked (pt (px (car_position c)) (py (car_position c))) 0)
                (initString st))
  /\ ~ In (Blocked (pt (px a) (py a)) 0) (initString st).

(** The snapshot with the agent moved to [p]. *)
Definition move_agent (g : Gen) (p : Point) : Gen :=
  {| state := {| agent := {| agent_position := p;
                             agent_speed_range :=
                               agent_speed_range (agent (state g)) |};
                 cars := cars (state g);
                 finish_position := finish_position (state g) |};
     num_lanes := num_lanes g;
     width := width g |}.

(** Every instant named by a fact is a declared time object. *)
Definition instants_declared (g : Gen) (st : InitSt) : Prop :=
  forall f i, In f (initString st) -> In i (fact_instants f) ->
              In (str i) (time_objects g).

(** The time objects cover [0 .. horizon] for the horizon
    [ceil(width / min speed) + 1], and every instant of a fact is declared. *)
Definition time_objects_cover (g : Gen) (st : InitSt) : Prop :=
  (forall h, max_time g = Ok h ->
             h = - ((- width g) / min_speed g) + 1
             /\ forall i, 0 <= i <= h -> In (str i) (time_objects g))
  /\ instants_declared g st.

(** The goal holds exactly when the agent is on the finish cell at some
    instant before the horizon. *)
Definition goal_within_horizon (g : Gen) : Prop :=
  forall world : fact -> Prop,
    holds world (generateGoalString g)
    <-> exists h i, max_time g = Ok h /\ 0 <= i < h
                    /\ world (At (pt (px (finish_position (state g)))
                                     (py (finish_position (state g)))) i agent_name).

(** Some blocked fact names cell [c] at instant [t]. *)
Definition names_blocked (c : string) (t : Z) (f : fact) : bool :=
  match f with
  | Blocked c' t' => String.eqb c' c && (t' =? t)
  | _ => false
  end.

(** ** Snapshots used as examples *)

Definition snapshot (w l : Z) (cs : list Car) (agent_at : Z * Z)
           (speeds : Z * Z) (finish : Z * Z) : Gen :=
  {| state := {| agent := {| agent_position := {| px := fst agent_at;
                                                  py := snd agent_at |};
                             agent_speed_range := speeds |};
                 cars := cs;
                 finish_position := {| px := fst finish; py := snd finish |} |};
     num_lanes := l;
     width := w |}.

Definition car_at (id x y speed : Z) : Car :=
  {| car_id := id;
     car_position := {| px := x; py := y |};
     car_speed_range := (speed, speed) |}.

(** Width 5, three lanes, one car at (3,1) with speed -1, finish at (4,1). *)
Definition crossing_snapshot : Gen :=
  snapshot 5 3 [car_at 1 3 1 (-1)] (0, 0) (-3, -1) (4, 1).

(** The agent starts on (2,1), the cell of the second car; the first car is on
    the cell (0,0). *)
Definition shared_start_snapshot : Gen :=
  snapshot 5 3 [car_at 1 0 0 (-1); car_at 2 2 1 (-1)] (2, 1) (-3, -1) (4, 1).


(** One car that starts on the origin and is back on it at the last instant. *)
Definition origin_snapshot : Gen :=
  snapshot 3 2 [car_at 1 0 0 (-1)] (2, 1) (-1, -1) (0, 0).

(** One car whose speed equals the width: it laps the lane every instant. *)
Definition lap_snapshot : Gen :=
  snapshot 3 2 [car_at 1 1 0 (-3)] (2, 1) (-1, -1) (0, 0).

(** An agent that cannot go slower than two cells per instant. *)
Definition fast_agent_snapshot : Gen :=
  snapshot 5 3 [] (4, 2) (-3, -2) (0, 0).

(** ** Plan lines *)

(** Tokens separated by single spaces, closed by a line terminator. *)
Fixpoint join_tokens (toks : list string) : string :=
  match toks with
  | [] => String newline EmptyString
  | [t] => (t ++ String newline EmptyString)%string
  | t :: r => (t ++ String " " (join_tokens r))%string
  end.

(** A non-empty run of non-whitespace characters. *)
Definition is_token (s : string) : bool :=
  negb (is_empty s) && all_chars (fun c => negb (is_space c)) s.

(** The tokens of the three kinds of plan line. *)
Definition plan_tokens (p : plan_action) : list string :=
  match p with
  | PUp x1 y1 x2 y2 t1 t2 =>
      ["(up"; pt x1 y1; pt x2 y2; str t1; str t2 ++ ")"]
  | PDown x1 y1 x2 y2 t1 t2 =>
      ["(down"; pt x1 y1; pt x2 y2; str t1; str t2 ++ ")"]
  | PForward x1 y1 x2 y2 t1 t2 s =>
      ["(forward"; pt x1 y1; pt x2 y2; str t1; str t2; str s ++ ")"]
  end%string.

(** The action name a plan line carries ([line.split()[0][1:]]). *)
Definition plan_action_name (line : string) : string :=
  match split_ws line with
  | tok :: _ => drop_first tok
  | [] => EmptyString
  end.

Definition known_action (a : string) : bool :=
  String.eqb a "up" || String.eqb a "down" || String.eqb a "forward".

(** A lateral-up line is turned into the last action of the list when its two
    cells have the same x coordinate, and into the first action otherwise. *)
Definition lateral_by_column {A : Type} (actions : list A) : Prop :=
  forall x1 y1 x2 y2 t1 t2 seq fwd up,
    py_get actions (-1) = Ok fwd -> py_get actions 0 = Ok up ->
    generatePlan_line actions (plan_line (PUp x1 y1 x2 y2 t1 t2)) seq
    = Ok (seq ++ [if x1 =? x2 then fwd else up]).

(** [points.split('pt')[2]] exists: the token has the separator at least
    twice. *)
Definition has_lane (points : string) : bool :=
  (3 <=? List.length (split_pt points))%nat.

(** A line in parentheses that names no known action stops the translation. *)
Definition unknown_action_is_fatal {A : Type} (actions : list A) : Prop :=
  forall line seq,
    first_char line = Ok "("%char ->
    known_action (plan_action_name line) = false ->
    exists e, generatePlan_line actions line seq = Err e.

(* ===================================================================== *)
(** * Further parts of the source *)
(* ===================================================================== *)

(** ** The objects of generateProblemPDDLFile *)

(** [addHeader] and [addFooter]. *)
Definition addHeader (name : string) : string := ("(:" ++ name ++ " ")%string.

Definition addFooter : string := (") " ++ String newline EmptyString)%string.

(** [addObjects]: the text appended to [self.object_strings]. *)
Definition addObjects (obj_type : string) (obj_list : list string)
           (isLastObject : bool) (object_strings : string) : string :=
  let obj_string :=
    (fold_left (fun acc obj => acc ++ obj ++ " ") obj_list EmptyString
     ++ " - " ++ obj_type)%string in
  let s := (object_strings ++ obj_string ++ String newline " ")%string in
  if isLastObject then (s ++ addFooter)%string else s.

(** The four calls of [addObjects] in [generateProblemPDDLFile], in order:
    the type and the objects of each call. *)
Definition problem_objects (g : Gen) : list (string * list string) :=
  [("agent", [agent_name]);
   ("time", time_objects g);
   ("speed", speed_objects);
   ("gridcell", grid_cell_list g)]%string.

(** [self.object_strings] after the four calls. *)
Definition object_strings (g : Gen) : string :=
  addObjects "gridcell" (grid_cell_list g) true
    (addObjects "speed" speed_objects false
       (addObjects "time" (time_objects g) false
          (addObjects "agent" [agent_name] false (addHeader "objects")))).

(** Every object name the problem file declares. *)
Definition declared_objects (g : Gen) : list string :=
  flat_map snd (problem_objects g).

(** ** PDDLAgent *)

Section Agent.

Context {A : Type}.

(** The two fields [PDDLAgent.step] uses. *)
Record PDDLAgent : Type := {
  action_plan : list A;
  time_step : Z
}.

(** [PDDLAgent.initialize], from the plan file the solver has written:
    the files and the solver run are outside the model. *)
Definition initialize (actions : list A) (plan_file : string) : result PDDLAgent :=
  plan <- generatePlan actions plan_file ;;
  Ok {| action_plan := plan; time_step := 0 |}.

(** [PDDLAgent.step]: the action returned and the agent after the call. *)
Definition step (self : PDDLAgent) : result (A * PDDLAgent) :=
  action <- py_get (action_plan self) (time_step self) ;;
  Ok (action, {| action_plan := action_plan self;
                 time_step := time_step self + 1 |}).

(** [n] successive calls of [step]: the actions returned, in order. *)
Fixpoint steps (n : nat) (self : PDDLAgent) : result (list A * PDDLAgent) :=
  match n with
  | O => Ok ([], self)
  | S n' =>
      r <- step self ;;
      rest <- steps n' (snd r) ;;
      Ok (fst r :: fst rest, snd rest)
  end.

End Agent.

Arguments PDDLAgent A : clear implicits.

(** ** Notions used in the further statements *)

(** The cars whose cells lines 201-205 can remove from the grid: every car
    away from the origin is on the grid, and no two of them share a cell. *)
Definition cars_removable (g : Gen) : bool :=
  forallb (fun c => is_origin (car_position c) || in_grid g (car_position c))
          (cars (state g))
  && distinct_points
       (filter (fun p => negb (is_origin p)) (map car_position (cars (state g)))).

(** Whether the removals of lines 201-205 all find their cell in [row]. *)
Fixpoint removable (cs : list Car) (row : list string) : bool :=
  match cs with
  | [] => true
  | c :: r =>
      let name := pt (px (car_position c)) (py (car_position c)) in
      if is_origin (car_position c) then removable r row
      else mem name row && removable r (remove_first name row)
  end.

(** The blocked facts of a list of facts, in order. *)
Definition is_blocked_fact (f : fact) : bool :=
  match f with
  | Blocked _ _ => true
  | _ => false
  end.

Definition blocked_facts (fs : list fact) : list fact := filter is_blocked_fact fs.

(** A row step of instant [t] that appends no blocked fact twice. *)
Definition once_step (f : row_step) : Prop :=
  forall row, NoDup row -> NoDup (blocked_facts (fst (f row))).

(** The environment action a well-formed plan line stands for. *)
Definition translate_action {A : Type} (actions : list A) (p : plan_action)
  : result A :=
  match p with
  | PUp _ y1 _ y2 _ _ => py_get actions (if y1 =? y2 then -1 else 0)
  | PDown _ y1 _ y2 _ _ => py_get actions (if y1 =? y2 then -1 else 1)
  | PForward _ _ _ _ _ _ s => py_get actions s
  end.

(** A plan file as the planner writes it: one line per action and a closing
    comment line with the cost. *)
Definition sas_plan (ps : list plan_action) (cost : Z) : string :=
  (fold_right (fun p acc => plan_line p ++ acc)
              ("; cost = " ++ str cost ++ " (unit cost)" ++ String newline EmptyString)
              ps)%string.

(** An agent whose speed range reaches 0. *)
Definition idle_agent_snapshot : Gen :=
  snapshot 5 3 [car_at 1 3 1 (-1)] (4, 2) (-3, 0) (0, 0).

(** An agent faster than the grid is wide. *)
Definition narrow_snapshot : Gen :=
  snapshot 2 2 [car_at 1 1 1 (-1)] (1, 1) (-3, -3) (0, 0).

(** Two cars on the same cell. *)
Definition collision_snapshot : Gen :=
  snapshot 5 3 [car_at 1 3 1 (-1); car_at 2 3 1 (-2)] (4, 2) (-3, -1) (0, 0).

(** Two cars of one lane that meet on (1,1) at instant 1. *)
Definition meeting_snapshot : Gen :=
  snapshot 5 3 [car_at 1 2 1 (-1); car_at 2 3 1 (-2)] (4, 2) (-3, -1) (0, 0).

(** The names of a list, each followed by a space. *)
Definition spaced (l : list string) : string :=
  fold_right (fun o r => (o ++ String " " r)%string) EmptyString l.

(** ** The text of the problem file *)

(** [addProblemHeader]. *)
Definition addProblemHeader (problem_name domain_name : string) : string :=
  ("(define (problem " ++ problem_name ++ ") " ++ String newline " (:domain "
     ++ domain_name ++ ") " ++ String newline EmptyString)%string.

(** [addInitState] and [addGoalState]: the two sections around the strings of
    [generateInitString] and [generateGoalString]. *)
Definition addInitState (g : Gen) : result string :=
  facts <- generateInitString g ;;
  Ok (addHeader "init" ++ render facts ++ addFooter)%string.

Definition addGoalState (g : Gen) : string :=
  (addHeader "goal" ++ render_condition (generateGoalString g) ++ addFooter)%string.

(** The text [generateProblemPDDL] writes at the end of
    [generateProblemPDDLFile]: header, objects, init, goal, closing footer. *)
Definition generateProblemPDDLFile (g : Gen) : result string :=
  let problem_header := addProblemHeader "parking" "grid_world" in
  initString <- addInitState g ;;
  Ok (problem_header ++ object_strings g ++ initString ++ addGoalState g
        ++ addFooter)%string.

(** Reading a text from the left: the number of parentheses still open, or
    [None] when a closing parenthesis has no opening one. *)
Fixpoint paren_scan (depth : nat) (s : string) : option nat :=
  match s with
  | EmptyString => Some depth
  | String c r =>
      if Ascii.eqb c "(" then paren_scan (S depth) r
      else if Ascii.eqb c ")" then
             match depth with
             | O => None
             | S d => paren_scan d r
             end
           else paren_scan depth r
  end.

Definition well_parenthesised (s : string) : Prop := paren_scan 0 s = Some O.

Definition no_paren (c : ascii) : bool :=
  negb (Ascii.eqb c "(") && negb (Ascii.eqb c ")").

(** The names a fact carries. *)
Definition fact_names (f : fact) : list string :=
  match f with
  | At c _ who => [c; who]
  | Blocked c _ | NotBlocked c _ => [c]
  | UpNext c n _ | DownNext c n _ | ForwardNext c n _ _ => [c; n]
  | NextInstant _ _ => []
  end.
(** ** The domain file *)

(** The fields of the generator that the domain file is built from.  The
    attribute [domain_header] does not exist before [addDomainHeader] is
    called: [None]. *)
Record DomainGen : Type := {
  domain_header : option string;
  type_string : string;
  predicate_strings : string;
  action_strings : string
}.

(** The fields as [__init__] leaves them. *)
Definition new_domain : DomainGen :=
  {| domain_header := None;
     type_string := EmptyString;
     predicate_strings := addHeader "predicates";
     action_strings := EmptyString |}.

Definition line_end : string := String newline EmptyString.

(** [addDomainHeader]. *)
Definition addDomainHeader (name : string) (self : DomainGen) : DomainGen :=
  {| domain_header :=
       Some ("(define (domain " ++ name ++ " ) " ++ line_end
               ++ "(:requirements :strips :typing) " ++ line_end)%string;
     type_string := type_string self;
     predicate_strings := predicate_strings self;
     action_strings := action_strings self |}.

(** [addTypes]: [types] are the items of the dict, in its order; a type
    without supertype has [None]. *)
Definition addTypes (types : list (string * option string)) (self : DomainGen)
  : DomainGen :=
  let type_string :=
    fold_left (fun acc item =>
                 match snd item with
                 | None => acc ++ fst item ++ line_end
                 | Some _supertype =>
                     acc ++ fst item ++ " - " ++ _supertype ++ line_end
                 end)%string
              types "(:types "%string in
  {| domain_header := domain_header self;
     type_string := (type_string ++ ") " ++ line_end)%string;
     predicate_strings := predicate_strings self;
     action_strings := action_strings self |}.

(** The loop over [parameters] of [addPredicate] and [addAction]. *)
Definition add_parameters (parameters : list (string * string)) (acc : string)
  : string :=
  fold_left (fun acc p => acc ++ " ?" ++ fst p ++ " - " ++ snd p)%string
            parameters acc.

(** [addPredicate]. *)
Definition addPredicate (name : string) (parameters : list (string * string))
           (isLastPredicate : bool) (self : DomainGen) : DomainGen :=
  let predicate_string :=
    (add_parameters parameters ("(" ++ name) ++ ") " ++ line_end)%string in
  let predicate_strings := (predicate_strings self ++ predicate_string)%string in
  {| domain_header := domain_header self;
     type_string := type_string self;
     predicate_strings :=
       if isLastPredicate then (predicate_strings ++ addFooter)%string
       else predicate_strings;
     action_strings := action_strings self |}.

(** [addAction]. *)
Definition addAction (name : string) (parameters : list (string * string))
           (precondition_string effect_string : string) (self : DomainGen)
  : DomainGen :=
  let action_string := (name ++ line_end)%string in
  let parameter_string :=
    (add_parameters parameters ":parameters (" ++ ") " ++ line_end)%string in
  let precondition_string :=
    (":precondition " ++ precondition_string ++ line_end)%string in
  let effect_string := (":effect " ++ effect_string ++ line_end)%string in
  let action_string :=
    (action_string ++ parameter_string ++ precondition_string ++ effect_string)%string in
  let action_string := (addHeader "action" ++ action_string ++ addFooter)%string in
  {| domain_header := domain_header self;
     type_string := type_string self;
     predicate_strings := predicate_strings self;
     action_strings := (action_strings self ++ action_string)%string |}.

(** The text [generateDomainPDDL] writes; [None] when [domain_header] was
    never set (the attribute is missing). *)
Definition generateDomainPDDL (self : DomainGen) : option string :=
  match domain_header self with
  | Some header =>
      Some (header ++ type_string self ++ predicate_strings self
              ++ action_strings self ++ addFooter)%string
  | None => None
  end.

(** A call of one of the four builders, and a sequence of calls on a fresh
    generator. *)
Inductive domain_call : Type :=
| AddDomainHeader (name : string)
| AddTypes (types : list (string * option string))
| AddPredicate (name : string) (parameters : list (string * string))
               (isLastPredicate : bool)
| AddAction (name : string) (parameters : list (string * string))
            (precondition_string effect_string : string).

Definition call (self : DomainGen) (c : domain_call) : DomainGen :=
  match c with
  | AddDomainHeader name => addDomainHeader name self
  | AddTypes types => addTypes types self
  | AddPredicate name parameters isLastPredicate =>
      addPredicate name parameters isLastPredicate self
  | AddAction name parameters precondition_string effect_string =>
      addAction name parameters precondition_string effect_string self
  end.

Definition calls (cs : list domain_call) (self : DomainGen) : DomainGen :=
  fold_left call cs self.

(** The calls of [generateDomainPDDLFile], in order. *)
Definition domain_calls : list domain_call :=
  [ AddDomainHeader "grid_world";
    AddTypes [("car", None); ("agent", Some "car"); ("gridcell", None);
              ("time", None); ("speed", None)];
    AddPredicate "at" [("pt1", "gridcell"); ("t", "time"); ("car", "car")] false;
    AddPredicate "up_next"
                 [("pt1", "gridcell"); ("pt2", "gridcell"); ("t", "time")] false;
    AddPredicate "down_next"
                 [("pt1", "gridcell"); ("pt2", "gridcell"); ("t", "time")] false;
    AddPredicate "forward_next"
                 [("pt1", "gridcell"); ("pt2", "gridcell"); ("t", "time");
                  ("s", "speed")] false;
    AddPredicate "next_instant" [("t1", "time"); ("t2", "time")] false;
    AddPredicate "blocked" [("pt1", "gridcell"); ("t", "time")] true;
    AddAction "UP"
              [("pt1", "gridcell"); ("pt2", "gridcell"); ("t1", "time");
               ("t2", "time")]
              "(and (at ?pt1 ?t1 agent1) (up_next ?pt1 ?pt2 ?t2) (not (blocked ?pt2 ?t2)) (next_instant ?t1 ?t2))"
              "(at ?pt2 ?t2 agent1) ";
    AddAction "DOWN"
              [("pt1", "gridcell"); ("pt2", "gridcell"); ("t1", "time");
               ("t2", "time")]
              "(and (at ?pt1 ?t1 agent1) (down_next ?pt1 ?pt2 ?t2) (not (blocked ?pt2 ?t2)) (next_instant ?t1 ?t2))"
              " (at ?pt2 ?t2 agent1) ";
    AddAction "FORWARD"
              [("pt1", "gridcell"); ("pt2", "gridcell"); ("t1", "time");
               ("t2", "time"); ("s", "speed")]
              "(and (at ?pt1 ?t1 agent1) (forward_next ?pt1 ?pt2 ?t2 ?s) (not (blocked ?pt2 ?t2)) (next_instant ?t1 ?t2))"
              " (at ?pt2 ?t2 agent1) " ]%string.

(** The text [generateDomainPDDLFile] writes. *)
Definition generateDomainPDDLFile : option string :=
  generateDomainPDDL (calls domain_calls new_domain).

(** A text whose parentheses match. *)
Definition balanced (s : string) : bool :=
  match paren_scan 0 s with
  | Some O => true
  | _ => false
  end.

Definition plain_parameters (parameters : list (string * string)) : bool :=
  forallb (fun p => all_chars no_paren (fst p) && all_chars no_paren (snd p))
          parameters.

(** A call whose names carry no parenthesis and whose precondition and effect
    are balanced. *)
Definition plain_call (c : domain_call) : bool :=
  match c with
  | AddDomainHeader name => all_chars no_paren name
  | AddTypes types =>
      forallb (fun item =>
                 all_chars no_paren (fst item)
                 && match snd item with
                    | Some _supertype => all_chars no_paren _supertype
                    | None => true
                    end) types
  | AddPredicate name parameters _ =>
      all_chars no_paren name && plain_parameters parameters
  | AddAction name parameters precondition_string effect_string =>
      all_chars no_paren name && plain_parameters parameters
      && balanced precondition_string && balanced effect_string
  end.

(** The number of [addPredicate] calls flagged [isLastPredicate]. *)
Definition closing_predicates (cs : list domain_call) : nat :=
  List.length (filter (fun c => match c with
                                | AddPredicate _ _ true => true
                                | _ => false
                                end) cs).

(** What the four strings of a generator do to the count of open parentheses,
    after [k] flagged predicates. *)
Definition domain_depths (k : nat) (s : DomainGen) : Prop :=
  (forall h d, domain_header s = Some h -> paren_scan d h = Some (S d))
  /\ (forall d, paren_scan d (type_string s) = Some d)
  /\ (forall d, paren_scan d (predicate_strings s)
                = if (k <=? S d)%nat then Some (S d - k)%nat else None)
  /\ (forall d, paren_scan d (action_strings s) = Some d).

(* ===================================================================== *)
(** * Facts about the Python helpers *)
(* ===================================================================== *)

Lemma bind_ok {A B : Type} (m : result A) (k : A -> result B) (b : B) :
  bind m k = Ok b -> exists a, m = Ok a /\ k a = Ok b.
Proof.
  destruct m as [a|e]; simpl; intros H; [exists a; auto | discriminate].
Qed.

Lemma in_range (a b i : Z) : In i (range a b) <-> a <= i < b.
Proof.
  unfold range. rewrite in_map_iff. split.
  - intros [k [<- Hk]]. apply in_seq in Hk. lia.
  - intros H. exists (Z.to_nat (i - a)). split; [lia|].
    apply in_seq. lia.
Qed.

Lemma range_empty (a b : Z) : b <= a -> range a b = [].
Proof.
  intros H. unfold range. replace (Z.to_nat (b - a)) with O by lia. reflexivity.
Qed.

Lemma range_cons (a b : Z) : a < b -> range a b = a :: range (a + 1) b.
Proof.
  intros H. unfold range.
  replace (Z.to_nat (b - a)) with (S (Z.to_nat (b - (a + 1)))) by lia.
  simpl. f_equal; [lia|].
  rewrite <- seq_shift, map_map. apply map_ext. intros; lia.
Qed.

Lemma range_snoc (a b : Z) : a <= b -> range a (b + 1) = range a b ++ [b].
Proof.
  intros H. unfold range.
  replace (Z.to_nat (b + 1 - a)) with (Z.to_nat (b - a) + 1)%nat by lia.
  rewrite seq_app, map_app. simpl. do 2 f_equal. lia.
Qed.

Lemma NoDup_range (a b : Z) : NoDup (range a b).
Proof.
  unfold range. apply Injective_map_NoDup; [|apply seq_NoDup].
  intros x y; lia.
Qed.

Lemma length_range (a b : Z) : List.length (range a b) = Z.to_nat (b - a).
Proof. unfold range. now rewrite length_map, length_seq. Qed.

Lemma nth_error_range (a b : Z) (k : nat) :
  (k < Z.to_nat (b - a))%nat -> nth_error (range a b) k = Some (a + Z.of_nat k).
Proof.
  intros H. unfold range. rewrite nth_error_map, nth_error_seq.
  destruct (Nat.ltb_spec k (Z.to_nat (b - a))); [reflexivity | lia].
Qed.

Lemma py_index_nonneg (len : nat) (t : Z) :
  0 <= t < Z.of_nat len -> py_index len t = Ok (Z.to_nat t).
Proof.
  intros H. unfold py_index.
  destruct (Z.ltb_spec t 0); [lia|].
  destruct (Z.leb_spec 0 t); [|lia].
  destruct (Z.ltb_spec t (Z.of_nat len)); [reflexivity | lia].
Qed.

Lemma py_get_nonneg {A : Type} (l : list A) (t : Z) (a : A) :
  0 <= t -> nth_error l (Z.to_nat t) = Some a -> py_get l t = Ok a.
Proof.
  intros Ht H. unfold py_get.
  assert (Z.to_nat t < List.length l)%nat by (apply nth_error_Some; congruence).
  rewrite py_index_nonneg by lia. simpl. now rewrite H.
Qed.

Lemma py_get_ok_nonneg {A : Type} (l : list A) (t : Z) (a : A) :
  0 <= t -> py_get l t = Ok a -> nth_error l (Z.to_nat t) = Some a.
Proof.
  intros Ht. unfold py_get, py_index.
  destruct (Z.ltb_spec t 0); [lia|].
  destruct ((0 <=? t) && (t <? Z.of_nat (List.length l))); simpl; [|discriminate].
  destruct (nth_error l (Z.to_nat t)); congruence.
Qed.

Lemma py_get_last {A : Type} (l : list A) (a : A) : py_get (l ++ [a]) (-1) = Ok a.
Proof.
  unfold py_get.
  assert (E : py_index (List.length (l ++ [a])) (-1) = Ok (List.length l)).
  { unfold py_index. rewrite length_app. cbn [List.length].
    change (-1 <? 0) with true. cbv iota.
    destruct (Z.leb_spec 0 (-1 + Z.of_nat (List.length l + 1))); [|lia].
    destruct (Z.ltb_spec (-1 + Z.of_nat (List.length l + 1))
                         (Z.of_nat (List.length l + 1))); [|lia].
    cbn [andb]. f_equal. lia. }
  rewrite E. cbn [bind].
  rewrite nth_error_app2, Nat.sub_diag by lia. reflexivity.
Qed.

Lemma nth_error_list_set_eq {A : Type} (l : list A) (i : nat) (v : A) :
  (i < List.length l)%nat -> nth_error (list_set l i v) i = Some v.
Proof.
  revert i; induction l as [|a l IH]; intros [|i] H; simpl in *; try lia; auto.
  apply IH; lia.
Qed.

Lemma nth_error_list_set_neq {A : Type} (l : list A) (i j : nat) (v : A) :
  i <> j -> nth_error (list_set l i v) j = nth_error l j.
Proof.
  revert i j; induction l as [|a l IH]; intros [|i] [|j] H; simpl; auto; try lia.
Qed.

Lemma length_list_set {A : Type} (l : list A) (i : nat) (v : A) :
  List.length (list_set l i v) = List.length l.
Proof.
  revert i; induction l as [|a l IH]; intros [|i]; simpl; auto.
Qed.

Lemma mem_In (name : string) (l : list string) : mem name l = true <-> In name l.
Proof.
  unfold mem. rewrite existsb_exists. split.
  - intros [x [Hx He]]. apply String.eqb_eq in He. now subst.
  - intros H. exists name. split; [assumption | apply String.eqb_refl].
Qed.

Lemma mem_false (name : string) (l : list string) :
  mem name l = false <-> ~ In name l.
Proof.
  rewrite <- mem_In. destruct (mem name l); split; congruence.
Qed.

(** Removing a member succeeds and, on a duplicate-free list, removes it. *)
Lemma list_remove_In (name : string) (l : list string) :
  In name l -> exists l', list_remove name l = Ok l'.
Proof.
  induction l as [|c l IH]; simpl; [tauto|].
  intros H. destruct (String.eqb_spec c name) as [->|Hne]; [eauto|].
  destruct H as [H|H]; [congruence|].
  destruct (IH H) as [l' ->]. simpl. eauto.
Qed.

Lemma list_remove_spec (name : string) (l l' : list string) :
  NoDup l -> list_remove name l = Ok l' ->
  NoDup l' /\ forall c, In c l' <-> In c l /\ c <> name.
Proof.
  revert l'. induction l as [|c l IH]; simpl; intros l' Hnd H; [discriminate|].
  inversion Hnd as [|? ? Hc Hnd']; subst.
  destruct (String.eqb_spec c name) as [->|Hne].
  - injection H as <-. split; [assumption|].
    intros c; split.
    + intros Hin. split; [auto|]. intros ->. contradiction.
    + intros [[?|?] ?]; congruence.
  - apply bind_ok in H. destruct H as [l'' [Hr H]]. injection H as <-.
    destruct (IH l'' Hnd' Hr) as [Hnd'' Hin]. split.
    + constructor; [|assumption]. rewrite Hin. tauto.
    + intros c0; simpl. rewrite Hin. split.
      * intros [<-|[? ?]]; auto.
      * intros [[?|?] ?]; auto.
Qed.

(* ===================================================================== *)
(** * Printed integers and cell names *)
(* ===================================================================== *)

Ltac by_ascii c :=
  destruct c as [[] [] [] [] [] [] [] []]; vm_compute; intros; congruence.

Lemma numeral_not_space c : numeral_char c = true -> is_space c = false.
Proof. by_ascii c. Qed.

Lemma numeral_not_p c : numeral_char c = true -> Ascii.eqb c "p" = false.
Proof. by_ascii c. Qed.

Lemma digit_numeral c : is_digit c = true -> numeral_char c = true.
Proof. by_ascii c. Qed.

Lemma digit_not_sign c :
  is_digit c = true -> Ascii.eqb c "-" = false /\ Ascii.eqb c "+" = false.
Proof. split; revert H; by_ascii c. Qed.

Lemma cell_char_not_space c : cell_char c = true -> is_space c = false.
Proof. by_ascii c. Qed.

Lemma all_chars_app p s1 s2 :
  all_chars p (s1 ++ s2) = all_chars p s1 && all_chars p s2.
Proof.
  induction s1 as [|c s1 IH]; simpl; [reflexivity|].
  now rewrite IH, andb_assoc.
Qed.

Lemma all_chars_impl (p q : ascii -> bool) s :
  (forall c, p c = true -> q c = true) ->
  all_chars p s = true -> all_chars q s = true.
Proof.
  intros Hpq. induction s as [|c s IH]; simpl; [reflexivity|].
  intros H. apply andb_true_iff in H. destruct H as [H1 H2].
  rewrite (Hpq _ H1), (IH H2). reflexivity.
Qed.

Lemma append_assoc (s1 s2 s3 : string) :
  ((s1 ++ s2) ++ s3 = s1 ++ (s2 ++ s3))%string.
Proof. induction s1 as [|c s1 IH]; simpl; [reflexivity | now rewrite IH]. Qed.

Lemma append_empty_r (s : string) : (s ++ EmptyString = s)%string.
Proof. induction s as [|c s IH]; simpl; [reflexivity | now rewrite IH]. Qed.

Lemma snoc_append (s : string) (c : ascii) (r : string) :
  (snoc s c ++ r = s ++ String c r)%string.
Proof. unfold snoc. now rewrite append_assoc. Qed.

Lemma uint_digits (d : Decimal.uint) :
  all_chars is_digit (NilEmpty.string_of_uint d) = true.
Proof. induction d; simpl; auto. Qed.

(** A printed integer is an optional minus sign followed by the digits of its
    absolute value, at least one. *)
Lemma str_shape (z : Z) :
  exists u, u <> Decimal.Nil /\ Z.of_uint u = Z.abs z /\
            str z = if z <? 0
                    then String "-" (NilEmpty.string_of_uint u)
                    else NilEmpty.string_of_uint u.
Proof.
  destruct z as [|p|p].
  - exists (Decimal.D0 Decimal.Nil). repeat split; discriminate.
  - exists (Pos.to_uint p). split; [apply DecimalPos.Unsigned.to_uint_nonnil|].
    split.
    + unfold Z.of_uint. now rewrite DecimalPos.Unsigned.of_to.
    + unfold str. simpl. unfold NilZero.string_of_uint.
      destruct (Pos.to_uint p) eqn:E; try reflexivity.
      now apply DecimalPos.Unsigned.to_uint_nonnil in E.
  - exists (Pos.to_uint p). split; [apply DecimalPos.Unsigned.to_uint_nonnil|].
    split.
    + unfold Z.of_uint. now rewrite DecimalPos.Unsigned.of_to.
    + unfold str. simpl. unfold NilZero.string_of_uint.
      destruct (Pos.to_uint p) eqn:E; try reflexivity.
      now apply DecimalPos.Unsigned.to_uint_nonnil in E.
Qed.

Lemma str_numeral (z : Z) : all_chars numeral_char (str z) = true.
Proof.
  destruct (str_shape z) as [u [_ [_ ->]]].
  assert (H : all_chars numeral_char (NilEmpty.string_of_uint u) = true).
  { apply all_chars_impl with (p := is_digit);
      [apply digit_numeral | apply uint_digits]. }
  destruct (z <? 0); simpl; auto.
Qed.

Lemma str_not_empty (z : Z) : is_empty (str z) = false.
Proof.
  destruct (str_shape z) as [u [Hu [_ ->]]].
  destruct (z <? 0); [reflexivity|]. destruct u; try reflexivity. congruence.
Qed.

Lemma lstrip_no_space (s : string) :
  all_chars (fun c => negb (is_space c)) s = true -> lstrip s = s.
Proof.
  destruct s as [|c s]; simpl; [reflexivity|].
  intros H. apply andb_true_iff in H. destruct H as [H _].
  destruct (is_space c); [discriminate | reflexivity].
Qed.

Lemma rstrip_no_space (s : string) :
  all_chars (fun c => negb (is_space c)) s = true -> rstrip s = s.
Proof.
  induction s as [|c s IH]; simpl; [reflexivity|].
  intros H. apply andb_true_iff in H. destruct H as [H1 H2].
  rewrite (IH H2). destruct (is_space c); [discriminate | reflexivity].
Qed.

Lemma digit_groups_uint (b : bool) (u : Decimal.uint) :
  u <> Decimal.Nil ->
  digit_groups b (NilEmpty.string_of_uint u) = Some (NilEmpty.string_of_uint u).
Proof.
  assert (G : forall u, digit_groups true (NilEmpty.string_of_uint u)
                        = Some (NilEmpty.string_of_uint u)).
  { induction u0; simpl; try rewrite IHu0; reflexivity. }
  intros Hu. destruct u; try congruence; simpl; rewrite G; reflexivity.
Qed.

Lemma unsigned_literal_uint (u : Decimal.uint) :
  u <> Decimal.Nil ->
  unsigned_literal (NilEmpty.string_of_uint u) = Ok (Z.of_uint u).
Proof.
  intros Hu. unfold unsigned_literal.
  now rewrite digit_groups_uint, NilEmpty.usu.
Qed.

(** [int(str(z)) == z]. *)
Lemma py_int_str (z : Z) : py_int (str z) = Ok z.
Proof.
  unfold py_int.
  assert (Hs : all_chars (fun c => negb (is_space c)) (str z) = true).
  { apply all_chars_impl with (p := numeral_char); [|apply str_numeral].
    intros c Hc. now rewrite numeral_not_space. }
  rewrite rstrip_no_space, lstrip_no_space by (try rewrite rstrip_no_space; assumption).
  destruct (str_shape z) as [u [Hu [Habs ->]]].
  destruct (Z.ltb_spec z 0).
  - change (Ascii.eqb "-" "-") with true. cbv iota.
    rewrite unsigned_literal_uint by assumption. simpl. f_equal. lia.
  - destruct u as [|u|u|u|u|u|u|u|u|u|u]; try congruence;
      cbn [NilEmpty.string_of_uint];
      match goal with
      | |- context [Ascii.eqb ?c "-"] =>
          change (Ascii.eqb c "-") with false; change (Ascii.eqb c "+") with false
      end; cbv iota;
      match goal with
      | |- unsigned_literal ?s = _ =>
          match goal with
          | Habs : Z.of_uint ?v = _ |- _ =>
              change s with (NilEmpty.string_of_uint v)
          end
      end;
      rewrite unsigned_literal_uint by congruence; f_equal; lia.
Qed.

Lemma str_inj (a b : Z) : str a = str b -> a = b.
Proof.
  intros H. assert (E : py_int (str a) = py_int (str b)) by now rewrite H.
  rewrite !py_int_str in E. congruence.
Qed.

(** Scanning for the separator passes over text without the letter p. *)
Lemma split_pt_from_skip (s cur rest : string) :
  all_chars (fun c => negb (Ascii.eqb c "p")) s = true ->
  split_pt_from cur (s ++ rest) = split_pt_from (cur ++ s) rest.
Proof.
  revert cur. induction s as [|c s IH]; intros cur H; simpl.
  - now rewrite append_empty_r.
  - simpl in H. apply andb_true_iff in H. destruct H as [H1 H2].
    destruct (Ascii.eqb c "p"); [discriminate|].
    rewrite IH by assumption. unfold snoc. now rewrite append_assoc.
Qed.

Lemma str_no_p (z : Z) : all_chars (fun c => negb (Ascii.eqb c "p")) (str z) = true.
Proof.
  apply all_chars_impl with (p := numeral_char); [|apply str_numeral].
  intros c Hc. now rewrite numeral_not_p.
Qed.

Lemma split_pt_pt (x y : Z) : split_pt (pt x y) = [EmptyString; str x; str y].
Proof.
  unfold split_pt, pt. cbn [append split_pt_from].
  change (Ascii.eqb "p" "p") with true. change (Ascii.eqb "t" "p") with false.
  change (Ascii.eqb "t" "t") with true. cbv iota.
  rewrite split_pt_from_skip by apply str_no_p.
  cbn [append split_pt_from].
  change (Ascii.eqb "p" "p") with true. change (Ascii.eqb "t" "t") with true.
  cbv iota.
  rewrite <- (append_empty_r (str y)) at 1.
  rewrite split_pt_from_skip by apply str_no_p. reflexivity.
Qed.

(** A cell name read back gives the coordinates it was made from. *)
Lemma parse_cell_pt (x y : Z) : parse_cell (pt x y) = Ok (x, y).
Proof.
  unfold parse_cell. rewrite split_pt_pt, !py_int_str. reflexivity.
Qed.

Lemma pt_inj (x y x' y' : Z) : pt x y = pt x' y' -> x = x' /\ y = y'.
Proof.
  intros H. assert (E : parse_cell (pt x y) = parse_cell (pt x' y')) by now rewrite H.
  rewrite !parse_cell_pt in E. split; congruence.
Qed.

Lemma pt_cell_chars (x y : Z) : all_chars cell_char (pt x y) = true.
Proof.
  unfold pt. simpl. rewrite all_chars_app. simpl. rewrite !andb_true_iff.
  assert (H : forall z, all_chars cell_char (str z) = true).
  { intros z. apply all_chars_impl with (p := numeral_char); [|apply str_numeral].
    intros c Hc. unfold cell_char. now rewrite Hc. }
  auto.
Qed.

(* ===================================================================== *)
(** * From the loops over [free_cells] to row steps *)
(* ===================================================================== *)

Lemma list_set_same {A : Type} (l : list A) (i : nat) (v : A) :
  nth_error l i = Some v -> list_set l i v = l.
Proof.
  revert i; induction l as [|a l IH]; intros [|i] H; simpl in *; try congruence.
  f_equal. now apply IH.
Qed.

Lemma list_set_twice {A : Type} (l : list A) (i : nat) (v v' : A) :
  list_set (list_set l i v) i v' = list_set l i v'.
Proof.
  revert i; induction l as [|a l IH]; intros [|i]; simpl; auto.
  now rewrite IH.
Qed.

Lemma nth_error_lt {A : Type} (l : list A) (i : nat) (v : A) :
  nth_error l i = Some v -> (i < List.length l)%nat.
Proof. intros H. apply nth_error_Some. congruence. Qed.

Lemma remove_first_In (name : string) (row : list string) :
  In name row -> list_remove name row = Ok (remove_first name row).
Proof.
  intros H. unfold remove_first.
  destruct (list_remove_In name row H) as [r ->]. reflexivity.
Qed.

Lemma remove_free_row (t : Z) (name : string) (st : InitSt) (row : list string) :
  0 <= t -> nth_error (free_cells st) (Z.to_nat t) = Some row -> In name row ->
  remove_free t name st
  = Ok {| initString := initString st;
          free_cells := list_set (free_cells st) (Z.to_nat t) (remove_first name row) |}.
Proof.
  intros Ht Hrow Hin. unfold remove_free.
  pose proof (nth_error_lt _ _ _ Hrow) as Hlt.
  rewrite py_index_nonneg by lia. cbn [bind].
  rewrite (py_get_nonneg _ _ _ Ht Hrow). cbn [bind].
  rewrite (remove_first_In _ _ Hin). reflexivity.
Qed.

Lemma row_local_skip (t : Z) : row_local t (fun st => Ok st) skip_row.
Proof.
  intros [out fc] row H. cbn in *. now rewrite app_nil_r, list_set_same.
Qed.

Lemma row_local_block_if_free (t : Z) (name : string) (fs : list fact) :
  0 <= t -> row_local t (block_if_free t name fs) (block_row name fs).
Proof.
  intros Ht st row H. unfold block_if_free, is_free, block_row.
  rewrite (py_get_nonneg _ _ _ Ht H). cbn [bind].
  destruct (mem name row) eqn:E.
  - apply mem_In in E. now rewrite (remove_free_row t name (emit fs st) row).
  - now apply row_local_skip.
Qed.

Lemma row_local_then (t : Z) op1 op2 f1 f2 :
  row_local t op1 f1 -> row_local t op2 f2 ->
  row_local t (fun st => bind (op1 st) op2) (then_row f1 f2).
Proof.
  intros H1 H2 st row H. rewrite (H1 st row H). cbn [bind].
  pose proof (nth_error_lt _ _ _ H) as Hlt.
  erewrite H2; [|cbn [free_cells]; now apply nth_error_list_set_eq].
  cbn [initString free_cells]. unfold then_row. cbn [fst snd].
  now rewrite list_set_twice, app_assoc.
Qed.

Lemma row_local_each {X : Type} (t : Z) (body : X -> InitSt -> result InitSt)
      (f : X -> row_step) (xs : list X) :
  (forall x, row_local t (body x) (f x)) ->
  row_local t (for_each body xs) (each_row f xs).
Proof.
  intros H. induction xs as [|x xs IH].
  - apply row_local_skip.
  - cbn [for_each each_row]. now apply row_local_then.
Qed.

Lemma row_local_sweep_car (w t : Z) (c : Car) :
  0 <= t -> row_local t (sweep_car w t c) (sweep_car_row w t c).
Proof.
  intros Ht. unfold sweep_car, sweep_car_row.
  apply row_local_then; [now apply row_local_block_if_free|].
  destruct (_ && _).
  - apply row_local_each. intros x. now apply row_local_block_if_free.
  - destruct (_ <? _).
    + apply row_local_each. intros x. now apply row_local_block_if_free.
    + apply row_local_skip.
Qed.

Lemma row_local_sweep_instant (g : Gen) (t : Z) :
  0 <= t -> row_local t (sweep_instant g t) (sweep_instant_row g t).
Proof.
  intros Ht. unfold sweep_instant, sweep_instant_row.
  apply row_local_then.
  - apply row_local_each. intros c. now apply row_local_sweep_car.
  - intros [out fc] row H. cbn in *.
    rewrite (py_get_nonneg _ _ _ Ht H). cbn [bind]. unfold emit. cbn.
    now rewrite list_set_same.
Qed.

(** A loop over distinct instants, each step local to its own row. *)
Lemma for_each_rows (op : Z -> InitSt -> result InitSt) (f : Z -> row_step)
      (row0 : list string) (ts : list Z) :
  NoDup ts ->
  (forall t, In t ts -> 0 <= t /\ row_local t (op t) (f t)) ->
  forall st,
    (forall t, In t ts -> nth_error (free_cells st) (Z.to_nat t) = Some row0) ->
    exists fc,
      for_each op ts st
      = Ok {| initString := initString st ++ flat_map (fun t => fst (f t row0)) ts;
              free_cells := fc |}
      /\ List.length fc = List.length (free_cells st)
      /\ (forall t, In t ts -> nth_error fc (Z.to_nat t) = Some (snd (f t row0)))
      /\ (forall k, (forall t, In t ts -> Z.to_nat t <> k) ->
                    nth_error fc k = nth_error (free_cells st) k).
Proof.
  intros Hnd. induction ts as [|t ts IH]; intros Hop st Hrows.
  - exists (free_cells st). cbn. rewrite app_nil_r. destruct st; cbn.
    repeat split; auto. intros t [].
  - inversion Hnd as [|? ? Hnotin Hnd']; subst.
    destruct (Hop t (or_introl eq_refl)) as [Ht Hloc].
    cbn [for_each]. rewrite (Hloc st row0) by (apply Hrows; now left).
    cbn [bind].
    assert (Hneq : forall t', In t' ts -> Z.to_nat t <> Z.to_nat t').
    { intros t' Hin E. destruct (Hop t' (or_intror Hin)) as [Ht' _].
      assert (t = t') by lia. subst. contradiction. }
    match goal with |- exists fc, for_each _ _ ?s = _ /\ _ => set (st1 := s) end.
    destruct (IH Hnd' (fun t' Hin' => Hop t' (or_intror Hin')) st1)
      as [fc [E [Hlen [Hin Hout]]]].
    { intros t' Hin'. subst st1. cbn [free_cells].
      rewrite nth_error_list_set_neq by (now apply Hneq).
      apply Hrows. now right. }
    subst st1.
    exists fc. rewrite E. cbn [initString free_cells flat_map] in *.
    rewrite length_list_set in Hlen.
    rewrite <- app_assoc. repeat split; auto.
    + intros t' [<-|Hin'].
      * rewrite Hout by (intros t' Hin' E'; now apply (Hneq t' Hin')).
        apply nth_error_list_set_eq. eapply nth_error_lt. apply Hrows. now left.
      * now apply Hin.
    + intros k Hk. rewrite Hout by (intros t' Hin'; apply Hk; now right).
      apply nth_error_list_set_neq. apply Hk. now left.
Qed.

(* ===================================================================== *)
(** * The grid *)
(* ===================================================================== *)

Lemma grid_cells_points (w l : Z) :
  generateGridCells w l = map (fun xy => pt (fst xy) (snd xy)) (grid_points w l).
Proof.
  unfold generateGridCells, grid_points.
  induction (range 0 w) as [|x xs IH]; cbn [flat_map map]; [reflexivity|].
  now rewrite map_app, map_map, IH.
Qed.

Lemma in_grid_points (w l x y : Z) :
  In (x, y) (grid_points w l) <-> 0 <= x < w /\ 0 <= y < l.
Proof.
  unfold grid_points. rewrite in_flat_map. split.
  - intros [x' [Hx H]]. apply in_map_iff in H. destruct H as [y' [E Hy]].
    injection E as -> ->. now rewrite in_range in Hx, Hy.
  - intros [Hx Hy]. exists x. rewrite in_range. split; [assumption|].
    apply in_map_iff. exists y. now rewrite in_range.
Qed.

Lemma in_grid_cells (w l : Z) (c : string) :
  In c (generateGridCells w l)
  <-> exists x y, 0 <= x < w /\ 0 <= y < l /\ c = pt x y.
Proof.
  rewrite grid_cells_points, in_map_iff. split.
  - intros [[x y] [E H]]. apply in_grid_points in H. exists x, y. cbn in E. intuition.
  - intros [x [y [Hx [Hy ->]]]]. exists (x, y). split; [reflexivity|].
    now apply in_grid_points.
Qed.

Lemma NoDup_grid_points (w l : Z) : NoDup (grid_points w l).
Proof.
  unfold grid_points.
  assert (G : forall xs : list Z, NoDup xs ->
            NoDup (flat_map (fun x => map (fun lane => (x, lane)) (range 0 l)) xs)).
  { induction xs as [|x xs IH]; intros Hnd; cbn [flat_map]; [constructor|].
    inversion Hnd as [|? ? Hx Hnd']; subst.
    apply NoDup_app.
    - apply Injective_map_NoDup; [|apply NoDup_range]. intros a b E. congruence.
    - now apply IH.
    - intros [a b] Hin Hin'. apply in_map_iff in Hin. destruct Hin as [y [E _]].
      apply in_flat_map in Hin'. destruct Hin' as [x' [Hx' Hin']].
      apply in_map_iff in Hin'. destruct Hin' as [y' [E' _]].
      congruence. }
  apply G, NoDup_range.
Qed.

Lemma NoDup_grid_cells (w l : Z) : NoDup (generateGridCells w l).
Proof.
  rewrite grid_cells_points. apply Injective_map_NoDup; [|apply NoDup_grid_points].
  intros [x y] [x' y'] E. cbn in E. apply pt_inj in E. destruct E; congruence.
Qed.

(* ===================================================================== *)
(** * generateInitString on a valid snapshot *)
(* ===================================================================== *)

Lemma valid_snapshot_spec (g : Gen) :
  valid_snapshot g = true ->
  (forall c, In c (cars (state g)) -> in_grid g (car_position c) = true)
  /\ distinct_points (filter (fun p => negb (is_origin p))
                             (map car_position (cars (state g)))) = true
  /\ 1 <= min_speed g <= width g.
Proof.
  unfold valid_snapshot. rewrite !andb_true_iff, forallb_forall.
  intros [[[H1 H2] H3] H4]. repeat split; auto; lia.
Qed.

Lemma in_grid_spec (g : Gen) (p : Point) :
  in_grid g p = true <-> 0 <= px p < width g /\ 0 <= py p < num_lanes g.
Proof. unfold in_grid. rewrite !andb_true_iff. lia. Qed.

Lemma horizon_ge_2 (g : Gen) : valid_snapshot g = true -> 2 <= horizon g.
Proof.
  intros H. apply valid_snapshot_spec in H. destruct H as [_ [_ H]].
  unfold horizon.
  assert (1 <= width g / min_speed g); [|lia].
  apply Z.div_le_lower_bound; lia.
Qed.

Lemma max_time_valid (g : Gen) :
  valid_snapshot g = true -> max_time g = Ok (horizon g).
Proof.
  intros H. apply valid_snapshot_spec in H. destruct H as [_ [_ H]].
  unfold max_time, py_floordiv. fold (min_speed g).
  destruct (Z.eqb_spec (min_speed g) 0); [lia | reflexivity].
Qed.

Lemma last_range (n : Z) :
  2 <= n -> last (map Some (range 1 n)) None = Some (n - 1).
Proof.
  intros H. replace n with (n - 1 + 1) at 1 by lia.
  rewrite range_snoc by lia. rewrite map_app. cbn [map]. apply last_last.
Qed.

Lemma point_eqb_spec (p q : Point) :
  point_eqb p q = true <-> px p = px q /\ py p = py q.
Proof. unfold point_eqb. rewrite andb_true_iff. lia. Qed.

(** Lines 201-205 do not raise when the cells they remove are distinct
    members of the row. *)
Lemma initial_loop (cs : list Car) :
  forall st row,
    nth_error (free_cells st) 0 = Some row ->
    NoDup row ->
    (forall c, In c cs -> is_origin (car_position c) = false ->
               In (pt (px (car_position c)) (py (car_position c))) row) ->
    distinct_points (filter (fun p => negb (is_origin p)) (map car_position cs)) = true ->
    for_each block_initial cs st
    = Ok {| initString := initString st ++ fst (each_row block_initial_row cs row);
            free_cells := list_set (free_cells st) 0
                                   (snd (each_row block_initial_row cs row)) |}.
Proof.
  induction cs as [|c cs IH]; intros st row Hrow Hnd Hin Hdist.
  - destruct st. cbn in *. now rewrite app_nil_r, list_set_same.
  - cbn [for_each each_row]. unfold then_row.
    assert (Hstep :
      block_initial c st
      = Ok {| initString := initString st ++ fst (block_initial_row c row);
              free_cells := list_set (free_cells st) 0 (snd (block_initial_row c row)) |}
      /\ NoDup (snd (block_initial_row c row))
      /\ (forall c', In c' cs -> is_origin (car_position c') = false ->
                     In (pt (px (car_position c')) (py (car_position c')))
                        (snd (block_initial_row c row)))
      /\ distinct_points (filter (fun p => negb (is_origin p)) (map car_position cs))
         = true).
    { cbn [map filter] in Hdist.
      assert (Ho : is_origin (car_position c)
                   = negb (negb (px (car_position c) =? 0)
                           || negb (py (car_position c) =? 0))).
      { unfold is_origin. now destruct (_ =? _), (_ =? _). }
      unfold block_initial, block_initial_row.
      destruct (negb (px (car_position c) =? 0) || negb (py (car_position c) =? 0)) eqn:E;
        rewrite Ho in Hdist; cbn [negb] in Hdist; cbn [fst snd].
      - cbn [distinct_points] in Hdist. apply andb_true_iff in Hdist.
        destruct Hdist as [Hfresh Hdist].
        assert (Hc : In (pt (px (car_position c)) (py (car_position c))) row).
        { apply Hin; [now left | now rewrite Ho]. }
        rewrite (remove_free_row 0 _ (emit _ st) row) by (auto; lia).
        unfold block_row. rewrite (proj2 (mem_In _ _) Hc). cbn [fst snd].
        destruct (list_remove_spec _ _ _ Hnd (remove_first_In _ _ Hc)) as [Hnd' Hmem].
        repeat split; auto.
        intros c' Hc' Ho'. apply Hmem. split; [apply Hin; [now right | assumption]|].
        intros Heq. apply pt_inj in Heq.
        apply negb_true_iff in Hfresh.
        assert (X : existsb (point_eqb (car_position c))
                      (filter (fun p => negb (is_origin p)) (map car_position cs)) = true).
        { apply existsb_exists. exists (car_position c'). split.
          - apply filter_In. split; [now apply in_map | now rewrite Ho'].
          - apply point_eqb_spec. intuition. }
        congruence.
      - destruct st. unfold skip_row. cbn in *.
        rewrite app_nil_r, list_set_same by assumption.
        repeat split; auto. }
    destruct Hstep as (-> & Hnd' & Hin' & Hdist'). cbn [bind].
    rewrite (IH _ (snd (block_initial_row c row))); cbn [free_cells initString]; auto.
    + now rewrite list_set_twice, <- app_assoc.
    + apply nth_error_list_set_eq. eapply nth_error_lt; eassumption.
Qed.

Lemma range_1_4 : range 1 4 = [1; 2; 3].
Proof. reflexivity. Qed.

Lemma transitions_cell_row (g : Gen) (t : Z) (x y : Z) (st : InitSt)
      (row : list string) :
  0 <= t -> nth_error (free_cells st) (Z.to_nat t) = Some row ->
  transitions_cell g t (pt x y) st
  = Ok (emit (cell_transitions g t row (pt x y) x y) st).
Proof.
  intros Ht Hrow. unfold transitions_cell, is_free.
  rewrite parse_cell_pt, (py_get_nonneg _ _ _ Ht Hrow). cbn [bind fst snd].
  unfold cell_transitions. rewrite range_1_4. cbn [fold_left map].
  unfold emit. cbn [initString free_cells]. rewrite <- !app_assoc. reflexivity.
Qed.

Lemma transitions_cells_row (g : Gen) (t : Z) (row : list string)
      (ps : list (Z * Z)) :
  0 <= t ->
  forall st,
    nth_error (free_cells st) (Z.to_nat t) = Some row ->
    for_each (transitions_cell g t) (map (fun xy => pt (fst xy) (snd xy)) ps) st
    = Ok (emit (flat_map (fun xy => cell_transitions g t row
                                      (pt (fst xy) (snd xy)) (fst xy) (snd xy)) ps) st).
Proof.
  intros Ht. induction ps as [|[x y] ps IH]; intros st Hrow.
  - destruct st. unfold emit. cbn. now rewrite app_nil_r.
  - cbn [map for_each flat_map fst snd].
    rewrite (transitions_cell_row g t x y st row Ht Hrow). cbn [bind].
    rewrite IH by assumption. unfold emit. cbn [initString free_cells].
    now rewrite <- app_assoc.
Qed.

Lemma transitions_loop (g : Gen) (rows : Z -> list string) (ts : list Z) :
  forall st,
    (forall t, In t ts -> 0 <= t /\ nth_error (free_cells st) (Z.to_nat t) = Some (rows t)) ->
    for_each (fun t => for_each (transitions_cell g t) (grid_cell_list g)) ts st
    = Ok (emit (flat_map
                  (fun t => flat_map
                              (fun xy => cell_transitions g t (rows t)
                                           (pt (fst xy) (snd xy)) (fst xy) (snd xy))
                              (grid_points (width g) (num_lanes g))) ts) st).
Proof.
  induction ts as [|t ts IH]; intros st H.
  - destruct st. unfold emit. cbn. now rewrite app_nil_r.
  - cbn [for_each flat_map]. unfold grid_cell_list at 1. rewrite grid_cells_points.
    destruct (H t (or_introl eq_refl)) as [Ht Hrow].
    rewrite (transitions_cells_row g t (rows t) _ Ht st Hrow). cbn [bind].
    rewrite IH.
    + unfold emit. cbn [initString free_cells]. now rewrite <- app_assoc.
    + intros t' Hin. cbn [emit free_cells]. apply H. now right.
Qed.

Lemma readmit_origin_row (t : Z) (st : InitSt) (row : list string) :
  0 <= t -> nth_error (free_cells st) (Z.to_nat t) = Some row ->
  readmit_origin t st
  = Ok {| initString := initString st;
          free_cells := list_set (free_cells st) (Z.to_nat t)
                          (if negb (mem "pt0pt0" row)
                           then row ++ ["pt0pt0"%string] else row) |}.
Proof.
  intros Ht Hrow. unfold readmit_origin, is_free.
  rewrite (py_get_nonneg _ _ _ Ht Hrow). cbn [bind].
  destruct (mem "pt0pt0" row); cbn [negb].
  - destruct st. cbn in *. now rewrite list_set_same.
  - rewrite py_index_nonneg by (apply nth_error_lt in Hrow; lia). reflexivity.
Qed.

Lemma nth_error_const_rows (row : list string) (n : Z) (k : nat) :
  (k < Z.to_nat n)%nat ->
  nth_error (map (fun _ : Z => row) (range 0 n)) k = Some row.
Proof.
  intros H. rewrite nth_error_map, nth_error_range by lia. reflexivity.
Qed.

(** On a valid snapshot [generateInitString] returns; its facts and the final
    value of [free_cells] are those of the row steps. *)
Theorem generateInitString_state_valid (g : Gen) :
  valid_snapshot g = true ->
  generateInitString_state g
  = Ok {| initString := all_facts g;
          free_cells := map (final_row g) (range 0 (horizon g)) |}.
Proof.
  intros Hv. pose proof (horizon_ge_2 g Hv) as Hn.
  destruct (valid_snapshot_spec g Hv) as [Hcars [Hdist _]].
  unfold generateInitString_state. rewrite (max_time_valid g Hv). cbn [bind].
  set (n := horizon g) in *.
  set (fc0 := map (fun _ : Z => grid_cell_list g) (range 0 n)).
  assert (Hfc0 : forall k, (k < Z.to_nat n)%nat -> nth_error fc0 k = Some (grid_cell_list g))
    by (intros; now apply nth_error_const_rows).
  assert (Hlen0 : List.length fc0 = Z.to_nat n).
  { unfold fc0. rewrite length_map, length_range. f_equal; lia. }
  (* the obstacles at instant 0 *)
  rewrite (initial_loop _ _ (grid_cell_list g)); cbn [free_cells initString];
    [ | apply Hfc0; lia | apply NoDup_grid_cells | | assumption ].
  2:{ intros c Hc _. apply in_grid_cells. specialize (Hcars c Hc).
      apply in_grid_spec in Hcars.
      exists (px (car_position c)), (py (car_position c)). tauto. }
  cbn [bind app]. fold (initial_facts g).
  (* the instants 1 .. n-1 *)
  match goal with |- context [for_each (sweep_instant g) _ ?s] => set (st1 := s) end.
  destruct (for_each_rows (sweep_instant g) (sweep_instant_row g) (grid_cell_list g)
              (range 1 n) (NoDup_range 1 n)) with (st := st1)
    as [fc2 [E2 [Hlen2 [Hin2 Hout2]]]].
  { intros t Ht. apply in_range in Ht. split; [lia|].
    apply row_local_sweep_instant. lia. }
  { intros t Ht. apply in_range in Ht. subst st1. cbn [free_cells].
    rewrite nth_error_list_set_neq by lia. apply Hfc0. lia. }
  rewrite E2. cbn [bind]. subst st1. cbn [initString free_cells] in *.
  rewrite length_list_set in Hlen2. fold (sweep_facts g).
  assert (Hsw : forall t, 0 <= t < n -> nth_error fc2 (Z.to_nat t) = Some (swept_row g t)).
  { intros t Ht. unfold swept_row. destruct (Z.eqb_spec t 0) as [->|Hne].
    - rewrite Hout2.
      + apply nth_error_list_set_eq. lia.
      + intros t' Ht'. apply in_range in Ht'. lia.
    - rewrite Hin2 by (apply in_range; lia). reflexivity. }
  (* the variable left by the loop, and line 238 *)
  rewrite (last_range n Hn). cbn [bind].
  rewrite (readmit_origin_row (n - 1) _ (swept_row g (n - 1)))
    by (try lia; cbn [emit free_cells]; apply Hsw; lia).
  cbn [bind emit initString free_cells].
  match goal with |- context [list_set fc2 ?k ?r] => set (fc3 := list_set fc2 k r) end.
  assert (Hfin : forall t, 0 <= t < n -> nth_error fc3 (Z.to_nat t) = Some (final_row g t)).
  { intros t Ht. unfold final_row, fc3. fold n.
    destruct (Z.eqb_spec t (n - 1)) as [->|Hne]; cbn [andb].
    - rewrite nth_error_list_set_eq by lia. reflexivity.
    - rewrite nth_error_list_set_neq by lia. now apply Hsw. }
  (* the transition facts *)
  rewrite (transitions_loop g (final_row g)).
  2:{ intros t Ht. apply in_range in Ht. split; [lia|].
      cbn [free_cells]. apply Hfin. lia. }
  cbn [bind]. unfold emit. cbn [initString free_cells].
  f_equal. f_equal.
  - unfold all_facts, initial_facts, sweep_facts, agent_fact, transition_facts,
      instant_facts. fold n.
    rewrite <- !app_assoc. reflexivity.
  - apply nth_error_ext. intros k.
    destruct (Nat.ltb_spec k (Z.to_nat n)).
    + rewrite nth_error_map, nth_error_range by lia. cbn [option_map].
      replace k with (Z.to_nat (0 + Z.of_nat k)) at 1 by lia.
      apply Hfin. lia.
    + assert (L3 : List.length fc3 = Z.to_nat n).
      { unfold fc3. rewrite length_list_set. lia. }
      rewrite (proj2 (nth_error_None fc3 k)) by lia.
      symmetry. apply nth_error_None. rewrite length_map, length_range. lia.
Qed.

(* ===================================================================== *)
(** * What the obstacle loops do to a row *)
(* ===================================================================== *)

Ltac splits := repeat match goal with |- _ /\ _ => split end.

Lemma blocking_skip (t : Z) : blocking_step t skip_row.
Proof.
  intros row Hnd. unfold skip_row. cbn. splits; auto; try tauto.
Qed.

Lemma blocking_block_row (t : Z) (name : string) (fs : list fact) :
  Forall (sweep_fact t) fs ->
  (forall c, In (Blocked c t) fs <-> c = name) ->
  blocking_step t (block_row name fs).
Proof.
  intros Hshape Hfs row Hnd. unfold block_row.
  destruct (mem name row) eqn:E.
  - apply mem_In in E. cbn [fst snd].
    destruct (list_remove_spec _ _ _ Hnd (remove_first_In _ _ E)) as [Hnd' Hmem].
    splits; auto.
    + intros c Hc. apply Hmem in Hc. split; [tauto|]. rewrite Hfs. tauto.
    + intros c Hc. destruct (string_dec c name) as [->|Hne].
      * right. now apply Hfs.
      * left. now apply Hmem.
    + intros c Hc. apply Hfs in Hc. now subst.
  - apply (blocking_skip t row Hnd).
Qed.

Lemma blocking_then (t : Z) (f1 f2 : row_step) :
  blocking_step t f1 -> blocking_step t f2 -> blocking_step t (then_row f1 f2).
Proof.
  intros H1 H2 row Hnd. unfold then_row. cbn [fst snd].
  destruct (H1 row Hnd) as (Hnd1 & Hsub1 & Hcov1 & Hin1 & Hsh1).
  destruct (H2 _ Hnd1) as (Hnd2 & Hsub2 & Hcov2 & Hin2 & Hsh2).
  splits; auto.
  - intros c Hc. apply Hsub2 in Hc. destruct Hc as [Hc Hn2].
    apply Hsub1 in Hc. destruct Hc as [Hc Hn1].
    split; [assumption|]. rewrite in_app_iff. tauto.
  - intros c Hc. rewrite in_app_iff.
    destruct (Hcov1 c Hc) as [Hc1|Hb]; [|tauto].
    destruct (Hcov2 c Hc1); tauto.
  - intros c Hc. apply in_app_iff in Hc. destruct Hc as [Hc|Hc]; [auto|].
    apply Hsub1. now apply Hin2.
  - apply Forall_app. now split.
Qed.

Lemma blocking_each {X : Type} (t : Z) (f : X -> row_step) (xs : list X) :
  (forall x, In x xs -> blocking_step t (f x)) -> blocking_step t (each_row f xs).
Proof.
  induction xs as [|x xs IH]; intros H; cbn [each_row].
  - apply blocking_skip.
  - apply blocking_then; [apply H; now left | apply IH; intros; apply H; now right].
Qed.

Lemma blocking_cell (t : Z) (name : string) :
  blocking_step t (block_row name [Blocked name t]).
Proof.
  apply blocking_block_row.
  - repeat constructor.
  - intros c. cbn. split; [intros [E|[]]; congruence | intros ->; now left].
Qed.

Lemma blocking_car_cell (t : Z) (name who : string) :
  blocking_step t (block_row name [At name t who; Blocked name t]).
Proof.
  apply blocking_block_row.
  - repeat constructor.
  - intros c. cbn. split; [intros [E|[E|[]]]; congruence | intros ->; auto].
Qed.

Lemma blocking_sweep_car (w t : Z) (c : Car) : blocking_step t (sweep_car_row w t c).
Proof.
  unfold sweep_car_row. apply blocking_then; [apply blocking_car_cell|].
  destruct (_ && _); [|destruct (_ <? _)].
  - apply blocking_each. intros; apply blocking_cell.
  - apply blocking_each. intros; apply blocking_cell.
  - apply blocking_skip.
Qed.

Lemma blocking_sweep_cars (g : Gen) (t : Z) : blocking_step t (sweep_cars_row g t).
Proof. apply blocking_each. intros; apply blocking_sweep_car. Qed.

Lemma blocking_initial (c : Car) : blocking_step 0 (block_initial_row c).
Proof.
  unfold block_initial_row. destruct (_ || _);
    [apply blocking_car_cell | apply blocking_skip].
Qed.

Lemma blocking_initial_cars (cs : list Car) :
  blocking_step 0 (each_row block_initial_row cs).
Proof. apply blocking_each. intros; apply blocking_initial. Qed.

(** ** Cells that a step is sure to remove *)

Lemma covers_block_row (name : string) (fs : list fact) : covers name (block_row name fs).
Proof.
  intros row Hnd. unfold block_row. destruct (mem name row) eqn:E.
  - apply mem_In in E. cbn [snd].
    destruct (list_remove_spec _ _ _ Hnd (remove_first_In _ _ E)) as [_ Hmem].
    rewrite Hmem. tauto.
  - now apply mem_false in E.
Qed.

Lemma covers_then_l (t : Z) (name : string) (f1 f2 : row_step) :
  blocking_step t f1 -> blocking_step t f2 ->
  covers name f1 -> covers name (then_row f1 f2).
Proof.
  intros H1 H2 Hc row Hnd. unfold then_row. cbn [snd].
  destruct (H1 row Hnd) as (Hnd1 & _).
  destruct (H2 _ Hnd1) as (_ & Hsub2 & _).
  intros Hin. apply Hsub2 in Hin. now apply (Hc row Hnd).
Qed.

Lemma covers_then_r (t : Z) (name : string) (f1 f2 : row_step) :
  blocking_step t f1 -> covers name f2 -> covers name (then_row f1 f2).
Proof.
  intros H1 Hc row Hnd. unfold then_row. cbn [snd].
  destruct (H1 row Hnd) as (Hnd1 & _). now apply Hc.
Qed.

Lemma covers_each {X : Type} (t : Z) (name : string) (f : X -> row_step)
      (xs : list X) (x : X) :
  (forall x, In x xs -> blocking_step t (f x)) ->
  In x xs -> covers name (f x) -> covers name (each_row f xs).
Proof.
  induction xs as [|x' xs IH]; intros Hb Hin Hc; [destruct Hin|].
  cbn [each_row]. destruct Hin as [->|Hin].
  - apply (covers_then_l t); auto.
    + apply Hb; now left.
    + apply blocking_each. intros; apply Hb; now right.
  - apply (covers_then_r t); [apply Hb; now left|].
    apply IH; auto. intros; apply Hb; now right.
Qed.

(** A cell of the row that a blocking step leaves out carries a blocked fact. *)
Lemma covered_blocked (t : Z) (name : string) (f : row_step) (row : list string) :
  blocking_step t f -> covers name f -> NoDup row -> In name row ->
  In (Blocked name t) (fst (f row)).
Proof.
  intros Hb Hc Hnd Hin.
  destruct (Hb row Hnd) as (_ & _ & Hcov & _).
  destruct (Hcov name Hin) as [H|H]; [|assumption].
  now apply (Hc row Hnd) in H.
Qed.

(* ===================================================================== *)
(** * The projection of an obstacle *)
(* ===================================================================== *)

Lemma project_x_mod (w x0 s t : Z) :
  0 <= x0 < w -> 0 <= s -> 0 <= t ->
  project_x w x0 s t = (x0 - s * t) mod w.
Proof.
  intros Hx Hs Ht. unfold project_x.
  assert (0 <= s * t) by (apply Z.mul_nonneg_nonneg; lia).
  destruct (Z.leb_spec 0 (x0 - s * t)).
  - symmetry. apply Z.mod_small. lia.
  - pose proof (Z.div_mod (s * t) w ltac:(lia)) as D.
    replace (x0 - s * t)
      with ((x0 - (s * t) mod w + w) + (- (s * t / w) - 1) * w) by lia.
    now rewrite Z_mod_plus_full.
Qed.

Lemma project_x_range (w x0 s t : Z) :
  0 <= x0 < w -> 0 <= s -> 0 <= t -> 0 <= project_x w x0 s t < w.
Proof.
  intros Hx Hs Ht. rewrite project_x_mod by assumption.
  apply Z.mod_pos_bound. lia.
Qed.

Lemma car_speed_nonneg (c : Car) : 0 <= car_speed c.
Proof. unfold car_speed. apply Z.abs_nonneg. Qed.


(* ===================================================================== *)
(** * Which facts the init section holds *)
(* ===================================================================== *)

Lemma sweep_instant_fst (g : Gen) (t : Z) (row : list string) :
  fst (sweep_instant_row g t row)
  = fst (sweep_cars_row g t row)
    ++ map (fun cell => NotBlocked cell t) (snd (sweep_cars_row g t row)).
Proof. reflexivity. Qed.

Lemma initial_facts_shape (g : Gen) : Forall (sweep_fact 0) (initial_facts g).
Proof.
  unfold initial_facts.
  apply (blocking_initial_cars (cars (state g)) (grid_cell_list g)).
  apply NoDup_grid_cells.
Qed.

Lemma sweep_cars_shape (g : Gen) (t : Z) :
  Forall (sweep_fact t) (fst (sweep_cars_row g t (grid_cell_list g))).
Proof.
  apply (blocking_sweep_cars g t (grid_cell_list g)). apply NoDup_grid_cells.
Qed.

Lemma cell_transitions_shape (g : Gen) (t : Z) row cell x y :
  Forall (transition_fact t) (cell_transitions g t row cell x y).
Proof.
  unfold cell_transitions. rewrite range_1_4. repeat constructor.
Qed.

Lemma transition_facts_shape (g : Gen) (f : fact) :
  In f (transition_facts g) ->
  exists t, 1 <= t < horizon g /\ transition_fact t f.
Proof.
  unfold transition_facts. intros H. apply in_flat_map in H.
  destruct H as [t [Ht H]]. apply in_range in Ht. exists t. split; [assumption|].
  apply in_flat_map in H. destruct H as [xy [_ H]].
  pose proof (cell_transitions_shape g t (final_row g t)
                (pt (fst xy) (snd xy)) (fst xy) (snd xy)) as S.
  rewrite Forall_forall in S. now apply S.
Qed.

Lemma in_sweep_facts (g : Gen) (f : fact) :
  In f (sweep_facts g) <->
  exists t, 1 <= t < horizon g
            /\ (In f (fst (sweep_cars_row g t (grid_cell_list g)))
                \/ exists c, f = NotBlocked c t /\ In c (swept_row g t)).
Proof.
  unfold sweep_facts. rewrite in_flat_map. split.
  - intros [t [Ht H]]. apply in_range in Ht. exists t. split; [assumption|].
    rewrite sweep_instant_fst, in_app_iff, in_map_iff in H.
    destruct H as [H | [c [E H]]]; [now left | right].
    exists c. split; [now symmetry|]. unfold swept_row.
    destruct (Z.eqb_spec t 0); [lia | assumption].
  - intros [t [Ht H]]. exists t. rewrite in_range. split; [assumption|].
    rewrite sweep_instant_fst, in_app_iff, in_map_iff.
    destruct H as [H | [c [E H]]]; [now left | right].
    exists c. split; [now symmetry|]. unfold swept_row in H.
    destruct (Z.eqb_spec t 0); [lia | assumption].
Qed.

(** The blocked facts of an instant of the horizon. *)
Lemma in_all_facts_blocked (g : Gen) (c : string) (t : Z) :
  In (Blocked c t) (all_facts g)
  <-> 0 <= t < horizon g /\ In (Blocked c t) (blocked_source g t).
Proof.
  unfold all_facts, blocked_source. rewrite !in_app_iff, in_sweep_facts. split.
  - intros [H | [[t' [Ht' [H | [c' [E _]]]]] | [[E | []] | [H | H]]]].
    + pose proof (initial_facts_shape g) as S. rewrite Forall_forall in S.
      specialize (S _ H). cbn in S. subst t.
      split; [|assumption]. unfold horizon.
      pose proof (Z.div_pos (width g) (min_speed g)).
      destruct (Z.le_gt_cases (width g) (-1)); [|destruct (Z.eq_dec (min_speed g) 0) as [E0|]].
      * (* a negative width gives no cells, hence no initial facts *)
        exfalso. apply (blocking_initial_cars (cars (state g)) (grid_cell_list g)
                          (NoDup_grid_cells _ _)) in H.
        apply in_grid_cells in H. destruct H as [x [y [? _]]]. lia.
      * rewrite E0, Z.div_0_r. lia.
      * assert (0 <= min_speed g) by (unfold min_speed; apply Z.abs_nonneg).
        assert (0 <= width g / min_speed g) by (apply Z.div_pos; lia). lia.
    + pose proof (sweep_cars_shape g t') as S. rewrite Forall_forall in S.
      specialize (S _ H). cbn in S. subst t'.
      destruct (Z.eqb_spec t 0); [lia|]. split; [lia | assumption].
    + discriminate.
    + discriminate.
    + apply transition_facts_shape in H. destruct H as [? [_ []]].
    + unfold instant_facts in H. apply in_map_iff in H.
      destruct H as [? [? _]]. discriminate.
  - intros [Ht H]. destruct (Z.eqb_spec t 0); [now left|].
    right; left. exists t. split; [lia | now left].
Qed.

(** The free facts are those of the instants 1 .. horizon-1. *)
Lemma in_all_facts_not_blocked (g : Gen) (c : string) (t : Z) :
  In (NotBlocked c t) (all_facts g)
  <-> 1 <= t < horizon g /\ In c (swept_row g t).
Proof.
  unfold all_facts. rewrite !in_app_iff, in_sweep_facts. split.
  - intros [H | [[t' [Ht' [H | [c' [E H]]]]] | [[E | []] | [H | H]]]].
    + pose proof (initial_facts_shape g) as S. rewrite Forall_forall in S.
      destruct (S _ H).
    + pose proof (sweep_cars_shape g t') as S. rewrite Forall_forall in S.
      destruct (S _ H).
    + injection E as -> ->. auto.
    + discriminate.
    + apply transition_facts_shape in H. destruct H as [? [_ []]].
    + unfold instant_facts in H. apply in_map_iff in H.
      destruct H as [? [? _]]. discriminate.
  - intros [Ht H]. right; left. exists t. split; [assumption|]. right. eauto.
Qed.

(** The row of an instant after the obstacle loops is the grid without the
    cells blocked at that instant. *)
Lemma swept_row_spec (g : Gen) (t : Z) :
  NoDup (swept_row g t)
  /\ (forall c, In c (swept_row g t) ->
                In c (grid_cell_list g) /\ ~ In (Blocked c t) (blocked_source g t))
  /\ (forall c, In c (grid_cell_list g) ->
                In c (swept_row g t) \/ In (Blocked c t) (blocked_source g t))
  /\ (forall c, In (Blocked c t) (blocked_source g t) -> In c (grid_cell_list g)).
Proof.
  unfold swept_row, blocked_source, initial_facts.
  destruct (Z.eqb_spec t 0) as [->|Hne].
  - destruct (blocking_initial_cars (cars (state g)) (grid_cell_list g)
                (NoDup_grid_cells _ _)) as (H1 & H2 & H3 & H4 & _).
    auto.
  - destruct (blocking_sweep_cars g t (grid_cell_list g)
                (NoDup_grid_cells _ _)) as (H1 & H2 & H3 & H4 & _).
    auto.
Qed.

Lemma in_final_row (g : Gen) (t : Z) (c : string) :
  In c (final_row g t)
  <-> In c (swept_row g t) \/ (t = horizon g - 1 /\ c = "pt0pt0"%string).
Proof.
  unfold final_row. destruct (Z.eqb_spec t (horizon g - 1)) as [E|E]; cbn [andb].
  - destruct (mem "pt0pt0" (swept_row g t)) eqn:M; cbn [negb].
    + apply mem_In in M. split; [tauto|]. intros [H|[_ ->]]; assumption.
    + rewrite in_app_iff. cbn. split.
      * intros [H|[<-|[]]]; auto.
      * intros [H|[_ ->]]; auto.
  - split; [tauto|]. intros [H|[? _]]; [assumption | contradiction].
Qed.

Lemma free_at_final (g : Gen) (t : Z) :
  0 <= t < horizon g ->
  free_at {| initString := all_facts g;
             free_cells := map (final_row g) (range 0 (horizon g)) |} t
  = final_row g t.
Proof.
  intros Ht. unfold free_at. cbn [free_cells].
  erewrite py_get_nonneg; [reflexivity | lia |].
  rewrite nth_error_map, nth_error_range by lia. cbn. f_equal. f_equal. lia.
Qed.

(* ===================================================================== *)
(** * Reading concrete fact lists *)
(* ===================================================================== *)

Lemma names_blocked_In (c : string) (t : Z) (fs : list fact) :
  In (Blocked c t) fs -> existsb (names_blocked c t) fs = true.
Proof.
  intros H. apply existsb_exists. exists (Blocked c t). split; [assumption|].
  cbn. now rewrite String.eqb_refl, Z.eqb_refl.
Qed.

Lemma names_blocked_true (c : string) (t : Z) (fs : list fact) :
  existsb (names_blocked c t) fs = true -> In (Blocked c t) fs.
Proof.
  intros H. apply existsb_exists in H. destruct H as [f [Hin Hf]].
  destruct f; try discriminate. cbn in Hf. apply andb_true_iff in Hf.
  destruct Hf as [Hc Ht]. apply String.eqb_eq in Hc. apply Z.eqb_eq in Ht.
  now subst.
Qed.

(* ===================================================================== *)
(** * The occupancy timeline *)
(* ===================================================================== *)

(** C6. For an obstacle at [x0] in [0, width), a speed magnitude [s >= 0] and an
    instant [t >= 0], the x position the encoder computes (lines 210 and 212) is
    [(x0 - s*t) mod width]; it lies in [0, width); the lane is the obstacle's
    own lane.  The projection is a total function. *)
Theorem projection_wraps (w : Z) (c : Car) (t : Z) :
  0 <= px (car_position c) < w -> 0 <= t ->
  px (project w c t) = (px (car_position c) - car_speed c * t) mod w
  /\ 0 <= px (project w c t) < w
  /\ py (project w c t) = py (car_position c).
Proof.
  intros Hx Ht. cbn [project px py]. pose proof (car_speed_nonneg c).
  split; [|split].
  - now apply project_x_mod.
  - now apply project_x_range.
  - reflexivity.
Qed.

Lemma projection_wraps_witness :
  0 <= px (car_position (car_at 1 1 0 (-3))) < 5
  /\ 0 <= 2
  /\ px (project 5 (car_at 1 1 0 (-3)) 2) = (1 - 3 * 2) mod 5
  /\ 0 <= px (project 5 (car_at 1 1 0 (-3)) 2) < 5
  /\ py (project 5 (car_at 1 1 0 (-3)) 2) = 0.
Proof.
  split; [cbn; lia|]. split; [lia|].
  apply (projection_wraps 5 (car_at 1 1 0 (-3)) 2); cbn; lia.
Defined.

(** The blocked facts of the returned text, instant by instant. *)
Lemma blocked_fact_iff (g : Gen) (c : string) (t : Z) :
  0 <= t < horizon g ->
  (In (Blocked c t) (all_facts g) <-> In (Blocked c t) (blocked_source g t)).
Proof. intros Ht. rewrite in_all_facts_blocked. tauto. Qed.

Lemma partition_swept (g : Gen) (t : Z) (c : string) :
  0 <= t < horizon g ->
  (In c (swept_row g t) -> In c (grid_cell_list g) /\ ~ In (Blocked c t) (all_facts g))
  /\ (In c (grid_cell_list g) -> In c (swept_row g t) \/ In (Blocked c t) (all_facts g))
  /\ (In (Blocked c t) (all_facts g) -> In c (grid_cell_list g)).
Proof.
  intros Ht. rewrite (blocked_fact_iff g c t Ht).
  destruct (swept_row_spec g t) as (_ & H2 & H3 & H4). auto.
Qed.

(** C1, as the code has it.  On a valid snapshot the encoder returns, and for
    every instant [t] of [0, horizon): before the last instant the blocked cells
    and the free cells of [t] are disjoint and cover the grid; at the last
    instant [horizon - 1] the same holds for every cell other than the origin
    cell [pt0pt0], which line 238 always puts in the free set, blocked or not;
    and for [t >= 1] the emitted free facts name exactly the cells of the grid
    without a blocked fact at [t]. *)
Theorem occupancy_partition_except_origin (g : Gen) :
  valid_snapshot g = true ->
  exists st,
    generateInitString_state g = Ok st
    /\ max_time g = Ok (horizon g)
    /\ forall t, 0 <= t < horizon g ->
         (t < horizon g - 1 -> occupancy_partition g st t)
         /\ (t = horizon g - 1 ->
             partition_on (fun c => c <> "pt0pt0"%string) g st t
             /\ In "pt0pt0"%string (free_at st t))
         /\ (1 <= t -> forall c,
               In (NotBlocked c t) (initString st)
               <-> In c (grid_cell_list g) /\ ~ In (Blocked c t) (initString st)).
Proof.
  intros Hv. eexists. split; [apply (generateInitString_state_valid g Hv)|].
  split; [apply (max_time_valid g Hv)|].
  intros t Ht. cbn [initString].
  assert (Hpart : forall P : string -> Prop,
             (forall c, P c -> t = horizon g - 1 -> c <> "pt0pt0"%string) ->
             partition_on P g
               {| initString := all_facts g;
                  free_cells := map (final_row g) (range 0 (horizon g)) |} t).
  { intros P HP. unfold partition_on. rewrite (free_at_final g t Ht).
    cbn [initString]. split; intros c Pc.
    - intros [Hb Hf]. apply in_final_row in Hf.
      destruct Hf as [Hf | [E ->]]; [|now apply (HP _ Pc E)].
      apply (partition_swept g t c Ht) in Hf. tauto.
    - destruct (partition_swept g t c Ht) as (H1 & H2 & H3).
      rewrite in_final_row. split.
      + intros Hc. destruct (H2 Hc); tauto.
      + intros [Hb | [Hf | [E ->]]]; [auto | now apply H1 | ].
        now destruct (HP _ Pc E). }
  split; [|split].
  - intros Hlt. apply Hpart. intros; lia.
  - intros E. split; [apply Hpart; tauto|].
    rewrite (free_at_final g t Ht). apply in_final_row. now right.
  - intros H1 c. rewrite in_all_facts_not_blocked.
    destruct (partition_swept g t c Ht) as (H2 & H3 & H4). split.
    + intros [_ Hc]. now apply H2.
    + intros [Hc Hn]. split; [lia|]. destruct (H3 Hc); tauto.
Qed.

Lemma occupancy_partition_except_origin_witness :
  valid_snapshot crossing_snapshot = true
  /\ exists st,
    generateInitString_state crossing_snapshot = Ok st
    /\ max_time crossing_snapshot = Ok (horizon crossing_snapshot)
    /\ forall t, 0 <= t < horizon crossing_snapshot ->
         (t < horizon crossing_snapshot - 1 -> occupancy_partition crossing_snapshot st t)
         /\ (t = horizon crossing_snapshot - 1 ->
             partition_on (fun c => c <> "pt0pt0"%string) crossing_snapshot st t
             /\ In "pt0pt0"%string (free_at st t))
         /\ (1 <= t -> forall c,
               In (NotBlocked c t) (initString st)
               <-> In c (grid_cell_list crossing_snapshot)
                   /\ ~ In (Blocked c t) (initString st)).
Proof.
  split; [reflexivity|].
  apply (occupancy_partition_except_origin crossing_snapshot). reflexivity.
Defined.

(** C1, as stated, fails: with a car that is on the origin cell at the last
    instant (3), [pt0pt0] has a blocked fact at 3 and is in the free set of 3
    that the transition loop consults. *)
Lemma occupancy_partition_counterexample :
  exists st,
    generateInitString_state origin_snapshot = Ok st
    /\ max_time origin_snapshot = Ok 4
    /\ ~ occupancy_partition origin_snapshot st 3.
Proof.
  eexists. split; [apply generateInitString_state_valid; reflexivity|].
  split; [reflexivity|].
  intros [Hdisj _]. apply (Hdisj "pt0pt0"%string I). split.
  - apply names_blocked_true. vm_compute. reflexivity.
  - apply mem_In. vm_compute. reflexivity.
Qed.

(* ===================================================================== *)
(** * Sweeps *)
(* ===================================================================== *)






(** A car whose speed equals the width passes every cell of its lane in one
    instant; only the cell it returns to is blocked. *)
Remark full_lap_not_swept :
  exists st,
    generateInitString_state lap_snapshot = Ok st
    /\ car_speed (car_at 1 1 0 (-3)) = width lap_snapshot
    /\ In (Blocked "pt1pt0" 1) (initString st)
    /\ ~ In (Blocked "pt0pt0" 1) (initString st)
    /\ ~ In (Blocked "pt2pt0" 1) (initString st).
Proof.
  eexists. split; [apply generateInitString_state_valid; reflexivity|].
  split; [reflexivity|].
  split; [apply names_blocked_true; vm_compute; reflexivity|].
  split; intros H; apply names_blocked_In in H; vm_compute in H; discriminate.
Qed.

(* ===================================================================== *)
(** * Transition facts *)
(* ===================================================================== *)

Lemma sweep_not_transition (t t' : Z) (f : fact) :
  sweep_fact t f -> transition_fact t' f -> False.
Proof. destruct f; cbn; tauto. Qed.

Lemma in_all_facts_transition (g : Gen) (f : fact) (t : Z) :
  transition_fact t f ->
  (In f (all_facts g) <-> In f (transition_facts g)).
Proof.
  intros Hf. unfold all_facts. rewrite !in_app_iff, in_sweep_facts.
  split; [|tauto].
  intros [H | [[t' [Ht' [H | [c' [E _]]]]] | [[E | []] | [H | H]]]].
  - pose proof (initial_facts_shape g) as S. rewrite Forall_forall in S.
    destruct (sweep_not_transition _ _ _ (S _ H) Hf).
  - pose proof (sweep_cars_shape g t') as S. rewrite Forall_forall in S.
    destruct (sweep_not_transition _ _ _ (S _ H) Hf).
  - subst f. destruct Hf.
  - subst f. destruct Hf.
  - assumption.
  - unfold instant_facts in H. apply in_map_iff in H.
    destruct H as [? [<- _]]. destruct Hf.
Qed.

Lemma in_transition_facts (g : Gen) (f : fact) :
  In f (transition_facts g) <->
  exists t x y, 1 <= t < horizon g /\ 0 <= x < width g /\ 0 <= y < num_lanes g
                /\ In f (cell_transitions g t (final_row g t) (pt x y) x y).
Proof.
  unfold transition_facts. rewrite in_flat_map. split.
  - intros [t [Ht H]]. apply in_range in Ht. apply in_flat_map in H.
    destruct H as [[x y] [Hxy H]]. apply in_grid_points in Hxy.
    exists t, x, y. cbn [fst snd] in H. tauto.
  - intros [t [x [y [Ht [Hx [Hy H]]]]]]. exists t. rewrite in_range.
    split; [assumption|]. apply in_flat_map. exists (x, y).
    rewrite in_grid_points. cbn [fst snd]. tauto.
Qed.

Lemma clamp_left (x : Z) : 0 <= x -> (if x =? 0 then x else Z.max 0 (x - 1)) = Z.max 0 (x - 1).
Proof. intros H. destruct (Z.eqb_spec x 0); lia. Qed.

Lemma clamp_up (y : Z) : 0 <= y -> (if y =? 0 then y else y - 1) = Z.max 0 (y - 1).
Proof. intros H. destruct (Z.eqb_spec y 0); lia. Qed.

Lemma clamp_down (l y : Z) :
  y < l -> (if y =? l - 1 then y else y + 1) = Z.min (l - 1) (y + 1).
Proof. intros H. destruct (Z.eqb_spec y (l - 1)); lia. Qed.

(** The lateral successor facts of a cell of the grid. *)
Lemma lateral_successor_facts (g : Gen) (t x y : Z) :
  1 <= t < horizon g -> 0 <= x < width g -> 0 <= y < num_lanes g ->
  let st := {| initString := all_facts g;
               free_cells := map (final_row g) (range 0 (horizon g)) |} in
  (forall n, In (UpNext (pt x y) n t) (initString st)
             <-> n = lateral_target st t x y (Z.max 0 (y - 1)))
  /\ (forall n, In (DownNext (pt x y) n t) (initString st)
                <-> n = lateral_target st t x y (Z.min (num_lanes g - 1) (y + 1))).
Proof.
  intros Ht Hx Hy. unfold lateral_target.
  rewrite (free_at_final g t) by lia. cbn [initString].
  split; intros n.
  - rewrite (in_all_facts_transition g _ t) by reflexivity.
    rewrite in_transition_facts. split.
    + intros [t' [x' [y' [Ht' [Hx' [Hy' H]]]]]].
      unfold cell_transitions in H. rewrite range_1_4 in H. cbn [In map app] in H.
      destruct H as [E | [E | [E | [E | [E | []]]]]]; try discriminate.
      assert (E1 : pt x' y' = pt x y) by congruence.
      assert (E3 : t' = t) by congruence.
      apply pt_inj in E1. destruct E1; subst x' y' t'.
      assert (E2 : forall a b c a' b' c', UpNext a b c = UpNext a' b' c' -> b = b')
        by (intros; congruence).
      assert (E2' : forall a b c a' b' c', DownNext a b c = DownNext a' b' c' -> b = b')
        by (intros; congruence).
      first [apply E2 in E | apply E2' in E]. clear E2 E2'. rename E into E2.
      rewrite clamp_left, clamp_up in E2 by lia.
      rewrite <- E2. now destruct (mem _ _).
    + intros ->. exists t, x, y. repeat (split; [lia|]).
      unfold cell_transitions. left.
      rewrite clamp_left, clamp_up by lia. now destruct (mem _ _).
  - rewrite (in_all_facts_transition g _ t) by reflexivity.
    rewrite in_transition_facts. split.
    + intros [t' [x' [y' [Ht' [Hx' [Hy' H]]]]]].
      unfold cell_transitions in H. rewrite range_1_4 in H. cbn [In map app] in H.
      destruct H as [E | [E | [E | [E | [E | []]]]]]; try discriminate.
      assert (E1 : pt x' y' = pt x y) by congruence.
      assert (E3 : t' = t) by congruence.
      apply pt_inj in E1. destruct E1; subst x' y' t'.
      assert (E2 : forall a b c a' b' c', UpNext a b c = UpNext a' b' c' -> b = b')
        by (intros; congruence).
      assert (E2' : forall a b c a' b' c', DownNext a b c = DownNext a' b' c' -> b = b')
        by (intros; congruence).
      first [apply E2 in E | apply E2' in E]. clear E2 E2'. rename E into E2.
      rewrite clamp_left, clamp_down in E2 by lia.
      rewrite <- E2. now destruct (mem _ _).
    + intros ->. exists t, x, y. repeat (split; [lia|]).
      unfold cell_transitions. right; left.
      rewrite clamp_left, clamp_down by lia. now destruct (mem _ _).
Qed.


(** The free set that the transition loop reads, in terms of the blocked
    facts: a cell of the grid is in it exactly when it has no blocked fact at
    that instant, or is the cell (0,0) at the last instant. *)
Lemma candidate_free (g : Gen) (t cx cy : Z) :
  1 <= t < horizon g -> 0 <= cx < width g -> 0 <= cy < num_lanes g ->
  let st := {| initString := all_facts g;
               free_cells := map (final_row g) (range 0 (horizon g)) |} in
  (mem (pt cx cy) (free_at st t) = true <-> candidate_accepted g st t cx cy)
  /\ (mem (pt cx cy) (free_at st t) = false <-> candidate_refused g st t cx cy).
Proof.
  intros Ht Hx Hy st. unfold candidate_accepted, candidate_refused. subst st.
  rewrite (free_at_final g t) by lia. cbn [initString].
  rewrite mem_In, mem_false, in_final_row.
  assert (Hg : In (pt cx cy) (grid_cell_list g))
    by (apply in_grid_cells; exists cx, cy; auto).
  destruct (partition_swept g t (pt cx cy) ltac:(lia)) as (H1 & H2 & _).
  assert (Ho : pt cx cy = "pt0pt0"%string <-> cx = 0 /\ cy = 0).
  { assert (Eo : pt 0 0 = "pt0pt0"%string) by reflexivity.
    rewrite <- Eo. split.
    - intros E. now apply pt_inj in E.
    - intros [-> ->]. reflexivity. }
  split; split.
  - intros [H | [E Hc]]; [left; now apply H1 | right; apply Ho in Hc; tauto].
  - intros [H | (Ex & Ey & E)].
    + left. destruct (H2 Hg); [assumption | contradiction].
    + right. split; [assumption | apply Ho; tauto].
  - intros H. split.
    + destruct (H2 Hg) as [Hs | Hb]; [|assumption]. exfalso. apply H. now left.
    + intros (Ex & Ey & E). apply H. right. split; [assumption | apply Ho; tauto].
  - intros [Hb Hn] [H | [E Hc]].
    + now apply H1 in H.
    + apply Hn. apply Ho in Hc. tauto.
Qed.

Lemma lateral_target_successor (g : Gen) (t x y y' : Z) (n : string) :
  1 <= t < horizon g -> 0 <= x < width g -> 0 <= y' < num_lanes g ->
  let st := {| initString := all_facts g;
               free_cells := map (final_row g) (range 0 (horizon g)) |} in
  n = lateral_target st t x y y' <-> lateral_successor g st t x y y' n.
Proof.
  intros Ht Hx Hy st.
  destruct (candidate_free g t (Z.max 0 (x - 1)) y' Ht ltac:(lia) Hy) as [Ha Hr].
  fold st in Ha, Hr. unfold lateral_target, lateral_successor.
  destruct (mem (pt (Z.max 0 (x - 1)) y') (free_at st t)) eqn:M.
  - split.
    + intros ->. left. split; [now apply Ha | reflexivity].
    + intros [[_ E] | [H _]]; [exact E|]. apply Hr in H. discriminate.
  - split.
    + intros ->. right. split; [now apply Hr | reflexivity].
    + intros [[H _] | [_ E]]; [|exact E]. apply Ha in H. discriminate.
Qed.

(** C3, as the code has it.  On a valid snapshot, for every cell [(x, y)] of
    the grid and every instant [t] of [1, horizon), exactly one lateral-up and
    one lateral-down successor fact are emitted.  The up successor is the
    candidate [(max(0, x-1), max(0, y-1))] when the candidate has no blocked fact
    at [t], and also when the candidate is the cell (0,0) and [t] is the last
    instant [horizon - 1], blocked or not; otherwise it is the cell of the same
    lane [(max(0, x-1), y)].  The down successor is the same with the candidate
    lane [min(num_lanes-1, y+1)]. *)
Theorem lateral_successors (g : Gen) :
  valid_snapshot g = true ->
  exists st,
    generateInitString_state g = Ok st
    /\ forall t x y,
         1 <= t < horizon g -> 0 <= x < width g -> 0 <= y < num_lanes g ->
         (forall n, In (UpNext (pt x y) n t) (initString st)
                    <-> lateral_successor g st t x y (Z.max 0 (y - 1)) n)
         /\ (forall n, In (DownNext (pt x y) n t) (initString st)
                       <-> lateral_successor g st t x y
                             (Z.min (num_lanes g - 1) (y + 1)) n)
         /\ exists up down,
              forall n, (In (UpNext (pt x y) n t) (initString st) <-> n = up)
                        /\ (In (DownNext (pt x y) n t) (initString st) <-> n = down).
Proof.
  intros Hv. eexists. split; [apply (generateInitString_state_valid g Hv)|].
  intros t x y Ht Hx Hy.
  destruct (lateral_successor_facts g t x y Ht Hx Hy) as [Hu Hd].
  split; [|split].
  - intros n. rewrite Hu. apply lateral_target_successor; lia.
  - intros n. rewrite Hd. apply lateral_target_successor; lia.
  - eexists. eexists. intros n. split; [apply Hu | apply Hd].
Qed.

Lemma lateral_successors_witness :
  valid_snapshot origin_snapshot = true
  /\ exists st,
       generateInitString_state origin_snapshot = Ok st
       /\ forall t x y,
            1 <= t < horizon origin_snapshot ->
            0 <= x < width origin_snapshot ->
            0 <= y < num_lanes origin_snapshot ->
            (forall n, In (UpNext (pt x y) n t) (initString st)
                       <-> lateral_successor origin_snapshot st t x y
                             (Z.max 0 (y - 1)) n)
            /\ (forall n, In (DownNext (pt x y) n t) (initString st)
                          <-> lateral_successor origin_snapshot st t x y
                                (Z.min (num_lanes origin_snapshot - 1) (y + 1)) n)
            /\ exists up down,
                 forall n, (In (UpNext (pt x y) n t) (initString st) <-> n = up)
                           /\ (In (DownNext (pt x y) n t) (initString st)
                               <-> n = down).
Proof.
  split; [reflexivity|].
  apply (lateral_successors origin_snapshot). reflexivity.
Defined.

(** C3, as stated, fails: the car of [origin_snapshot] is back on the cell
    (0,0) at the last instant (3), so [(blocked pt0pt0 3)] is emitted; line 238
    has put [pt0pt0] back into the free set of that instant, and the lateral-up
    move from (1,1) is sent onto the blocked cell instead of staying in its
    lane. *)
Lemma blocked_up_counterexample :
  exists st,
    generateInitString_state origin_snapshot = Ok st
    /\ max_time origin_snapshot = Ok 4
    /\ In (Blocked "pt0pt0" 3) (initString st)
    /\ In (UpNext "pt1pt1" "pt0pt0" 3) (initString st)
    /\ ~ blocked_up_degrades st 3 1 1.
Proof.
  eexists. split; [apply generateInitString_state_valid; reflexivity|].
  split; [reflexivity|].
  assert (Hb : In (Blocked "pt0pt0" 3) (all_facts origin_snapshot))
    by (apply names_blocked_true; vm_compute; reflexivity).
  assert (Hu : In (UpNext "pt1pt1" "pt0pt0" 3) (all_facts origin_snapshot)).
  { pose proof (lateral_successor_facts origin_snapshot 3 1 1) as H. cbv zeta in H.
    assert (Hh : horizon origin_snapshot = 4) by reflexivity.
    apply H; [rewrite Hh; lia | cbn; lia | cbn; lia |]. vm_compute. reflexivity. }
  cbn [initString]. split; [exact Hb|]. split; [exact Hu|].
  intros H. specialize (H Hb _ Hu). vm_compute in H. discriminate.
Qed.

(** The car of [crossing_snapshot] is on (2,1) at instant 1: the lateral-up
    move from (3,2) falls back to the lane of the agent, the one from (3,0)
    keeps its lane by the clamp. *)
Example lateral_up_blocked_degrades :
  exists st,
    generateInitString_state crossing_snapshot = Ok st
    /\ In (Blocked "pt2pt1" 1) (initString st)
    /\ In (UpNext "pt3pt2" "pt2pt2" 1) (initString st)
    /\ In (UpNext "pt3pt0" "pt2pt0" 1) (initString st)
    /\ In (DownNext "pt3pt0" "pt2pt0" 1) (initString st)
    /\ In (DownNext "pt3pt1" "pt2pt2" 1) (initString st).
Proof.
  eexists. split; [apply generateInitString_state_valid; reflexivity|].
  split; [apply names_blocked_true; vm_compute; reflexivity|].
  pose proof (lateral_successor_facts crossing_snapshot) as H. cbv zeta in H.
  assert (Hh : horizon crossing_snapshot = 6) by reflexivity.
  repeat split.
  - apply (H 1 3 2); [rewrite Hh; lia | cbn; lia | cbn; lia |]. vm_compute. reflexivity.
  - apply (H 1 3 0); [rewrite Hh; lia | cbn; lia | cbn; lia |]. vm_compute. reflexivity.
  - apply (H 1 3 0); [rewrite Hh; lia | cbn; lia | cbn; lia |]. vm_compute. reflexivity.
  - apply (H 1 3 1); [rewrite Hh; lia | cbn; lia | cbn; lia |]. vm_compute. reflexivity.
Qed.

(* ===================================================================== *)
(** * Instant 0 *)
(* ===================================================================== *)

Lemma origin_name : pt 0 0 = "pt0pt0"%string.
Proof. reflexivity. Qed.

Lemma is_origin_false (p : Point) :
  is_origin p = false -> negb (px p =? 0) || negb (py p =? 0) = true.
Proof. unfold is_origin. now destruct (_ =? _), (_ =? _). Qed.

Lemma covers_initial (c : Car) :
  is_origin (car_position c) = false ->
  covers (pt (px (car_position c)) (py (car_position c))) (block_initial_row c).
Proof.
  intros H. unfold block_initial_row. rewrite (is_origin_false _ H).
  apply covers_block_row.
Qed.

(** Every fact of lines 201-205 comes from a car away from the origin. *)
Lemma initial_provenance (cs : list Car) (row : list string) (f : fact) :
  In f (fst (each_row block_initial_row cs row)) ->
  exists c, In c cs /\ is_origin (car_position c) = false
            /\ (f = At (pt (px (car_position c)) (py (car_position c))) 0 (car_name c)
                \/ f = Blocked (pt (px (car_position c)) (py (car_position c))) 0).
Proof.
  revert row. induction cs as [|c cs IH]; intros row H; [destruct H|].
  cbn [each_row] in H. unfold then_row in H. cbn [fst snd] in H.
  apply in_app_iff in H. destruct H as [H|H].
  - exists c. split; [now left|].
    unfold block_initial_row, block_row, skip_row, is_origin in *.
    destruct (px (car_position c) =? 0), (py (car_position c) =? 0);
      cbn [negb orb andb] in *; try destruct H;
      destruct (mem _ row); cbn in H; intuition.
  - destruct (IH _ H) as [c' [Hc' H']]. exists c'. split; [now right | assumption].
Qed.

(** The occupancy facts of instant 0: those of the cars away from the cell
    (0,0), and the one of the agent. *)
Lemma initial_at_provenance (g : Gen) (cell who : string) :
  In (At cell 0 who) (all_facts g) ->
  (exists c, In c (cars (state g)) /\ is_origin (car_position c) = false
             /\ cell = pt (px (car_position c)) (py (car_position c))
             /\ who = car_name c)
  \/ (who = agent_name
      /\ cell = pt (px (agent_position (agent (state g))))
                   (py (agent_position (agent (state g))))).
Proof.
  unfold all_facts. rewrite !in_app_iff, in_sweep_facts.
  intros [H | [[t' [Ht' [H | [c' [E _]]]]] | [[E | []] | [H | H]]]].
  - left. apply initial_provenance in H. destruct H as [c [Hc [Ho [E|E]]]];
      [|discriminate]. exists c. repeat split; auto; congruence.
  - pose proof (sweep_cars_shape g t') as S. rewrite Forall_forall in S.
    specialize (S _ H). cbn in S. lia.
  - discriminate.
  - right. unfold agent_fact in E. split; congruence.
  - apply transition_facts_shape in H. destruct H as [? [_ []]].
  - unfold instant_facts in H. apply in_map_iff in H.
    destruct H as [? [? _]]. discriminate.
Qed.

(** C7, as the code has it.  On a valid snapshot the cell of every obstacle
    that is not on the cell (0,0) carries a blocked fact at instant 0 and is not
    free at 0, and these are the only blocked facts of instant 0.  The exempted
    cell is the fixed cell (0,0), wherever the agent starts: it has no blocked
    fact and no occupancy fact of an obstacle at instant 0 and stays free,
    whereas the cell where the agent starts is blocked at instant 0 exactly when
    it is not (0,0) and an obstacle stands on it.  The agent itself is never a
    source of a blocked fact: the blocked facts and the free sets are the same
    wherever the agent is. *)
Theorem initial_obstacles_blocked (g : Gen) :
  valid_snapshot g = true ->
  exists st,
    generateInitString_state g = Ok st
    /\ (forall c, In c (cars (state g)) -> is_origin (car_position c) = false ->
                  In (Blocked (pt (px (car_position c)) (py (car_position c))) 0)
                     (initString st)
                  /\ ~ In (pt (px (car_position c)) (py (car_position c)))
                          (free_at st 0))
    /\ (forall cell, In (Blocked cell 0) (initString st) ->
                     exists c, In c (cars (state g))
                               /\ is_origin (car_position c) = false
                               /\ cell = pt (px (car_position c)) (py (car_position c)))
    /\ ~ In (Blocked "pt0pt0" 0) (initString st)
    /\ (In "pt0pt0"%string (grid_cell_list g) -> In "pt0pt0"%string (free_at st 0))
    /\ (forall who, In (At "pt0pt0" 0 who) (initString st) ->
                    who = agent_name
                    /\ is_origin (agent_position (agent (state g))) = true)
    /\ (In (Blocked (pt (px (agent_position (agent (state g))))
                        (py (agent_position (agent (state g))))) 0) (initString st)
        <-> is_origin (agent_position (agent (state g))) = false
            /\ exists c, In c (cars (state g))
                         /\ px (car_position c) = px (agent_position (agent (state g)))
                         /\ py (car_position c) = py (agent_position (agent (state g))))
    /\ (forall p, exists st',
                    generateInitString_state (move_agent g p) = Ok st'
                    /\ free_cells st' = free_cells st
                    /\ forall cell t, In (Blocked cell t) (initString st')
                                      <-> In (Blocked cell t) (initString st)).
Proof.
  intros Hv. pose proof (horizon_ge_2 g Hv) as Hh.
  destruct (valid_snapshot_spec g Hv) as [Hcars _].
  eexists. split; [apply (generateInitString_state_valid g Hv)|].
  cbn [initString].
  assert (Hprov : forall cell, In (Blocked cell 0) (all_facts g) ->
            exists c, In c (cars (state g)) /\ is_origin (car_position c) = false
                      /\ cell = pt (px (car_position c)) (py (car_position c))).
  { intros cell H. apply blocked_fact_iff in H; [|lia].
    apply initial_provenance in H. destruct H as [c [Hc [Ho [E|E]]]]; [discriminate|].
    exists c. repeat split; auto. congruence. }
  assert (Hnot : ~ In (Blocked "pt0pt0" 0) (all_facts g)).
  { intros H. destruct (Hprov _ H) as [c [_ [Ho E]]].
    rewrite <- origin_name in E. apply pt_inj in E. destruct E as [E1 E2].
    unfold is_origin in Ho. rewrite <- E1, <- E2 in Ho. discriminate. }
  assert (Hfree : forall c, In c (free_at {| initString := all_facts g;
                      free_cells := map (final_row g) (range 0 (horizon g)) |} 0)
                            <-> In c (swept_row g 0)).
  { intros c. rewrite (free_at_final g 0) by lia. rewrite in_final_row.
    split; [intros [H|[? _]]; [assumption | lia] | tauto]. }
  assert (Hblk : forall c, In c (cars (state g)) ->
            is_origin (car_position c) = false ->
            In (Blocked (pt (px (car_position c)) (py (car_position c))) 0)
               (all_facts g)).
  { intros c Hc Ho. apply blocked_fact_iff; [lia|].
    unfold blocked_source, initial_facts.
    change (0 =? 0) with true. cbv iota.
    apply covered_blocked.
    - apply blocking_initial_cars.
    - apply (covers_each 0) with (x := c); auto.
      + intros; apply blocking_initial.
      + now apply covers_initial.
    - apply NoDup_grid_cells.
    - apply in_grid_cells. specialize (Hcars c Hc). apply in_grid_spec in Hcars.
      exists (px (car_position c)), (py (car_position c)). tauto. }
  split; [|split; [exact Hprov | split; [exact Hnot | split; [|split; [|split]]]]].
  - intros c Hc Ho. split; [now apply Hblk|]. rewrite Hfree. intros Hf.
    apply (partition_swept g 0 _ ltac:(lia)) in Hf.
    destruct Hf as [_ Hf]. apply Hf. now apply Hblk.
  - intros Hin. apply Hfree.
    destruct (partition_swept g 0 "pt0pt0"%string ltac:(lia)) as (_ & H & _).
    destruct (H Hin); [assumption | contradiction].
  - intros who H. apply initial_at_provenance in H.
    destruct H as [[c [_ [Ho [E _]]]] | [Hw E]].
    + rewrite <- origin_name in E. apply pt_inj in E. destruct E as [E1 E2].
      unfold is_origin in Ho. rewrite <- E1, <- E2 in Ho. discriminate.
    + split; [exact Hw|]. rewrite <- origin_name in E. apply pt_inj in E.
      destruct E as [E1 E2]. unfold is_origin. now rewrite <- E1, <- E2.
  - split.
    + intros H. destruct (Hprov _ H) as [c [Hc [Ho E]]].
      apply pt_inj in E. destruct E as [E1 E2]. split.
      * unfold is_origin in *. now rewrite E1, E2.
      * exists c. auto.
    + intros [Ho [c [Hc [E1 E2]]]]. rewrite <- E1, <- E2. apply Hblk; [assumption|].
      unfold is_origin in *. now rewrite E1, E2.
  - intros p. eexists.
    split; [apply (generateInitString_state_valid (move_agent g p) Hv)|].
    split; [reflexivity|].
    intros cell t. cbn [initString]. rewrite !in_all_facts_blocked. reflexivity.
Qed.

Lemma initial_obstacles_blocked_witness :
  valid_snapshot shared_start_snapshot = true
  /\ exists st,
       generateInitString_state shared_start_snapshot = Ok st
       /\ (forall c, In c (cars (state shared_start_snapshot)) ->
                     is_origin (car_position c) = false ->
                     In (Blocked (pt (px (car_position c)) (py (car_position c))) 0)
                        (initString st)
                     /\ ~ In (pt (px (car_position c)) (py (car_position c)))
                             (free_at st 0))
       /\ (forall cell, In (Blocked cell 0) (initString st) ->
                        exists c, In c (cars (state shared_start_snapshot))
                                  /\ is_origin (car_position c) = false
                                  /\ cell = pt (px (car_position c))
                                               (py (car_position c)))
       /\ ~ In (Blocked "pt0pt0" 0) (initString st)
       /\ (In "pt0pt0"%string (grid_cell_list shared_start_snapshot) ->
           In "pt0pt0"%string (free_at st 0))
       /\ (forall who, In (At "pt0pt0" 0 who) (initString st) ->
                       who = agent_name
                       /\ is_origin (agent_position (agent (state shared_start_snapshot)))
                          = true)
       /\ (In (Blocked (pt (px (agent_position (agent (state shared_start_snapshot))))
                           (py (agent_position (agent (state shared_start_snapshot)))))
                       0) (initString st)
           <-> is_origin (agent_position (agent (state shared_start_snapshot))) = false
               /\ exists c, In c (cars (state shared_start_snapshot))
                            /\ px (car_position c)
                               = px (agent_position (agent (state shared_start_snapshot)))
                            /\ py (car_position c)
                               = py (agent_position (agent (state shared_start_snapshot))))
       /\ (forall p, exists st',
                       generateInitString_state (move_agent shared_start_snapshot p)
                       = Ok st'
                       /\ free_cells st' = free_cells st
                       /\ forall cell t, In (Blocked cell t) (initString st')
                                         <-> In (Blocked cell t) (initString st)).
Proof.
  split; [reflexivity|].
  apply (initial_obstacles_blocked shared_start_snapshot). reflexivity.
Defined.

(** C7, as stated, fails: in [shared_start_snapshot] the agent starts on (2,1),
    where the second car stands, and [(blocked pt2pt1 0)] is emitted beside the
    agent's own occupancy fact; the first car stands on (0,0), away from the
    agent, and no fact of instant 0 blocks its cell. *)
Lemma start_cell_counterexample :
  exists st,
    generateInitString_state shared_start_snapshot = Ok st
    /\ In (At "pt2pt1" 0 agent_name) (initString st)
    /\ In (Blocked "pt2pt1" 0) (initString st)
    /\ ~ In (Blocked "pt0pt0" 0) (initString st)
    /\ ~ start_cell_exempt shared_start_snapshot st.
Proof.
  eexists. split; [apply generateInitString_state_valid; reflexivity|].
  cbn [initString].
  assert (Hb : In (Blocked "pt2pt1" 0) (all_facts shared_start_snapshot))
    by (apply names_blocked_true; vm_compute; reflexivity).
  split; [|split; [exact Hb | split]].
  - unfold all_facts. rewrite !in_app_iff. right; right; left. left. reflexivity.
  - intros H. apply names_blocked_In in H. vm_compute in H. discriminate.
  - intros [_ H]. apply H. exact Hb.
Qed.

(** The car of [origin_snapshot] starts on the origin cell: no fact of
    instant 0 mentions it. *)
Example origin_car_not_blocked :
  exists st,
    generateInitString_state origin_snapshot = Ok st
    /\ ~ In (Blocked "pt0pt0" 0) (initString st)
    /\ In "pt0pt0"%string (free_at st 0)
    /\ In (Blocked "pt2pt0" 1) (initString st).
Proof.
  eexists. split; [apply generateInitString_state_valid; reflexivity|].
  split; [intros H; apply names_blocked_In in H; vm_compute in H; discriminate|].
  split; [apply mem_In; vm_compute; reflexivity|].
  apply names_blocked_true. vm_compute. reflexivity.
Qed.

(* ===================================================================== *)
(** * Instants and time objects *)
(* ===================================================================== *)

Lemma in_time_objects (g : Gen) (i : Z) :
  In (str i) (time_objects g) <-> 0 <= i < width g.
Proof.
  unfold time_objects. rewrite in_map_iff. split.
  - intros [j [E Hj]]. apply str_inj in E. subst. now apply in_range.
  - intros H. exists i. split; [reflexivity | now apply in_range].
Qed.

Lemma sweep_fact_instant (t : Z) (f : fact) (i : Z) :
  sweep_fact t f -> In i (fact_instants f) ->
  i = t /\ forall j, f <> NextInstant j i.
Proof.
  destruct f; cbn; try tauto; intros <- [<-|[]]; split; auto; discriminate.
Qed.

Lemma transition_fact_instant (t : Z) (f : fact) (i : Z) :
  transition_fact t f -> In i (fact_instants f) ->
  i = t /\ forall j, f <> NextInstant j i.
Proof.
  destruct f; cbn; try tauto; intros <- [<-|[]]; split; auto; discriminate.
Qed.

(** C8, as the code has it.  On a valid snapshot the horizon is
    [width // min speed + 1] (floor division); the declared time objects are
    the instants [0 .. width - 1]; every instant named by an emitted fact lies
    in [0, horizon], and only instant-successor facts name [horizon] itself. *)
Theorem instants_within_horizon (g : Gen) :
  valid_snapshot g = true ->
  exists st,
    generateInitString_state g = Ok st
    /\ max_time g = Ok (width g / min_speed g + 1)
    /\ (forall i, In (str i) (time_objects g) <-> 0 <= i < width g)
    /\ forall f i, In f (initString st) -> In i (fact_instants f) ->
                   0 <= i <= width g / min_speed g + 1
                   /\ (i = width g / min_speed g + 1 -> exists j, f = NextInstant j i).
Proof.
  intros Hv. pose proof (horizon_ge_2 g Hv) as Hh.
  eexists. split; [apply (generateInitString_state_valid g Hv)|].
  split; [apply (max_time_valid g Hv)|].
  split; [apply in_time_objects|].
  cbn [initString]. fold (horizon g). intros f i Hf Hi.
  unfold all_facts in Hf. rewrite !in_app_iff, in_sweep_facts in Hf.
  destruct Hf as [H | [[t' [Ht' [H | [c' [E _]]]]] | [[E | []] | [H | H]]]].
  - pose proof (initial_facts_shape g) as S. rewrite Forall_forall in S.
    destruct (sweep_fact_instant 0 f i (S _ H) Hi) as [-> _]. split; lia.
  - pose proof (sweep_cars_shape g t') as S. rewrite Forall_forall in S.
    destruct (sweep_fact_instant t' f i (S _ H) Hi) as [-> _]. split; lia.
  - subst f. destruct Hi as [<-|[]]. split; lia.
  - subst f. destruct Hi as [<-|[]]. split; lia.
  - apply transition_facts_shape in H. destruct H as [t' [Ht' H]].
    destruct (transition_fact_instant t' f i H Hi) as [-> _]. split; lia.
  - unfold instant_facts in H. apply in_map_iff in H.
    destruct H as [j [<- Hj]]. apply in_range in Hj.
    destruct Hi as [<-|[<-|[]]]; split; try lia.
    intros _. now exists j.
Qed.

Lemma instants_within_horizon_witness :
  valid_snapshot crossing_snapshot = true
  /\ exists st,
       generateInitString_state crossing_snapshot = Ok st
       /\ max_time crossing_snapshot
          = Ok (width crossing_snapshot / min_speed crossing_snapshot + 1)
       /\ (forall i, In (str i) (time_objects crossing_snapshot)
                     <-> 0 <= i < width crossing_snapshot)
       /\ forall f i, In f (initString st) -> In i (fact_instants f) ->
                      0 <= i <= width crossing_snapshot / min_speed crossing_snapshot + 1
                      /\ (i = width crossing_snapshot / min_speed crossing_snapshot + 1 ->
                          exists j, f = NextInstant j i).
Proof.
  split; [reflexivity|].
  apply (instants_within_horizon crossing_snapshot). reflexivity.
Defined.

(** C8, as stated, fails: with width 5 and least speed 1 the horizon is 6, the
    time objects are 0..4, and the facts name the instants 5 and 6. *)
Lemma time_objects_counterexample :
  exists st,
    generateInitString_state crossing_snapshot = Ok st
    /\ max_time crossing_snapshot = Ok 6
    /\ time_objects crossing_snapshot = ["0"; "1"; "2"; "3"; "4"]%string
    /\ In (NextInstant 5 6) (initString st)
    /\ ~ In (str 6) (time_objects crossing_snapshot)
    /\ ~ time_objects_cover crossing_snapshot st.
Proof.
  eexists. split; [apply generateInitString_state_valid; reflexivity|].
  do 2 (split; [reflexivity|]).
  assert (Hin : In (NextInstant 5 6) (all_facts crossing_snapshot)).
  { unfold all_facts. rewrite !in_app_iff. do 4 right.
    unfold instant_facts. apply in_map_iff. exists 5. split; [reflexivity|].
    apply in_range. vm_compute. split; congruence. }
  assert (Hno : ~ In (str 6) (time_objects crossing_snapshot)).
  { rewrite in_time_objects. cbn. lia. }
  split; [exact Hin|]. split; [exact Hno|].
  intros [_ H]. apply Hno. apply (H (NextInstant 5 6) 6 Hin). cbn. auto.
Qed.

(** The horizon rounds down: with width 5 and least speed 2 it is 3, not
    [ceil(5 / 2) + 1 = 4]. *)
Remark horizon_rounds_down :
  valid_snapshot fast_agent_snapshot = true
  /\ max_time fast_agent_snapshot = Ok 3
  /\ - ((- width fast_agent_snapshot) / min_speed fast_agent_snapshot) + 1 = 4.
Proof. repeat split. Qed.

(* ===================================================================== *)
(** * The goal condition *)
(* ===================================================================== *)

Lemma goal_holds_iff (g : Gen) (world : fact -> Prop) :
  holds world (generateGoalString g)
  <-> exists i, 0 <= i < width g
                /\ world (At (pt (px (finish_position (state g)))
                                 (py (finish_position (state g)))) i agent_name).
Proof.
  unfold generateGoalString, holds. split.
  - intros [f [Hf Hw]]. apply in_map_iff in Hf. destruct Hf as [i [<- Hi]].
    apply in_range in Hi. eauto.
  - intros [i [Hi Hw]]. eexists. split; [|exact Hw].
    apply in_map_iff. exists i. split; [reflexivity | now apply in_range].
Qed.

(** C4, as the code has it.  The goal is a disjunction with one disjunct per
    instant [0 .. width - 1], each saying that the agent is on the finish cell at
    that instant: it holds exactly when the agent is on the finish cell at some
    instant of [0, width), and one such instant is enough. *)
Theorem goal_is_disjunction_over_width (g : Gen) :
  (exists fs, generateGoalString g = COr fs
              /\ List.length fs = Z.to_nat (width g)
              /\ forall k, 0 <= k < width g ->
                   nth_error fs (Z.to_nat k)
                   = Some (At (pt (px (finish_position (state g)))
                                  (py (finish_position (state g)))) k agent_name))
  /\ forall world : fact -> Prop,
       holds world (generateGoalString g)
       <-> exists i, 0 <= i < width g
                     /\ world (At (pt (px (finish_position (state g)))
                                      (py (finish_position (state g)))) i agent_name).
Proof.
  split; [|apply goal_holds_iff].
  eexists. split; [reflexivity|]. split.
  - rewrite length_map, length_range. f_equal. lia.
  - intros k Hk. rewrite nth_error_map, nth_error_range by lia.
    cbn. do 2 f_equal. lia.
Qed.

(** C4, as stated, fails: with width 5 and least speed 1 the horizon is 6, and
    an agent that is on the finish cell at instant 5 only does not satisfy the
    goal. *)
Lemma goal_horizon_counterexample :
  max_time crossing_snapshot = Ok 6
  /\ ~ holds (eq (At "pt4pt1" 5 agent_name)) (generateGoalString crossing_snapshot)
  /\ ~ goal_within_horizon crossing_snapshot.
Proof.
  split; [reflexivity|].
  assert (N : ~ holds (eq (At "pt4pt1" 5 agent_name))
                (generateGoalString crossing_snapshot)).
  { rewrite goal_holds_iff. intros [i [Hi E]]. cbn in Hi.
    assert (i = 5) by congruence. lia. }
  split; [exact N|].
  intros H. apply N. apply H. exists 6, 5. repeat split; lia.
Qed.

(** With a least speed of 2 the goal also names instants beyond the horizon. *)
Remark goal_beyond_horizon :
  max_time fast_agent_snapshot = Ok 3
  /\ holds (eq (At "pt0pt0" 4 agent_name)) (generateGoalString fast_agent_snapshot).
Proof.
  split; [reflexivity|]. apply goal_holds_iff. exists 4. cbn. split; [lia | reflexivity].
Qed.

(* ===================================================================== *)
(** * Plan lines and their tokens *)
(* ===================================================================== *)

Lemma split_ws_from_token (tok cur rest : string) :
  all_chars (fun c => negb (is_space c)) tok = true ->
  split_ws_from cur (tok ++ rest) = split_ws_from (cur ++ tok) rest.
Proof.
  revert cur. induction tok as [|c tok IH]; intros cur H; simpl.
  - now rewrite append_empty_r.
  - simpl in H. apply andb_true_iff in H. destruct H as [H1 H2].
    destruct (is_space c); [discriminate|].
    rewrite IH by assumption. unfold snoc. now rewrite append_assoc.
Qed.

Lemma is_token_spec (s : string) :
  is_token s = true ->
  is_empty s = false /\ all_chars (fun c => negb (is_space c)) s = true.
Proof.
  unfold is_token. rewrite andb_true_iff, negb_true_iff. tauto.
Qed.

Lemma split_ws_join (toks : list string) :
  forallb is_token toks = true -> split_ws (join_tokens toks) = toks.
Proof.
  unfold split_ws. induction toks as [|t r IH]; intros H; [reflexivity|].
  cbn [forallb] in H. apply andb_true_iff in H. destruct H as [Ht Hr].
  apply is_token_spec in Ht. destruct Ht as [Hne Hns].
  cbn [join_tokens]. destruct r as [|t' r'].
  - rewrite split_ws_from_token by assumption. cbn. now rewrite Hne.
  - rewrite split_ws_from_token by assumption. cbn [append split_ws_from].
    change (is_space " ") with true. cbv iota. rewrite Hne.
    f_equal. now apply IH.
Qed.

Lemma is_token_app (s1 s2 : string) :
  is_token s1 = true -> all_chars (fun c => negb (is_space c)) s2 = true ->
  is_token (s1 ++ s2) = true.
Proof.
  intros H1 H2. apply is_token_spec in H1. destruct H1 as [Hne Hns].
  unfold is_token. rewrite all_chars_app, Hns, H2.
  destruct s1; [discriminate | reflexivity].
Qed.

Lemma str_no_space (z : Z) : all_chars (fun c => negb (is_space c)) (str z) = true.
Proof.
  apply all_chars_impl with (p := numeral_char); [|apply str_numeral].
  intros c Hc. now rewrite numeral_not_space.
Qed.

Lemma is_token_str (z : Z) : is_token (str z) = true.
Proof. unfold is_token. now rewrite str_not_empty, str_no_space. Qed.

Lemma is_token_pt (x y : Z) : is_token (pt x y) = true.
Proof.
  unfold is_token. apply andb_true_iff. split; [reflexivity|].
  apply all_chars_impl with (p := cell_char); [|apply pt_cell_chars].
  intros c Hc. now rewrite cell_char_not_space.
Qed.

Lemma plan_line_join (p : plan_action) : plan_line p = join_tokens (plan_tokens p).
Proof.
  destruct p; cbn [plan_line plan_tokens join_tokens];
    repeat (rewrite ?append_assoc; cbn [append]); reflexivity.
Qed.

Lemma split_ws_plan_line (p : plan_action) : split_ws (plan_line p) = plan_tokens p.
Proof.
  rewrite plan_line_join. apply split_ws_join.
  destruct p; cbn [plan_tokens forallb];
    rewrite ?is_token_pt, ?is_token_str, ?is_token_app;
    auto using is_token_str.
Qed.

Lemma lane_of_cell (x y : Z) : py_get (split_pt (pt x y)) 2 = Ok (str y).
Proof. rewrite split_pt_pt. reflexivity. Qed.

Lemma distinct_count_pair (a b : Z) :
  Nat.eqb (distinct_count [str a; str b]) 1 = (a =? b).
Proof.
  unfold distinct_count. cbn [nodup]. destruct (in_dec string_dec (str a) [str b]) as [H|H].
  - destruct H as [H|[]]. apply str_inj in H. subst. now rewrite Z.eqb_refl.
  - destruct (Z.eqb_spec a b) as [->|Hne]; [|reflexivity].
    exfalso. apply H. now left.
Qed.

Lemma drop_last_paren (s : string) :
  is_empty s = false -> drop_last (s ++ ")") = s.
Proof.
  induction s as [|c s IH]; [discriminate|]. intros _. cbn [append drop_last].
  destruct s as [|c' s']; [reflexivity|].
  cbn [append]. cbn [append] in IH. rewrite IH by reflexivity. reflexivity.
Qed.

(** What the translator makes of the three kinds of plan line. *)
Lemma generatePlan_line_up {A : Type} (actions : list A)
      (x1 y1 x2 y2 t1 t2 : Z) (seq : list A) :
  generatePlan_line actions (plan_line (PUp x1 y1 x2 y2 t1 t2)) seq
  = (a <- py_get actions (if y1 =? y2 then -1 else 0) ;; Ok (seq ++ [a])).
Proof.
  unfold generatePlan_line. rewrite split_ws_plan_line.
  cbn [plan_line append first_char bind plan_tokens].
  change (Ascii.eqb "(" "(") with true. cbv iota.
  change (py_get ("(up"%string :: ?l) 0) with (Ok "(up"%string).
  cbn [bind drop_first slice Nat.sub skipn firstn map_m].
  rewrite !lane_of_cell. cbn [bind]. rewrite distinct_count_pair.
  change (String.eqb "up" "up") with true.
  change (String.eqb "up" "down") with false.
  change (String.eqb "up" "forward") with false. cbv iota.
  destruct (y1 =? y2); destruct (py_get actions _); reflexivity.
Qed.

Lemma generatePlan_line_down {A : Type} (actions : list A)
      (x1 y1 x2 y2 t1 t2 : Z) (seq : list A) :
  generatePlan_line actions (plan_line (PDown x1 y1 x2 y2 t1 t2)) seq
  = (a <- py_get actions (if y1 =? y2 then -1 else 1) ;; Ok (seq ++ [a])).
Proof.
  unfold generatePlan_line. rewrite split_ws_plan_line.
  cbn [plan_line append first_char bind plan_tokens].
  change (Ascii.eqb "(" "(") with true. cbv iota.
  change (py_get ("(down"%string :: ?l) 0) with (Ok "(down"%string).
  cbn [bind drop_first slice Nat.sub skipn firstn map_m].
  rewrite !lane_of_cell. cbn [bind]. rewrite distinct_count_pair.
  change (String.eqb "down" "up") with false.
  change (String.eqb "down" "down") with true.
  change (String.eqb "down" "forward") with false. cbv iota.
  destruct (y1 =? y2); destruct (py_get actions _); reflexivity.
Qed.

Lemma generatePlan_line_forward {A : Type} (actions : list A)
      (x1 y1 x2 y2 t1 t2 s : Z) (seq : list A) :
  generatePlan_line actions (plan_line (PForward x1 y1 x2 y2 t1 t2 s)) seq
  = (a <- py_get actions s ;; Ok (seq ++ [a])).
Proof.
  unfold generatePlan_line. rewrite split_ws_plan_line.
  cbn [plan_line append first_char bind plan_tokens].
  change (Ascii.eqb "(" "(") with true. cbv iota.
  change (py_get ("(forward"%string :: ?l) 0) with (Ok "(forward"%string).
  cbn [bind drop_first slice Nat.sub skipn firstn map_m].
  rewrite !lane_of_cell. cbn [bind].
  change (String.eqb "forward" "up") with false.
  change (String.eqb "forward" "down") with false.
  change (String.eqb "forward" "forward") with true. cbv iota. cbn [bind].
  change ["(forward"%string; pt x1 y1; pt x2 y2; str t1; str t2; (str s ++ ")")%string]
    with (["(forward"%string; pt x1 y1; pt x2 y2; str t1; str t2] ++ [(str s ++ ")")%string]).
  rewrite py_get_last. cbn [bind].
  rewrite drop_last_paren by apply str_not_empty.
  rewrite py_int_str. reflexivity.
Qed.

(* ===================================================================== *)
(** * The plan translator *)
(* ===================================================================== *)

(** C5, as the code has it.  For a well-formed lateral-up or lateral-down plan
    line the translator compares the lanes (y coordinates) of the two cells:
    equal lanes give the last action of the list (the slowest forward move of
    the environment), different lanes give the lateral action (the first action
    for up, the second for down).  The x coordinates play no part. *)
Theorem lateral_line_by_lane {A : Type} (actions : list A)
        (x1 y1 x2 y2 t1 t2 : Z) (seq : list A) (fwd up down : A) :
  py_get actions (-1) = Ok fwd ->
  py_get actions 0 = Ok up ->
  py_get actions 1 = Ok down ->
  generatePlan_line actions (plan_line (PUp x1 y1 x2 y2 t1 t2)) seq
  = Ok (seq ++ [if y1 =? y2 then fwd else up])
  /\ generatePlan_line actions (plan_line (PDown x1 y1 x2 y2 t1 t2)) seq
     = Ok (seq ++ [if y1 =? y2 then fwd else down]).
Proof.
  intros Hf Hu Hd. rewrite generatePlan_line_up, generatePlan_line_down.
  destruct (y1 =? y2); rewrite ?Hf, ?Hu, ?Hd; split; reflexivity.
Qed.

Lemma lateral_line_by_lane_witness :
  py_get grid_driving_actions (-1) = Ok "forward[-1]"%string
  /\ py_get grid_driving_actions 0 = Ok "up"%string
  /\ py_get grid_driving_actions 1 = Ok "down"%string
  /\ generatePlan_line grid_driving_actions (plan_line (PUp 3 1 2 1 0 1)) []
     = Ok ([] ++ [if (1 =? 1)%Z then "forward[-1]"%string else "up"%string])
  /\ generatePlan_line grid_driving_actions (plan_line (PDown 3 1 2 1 0 1)) []
     = Ok ([] ++ [if (1 =? 1)%Z then "forward[-1]"%string else "down"%string]).
Proof.
  do 3 (split; [reflexivity|]).
  apply (lateral_line_by_lane grid_driving_actions 3 1 2 1 0 1 []
           "forward[-1]"%string "up"%string "down"%string); reflexivity.
Defined.

(** C5, as stated, fails in both directions: a lateral-up line from (3,1) to
    (2,1) has different x coordinates and is turned into the slowest forward
    move; one from (0,1) to (0,0) has the same x coordinate and is turned into
    the lateral-up move. *)
Lemma lateral_by_column_counterexample :
  generatePlan_line grid_driving_actions (plan_line (PUp 3 1 2 1 0 1)) []
  = Ok ["forward[-1]"%string]
  /\ generatePlan_line grid_driving_actions (plan_line (PUp 0 1 0 0 0 1)) []
     = Ok ["up"%string]
  /\ ~ lateral_by_column grid_driving_actions.
Proof.
  assert (E : generatePlan_line grid_driving_actions (plan_line (PUp 3 1 2 1 0 1)) []
              = Ok ["forward[-1]"%string]) by reflexivity.
  split; [exact E|]. split; [reflexivity|].
  intros H.
  specialize (H 3 1 2 1 0 1 [] "forward[-1]"%string "up"%string eq_refl eq_refl).
  rewrite E in H. discriminate.
Qed.

(** The translation of a forward line: the environment action at the index
    given by the (negative) speed. *)
Example forward_line_translated :
  generatePlan grid_driving_actions (plan_line (PForward 0 0 3 0 0 1 (-3)))
  = Ok ["forward[-3]"%string].
Proof. reflexivity. Qed.

(** ** Lines that name no action *)

Lemma unknown_action_line {A : Type} (actions : list A) (line : string) (seq : list A) :
  first_char line = Ok "("%char ->
  known_action (plan_action_name line) = false ->
  generatePlan_line actions line seq
  = (_ <- py_get (split_ws line) 0 ;;
     _ <- map_m (fun points => py_get (split_pt points) 2) (slice 1 3 (split_ws line)) ;;
     Ok seq).
Proof.
  intros Hc Hk. unfold generatePlan_line. rewrite Hc. cbn [bind].
  change (Ascii.eqb "(" "(") with true. cbv iota.
  unfold plan_action_name in Hk.
  destruct (split_ws line) as [|tok toks] eqn:Hs; [reflexivity|].
  change (py_get (tok :: toks) 0) with (Ok tok). cbn [bind].
  unfold known_action in Hk. apply orb_false_iff in Hk. destruct Hk as [Hk Hf].
  apply orb_false_iff in Hk. destruct Hk as [Hu Hd].
  rewrite Hu, Hd, Hf.
  destruct (map_m _ _); reflexivity.
Qed.

Lemma split_ws_from_nonempty (s cur : string) :
  is_empty cur = false -> split_ws_from cur s <> [].
Proof.
  revert cur. induction s as [|c s IH]; intros cur H; cbn [split_ws_from].
  - rewrite H. discriminate.
  - destruct (is_space c).
    + rewrite H. discriminate.
    + apply IH. unfold snoc. now destruct cur.
Qed.

Lemma paren_line_tokens (line : string) :
  first_char line = Ok "("%char -> split_ws line <> [].
Proof.
  destruct line as [|c r]; cbn [first_char]; [discriminate|].
  intros [= ->]. unfold split_ws. cbn [split_ws_from].
  change (is_space "(") with false. cbv iota.
  now apply split_ws_from_nonempty.
Qed.

Lemma py_get_lane (points : string) :
  if has_lane points
  then exists lane, py_get (split_pt points) 2 = Ok lane
  else py_get (split_pt points) 2 = Err IndexError.
Proof.
  unfold has_lane.
  destruct (split_pt points) as [|a [|b [|c r]]]; cbn [List.length Nat.leb];
    try reflexivity.
  exists c. apply py_get_nonneg; [lia | reflexivity].
Qed.

Lemma map_m_lanes (toks : list string) :
  if forallb has_lane toks
  then exists coords, map_m (fun points => py_get (split_pt points) 2) toks = Ok coords
  else map_m (fun points => py_get (split_pt points) 2) toks = Err IndexError.
Proof.
  induction toks as [|t r IH]; cbn [forallb map_m]; [now exists []|].
  pose proof (py_get_lane t) as Ht. destruct (has_lane t); cbn [andb].
  - destruct Ht as [lane ->]. cbn [bind].
    destruct (forallb has_lane r).
    + destruct IH as [coords ->]. cbn [bind]. eauto.
    + rewrite IH. reflexivity.
  - rewrite Ht. reflexivity.
Qed.

(** C9, as the code has it.  A line that does not begin with the opening
    parenthesis is ignored.  A line that begins with it but names none of up,
    down and forward never yields an action and never a parse error of its
    own: when each of its second and third tokens (those present) has the
    separator [pt] at least twice, the line is skipped and the translation goes
    on with the sequence unchanged; otherwise the translation stops with the
    [IndexError] of the list access [split('pt')[2]]. *)
Theorem unknown_action_skipped {A : Type} (actions : list A) (line : string)
        (seq : list A) :
  (forall c, first_char line = Ok c -> c <> "("%char ->
             generatePlan_line actions line seq = Ok seq)
  /\ (first_char line = Ok "("%char ->
      known_action (plan_action_name line) = false ->
      generatePlan_line actions line seq
      = if forallb has_lane (slice 1 3 (split_ws line))
        then Ok seq else Err IndexError).
Proof.
  split.
  - intros c Hc Hne. unfold generatePlan_line. rewrite Hc. cbn [bind].
    destruct (Ascii.eqb_spec c "("); [contradiction | reflexivity].
  - intros Hc Hk. rewrite (unknown_action_line actions line seq Hc Hk).
    pose proof (paren_line_tokens line Hc) as Hne.
    pose proof (map_m_lanes (slice 1 3 (split_ws line))) as Hm.
    destruct (split_ws line) as [|tok toks]; [congruence|].
    change (py_get (tok :: toks) 0) with (Ok tok). cbn [bind].
    destruct (forallb has_lane (slice 1 3 (tok :: toks))).
    + destruct Hm as [coords ->]. reflexivity.
    + rewrite Hm. reflexivity.
Qed.

Lemma unknown_action_skipped_witness :
  (first_char "(jump pt0pt0 pt1pt0)" = Ok "("%char
   /\ known_action (plan_action_name "(jump pt0pt0 pt1pt0)") = false
   /\ generatePlan_line grid_driving_actions "(jump pt0pt0 pt1pt0)" [] = Ok [])
  /\ (first_char "(jump pt0 pt1pt0)" = Ok "("%char
      /\ known_action (plan_action_name "(jump pt0 pt1pt0)") = false
      /\ generatePlan_line grid_driving_actions "(jump pt0 pt1pt0)" []
         = Err IndexError).
Proof.
  split; (split; [reflexivity|]); (split; [reflexivity|]).
  - exact (proj2 (unknown_action_skipped grid_driving_actions
                    "(jump pt0pt0 pt1pt0)" []) eq_refl eq_refl).
  - exact (proj2 (unknown_action_skipped grid_driving_actions
                    "(jump pt0 pt1pt0)" []) eq_refl eq_refl).
Defined.

(** A line in parentheses with an unknown name whose second token has the
    separator once: both consumers stop on it with the [IndexError], before
    the line that follows is read. *)
Example unknown_action_raises :
  generatePlan grid_driving_actions
    ("(jump pt0 pt1pt0)" ++ String newline "(up pt1pt1 pt0pt0 0 1)")
  = Err IndexError
  /\ simulateSolution grid_driving_actions
       ("(jump pt0 pt1pt0)" ++ String newline "(up pt1pt1 pt0pt0 0 1)")
     = Raised IndexError [].
Proof. split; reflexivity. Qed.

(** C9, as stated, fails: a line in parentheses with an unknown action name is
    skipped without any error. *)
Lemma unknown_action_counterexample :
  generatePlan grid_driving_actions
    ("(jump pt0pt0 pt1pt0)" ++ String newline "(up pt1pt1 pt0pt0 0 1)")
  = Ok ["up"%string]
  /\ ~ unknown_action_is_fatal grid_driving_actions.
Proof.
  split; [reflexivity|].
  intros H. destruct (H "(jump pt0pt0 pt1pt0)"%string [] eq_refl eq_refl) as [e E].
  vm_compute in E. discriminate.
Qed.

(** Lines with a known name are not checked either: a lateral-up line with a
    single cell is translated to the slowest forward move. *)
Remark short_up_line_translated :
  generatePlan grid_driving_actions "(up pt1pt1)" = Ok ["forward[-1]"%string].
Proof. reflexivity. Qed.

(** ** The two consumers agree *)

Lemma plan_line_agrees {A : Type} (actions : list A) (line : string) (seq : list A) :
  match generatePlan_line actions line seq with
  | Ok seq' => simulateSolution_line actions line seq = Finished seq'
  | Err e => exists steps, simulateSolution_line actions line seq = Raised e steps
  end.
Proof.
  unfold generatePlan_line, simulateSolution_line, try_in, and_then, env_step,
    env_render.
  destruct (first_char line) as [c|e]; cbn [bind]; [|eauto].
  destruct (Ascii.eqb c "("); [|reflexivity].
  destruct (py_get (split_ws line) 0) as [tok|e]; cbn [bind]; [|eauto].
  destruct (map_m _ _) as [coords|e]; cbn [bind]; [|eauto].
  destruct (String.eqb (drop_first tok) "up");
    destruct (String.eqb (drop_first tok) "down");
    destruct (String.eqb (drop_first tok) "forward");
    destruct (Nat.eqb (distinct_count coords) 1);
    repeat (match goal with
            | |- context [py_get ?l ?i] => destruct (py_get l i); cbn [bind]
            | |- context [py_int ?s] => destruct (py_int s); cbn [bind]
            end);
    cbn [bind]; eauto.
Qed.

Lemma plan_lines_agree {A : Type} (actions : list A) (lines : list string) :
  forall seq,
    match for_each (generatePlan_line actions) lines seq with
    | Ok seq' => simulate_lines actions lines seq = Finished seq'
    | Err e => exists steps, simulate_lines actions lines seq = Raised e steps
    end.
Proof.
  induction lines as [|line rest IH]; intros seq; cbn [for_each simulate_lines].
  - reflexivity.
  - pose proof (plan_line_agrees actions line seq) as H.
    destruct (generatePlan_line actions line seq) as [seq'|e]; cbn [bind].
    + rewrite H. cbn [and_then]. apply IH.
    + destruct H as [steps ->]. cbn [and_then]. eauto.
Qed.

(** C10.  For every plan file, [generatePlan] returns a list of actions exactly
    when [simulateSolution] runs to the end, and then the returned list is the
    sequence of actions passed to [env.step], in order; when one raises, so does
    the other, with the same exception. *)
Theorem consumers_agree {A : Type} (actions : list A) (plan_file : string) :
  (forall acts, generatePlan actions plan_file = Ok acts
                <-> simulateSolution actions plan_file = Finished acts)
  /\ (forall e, generatePlan actions plan_file = Err e
                <-> exists steps, simulateSolution actions plan_file = Raised e steps).
Proof.
  unfold generatePlan, simulateSolution, env_render.
  pose proof (plan_lines_agree actions (readlines plan_file) []) as H.
  destruct (for_each (generatePlan_line actions) (readlines plan_file) [])
    as [seq'|e'].
  - rewrite H. split.
    + intros acts. split; congruence.
    + intros e. split; [discriminate | intros [steps E]; discriminate].
  - destruct H as [steps ->]. split.
    + intros acts. split; discriminate.
    + intros e. split; [intros [= <-]; eauto | intros [steps' E]; congruence].
Qed.

(** Both consumers on a four-line plan with a comment. *)
Example consumers_on_plan :
  let plan := (plan_line (PUp 3 1 2 1 0 1) ++ plan_line (PUp 2 1 1 0 1 2)
               ++ "; cost = 4 (unit cost)" ++ String newline EmptyString
               ++ plan_line (PDown 1 0 0 1 2 3)
               ++ plan_line (PForward 3 1 1 1 3 4 (-2)))%string in
  generatePlan grid_driving_actions plan
  = Ok ["forward[-1]"; "up"; "down"; "forward[-2]"]%string
  /\ simulateSolution grid_driving_actions plan
     = Finished ["forward[-1]"; "up"; "down"; "forward[-2]"]%string.
Proof. split; reflexivity. Qed.

(* ===================================================================== *)
(** * Further properties: cells and projections *)
(* ===================================================================== *)

Lemma nth_error_flat_map_blocks {X Y : Type} (f : X -> list Y) (n : nat)
      (xs : list X) (i j : nat) (x : X) :
  (forall x, List.length (f x) = n) ->
  nth_error xs i = Some x -> (j < n)%nat ->
  nth_error (flat_map f xs) (i * n + j) = nth_error (f x) j.
Proof.
  intros Hlen. revert i. induction xs as [|x' xs IH]; intros [|i] Hi Hj;
    cbn [nth_error flat_map] in *; try discriminate.
  - injection Hi as ->. cbn. apply nth_error_app1. now rewrite Hlen.
  - rewrite nth_error_app2 by (rewrite Hlen; cbn; lia).
    rewrite Hlen. replace (S i * n + j - n)%nat with (i * n + j)%nat by (cbn; lia).
    now apply IH.
Qed.

Lemma length_flat_map_blocks {X Y : Type} (f : X -> list Y) (n : nat) (xs : list X) :
  (forall x, List.length (f x) = n) ->
  List.length (flat_map f xs) = (List.length xs * n)%nat.
Proof.
  intros Hlen. induction xs as [|x xs IH]; cbn [flat_map List.length]; [reflexivity|].
  rewrite length_app, Hlen, IH. cbn. lia.
Qed.

(** X1.  [generateGridCells] lists every cell of the width x lanes grid exactly
    once, column by column: the list has width * lanes names without
    repetition, a name is on it exactly when it is [pt x y] for a column [x] and
    a lane [y] of the grid, and [pt x y] stands at index [x * lanes + y]. *)
Theorem grid_cells_enumeration (w l : Z) :
  NoDup (generateGridCells w l)
  /\ List.length (generateGridCells w l) = (Z.to_nat w * Z.to_nat l)%nat
  /\ (forall c, In c (generateGridCells w l)
                <-> exists x y, 0 <= x < w /\ 0 <= y < l /\ c = pt x y)
  /\ (forall x y, 0 <= x < w -> 0 <= y < l ->
                  nth_error (generateGridCells w l) (Z.to_nat (x * l + y))
                  = Some (pt x y)).
Proof.
  split; [apply NoDup_grid_cells|]. split; [|split; [apply in_grid_cells|]].
  - unfold generateGridCells.
    rewrite (length_flat_map_blocks _ (Z.to_nat l)).
    + rewrite length_range. f_equal. lia.
    + intros x. rewrite length_map, length_range. f_equal. lia.
  - intros x y Hx Hy. unfold generateGridCells.
    rewrite Z2Nat.inj_add, Z2Nat.inj_mul by (try apply Z.mul_nonneg_nonneg; lia).
    rewrite (nth_error_flat_map_blocks _ (Z.to_nat l) _ _ _ x).
    + rewrite nth_error_map, nth_error_range by lia. cbn [option_map].
      rewrite Z2Nat.id by lia. reflexivity.
    + intros x'. rewrite length_map, length_range. f_equal. lia.
    + rewrite nth_error_range by lia. f_equal. lia.
    + lia.
Qed.

(** X2.  The name of a cell and its parse are inverse: splitting [pt x y] at
    the separator and reading the two numbers (lines 241-242) gives back
    [(x, y)], for every pair of integers; so two cells have the same name only
    when they are the same cell. *)
Theorem cell_name_round_trip (x y : Z) :
  parse_cell (pt x y) = Ok (x, y)
  /\ forall x' y', pt x y = pt x' y' -> x = x' /\ y = y'.
Proof.
  split; [apply parse_cell_pt | intros x' y'; apply pt_inj].
Qed.

Lemma project_x_period (w x0 s t : Z) :
  0 <= x0 < w -> 0 <= s -> 0 <= t ->
  project_x w x0 s (t + w) = project_x w x0 s t.
Proof.
  intros Hx Hs Ht. rewrite !project_x_mod by lia.
  replace (x0 - s * (t + w)) with (x0 - s * t + (- s) * w) by lia.
  apply Z_mod_plus_full.
Qed.

(** X13.  The projected position of an obstacle on the grid repeats every
    [width] instants, whatever its speed; an obstacle of speed 0 is projected
    onto its own cell at every instant. *)
Theorem projection_periodic (w : Z) (c : Car) (t : Z) :
  0 <= px (car_position c) < w -> 0 <= t ->
  project w c (t + w) = project w c t
  /\ (car_speed c = 0 -> project w c t = car_position c).
Proof.
  intros Hx Ht. unfold project. split.
  - f_equal. apply project_x_period; auto using car_speed_nonneg.
  - intros ->. unfold project_x. rewrite Z.mul_0_l, Z.sub_0_r.
    destruct (Z.leb_spec 0 (px (car_position c))); [|lia].
    now destruct (car_position c).
Qed.

Lemma projection_periodic_witness :
  0 <= px (car_position (car_at 1 1 0 (-3))) < 5
  /\ 0 <= 2
  /\ project 5 (car_at 1 1 0 (-3)) (2 + 5) = project 5 (car_at 1 1 0 (-3)) 2
  /\ (car_speed (car_at 1 1 0 (-3)) = 0 ->
      project 5 (car_at 1 1 0 (-3)) 2 = car_position (car_at 1 1 0 (-3))).
Proof.
  split; [cbn; lia|]. split; [lia|].
  apply (projection_periodic 5 (car_at 1 1 0 (-3)) 2); cbn; lia.
Defined.

(* ===================================================================== *)
(** * Further properties: when generateInitString raises *)
(* ===================================================================== *)

Lemma list_remove_absent (name : string) (row : list string) :
  ~ In name row -> list_remove name row = Err ValueError.
Proof.
  induction row as [|c row IH]; intros H; cbn [list_remove]; [reflexivity|].
  destruct (String.eqb_spec c name) as [->|Hne]; [exfalso; apply H; now left|].
  rewrite IH; [reflexivity|]. intros Hin. apply H. now right.
Qed.

Lemma initial_loop_outcome (cs : list Car) :
  forall st row,
    nth_error (free_cells st) 0 = Some row ->
    if removable cs row
    then exists st', for_each block_initial cs st = Ok st'
    else for_each block_initial cs st = Err ValueError.
Proof.
  induction cs as [|c cs IH]; intros st row Hrow; cbn [removable for_each].
  - eauto.
  - assert (Ho : negb (px (car_position c) =? 0) || negb (py (car_position c) =? 0)
                 = negb (is_origin (car_position c))).
    { unfold is_origin. now destruct (_ =? _), (_ =? _). }
    destruct (is_origin (car_position c)); cbn [negb] in Ho.
    + assert (E : block_initial c st = Ok st)
        by (unfold block_initial; now rewrite Ho).
      rewrite E. cbn [bind]. now apply IH.
    + destruct (mem _ row) eqn:M; cbn [andb].
      * apply mem_In in M.
        assert (E : block_initial c st
                    = Ok {| initString := initString st
                              ++ [At (pt (px (car_position c)) (py (car_position c))) 0
                                     (car_name c);
                                  Blocked (pt (px (car_position c)) (py (car_position c))) 0];
                            free_cells := list_set (free_cells st) (Z.to_nat 0)
                              (remove_first (pt (px (car_position c)) (py (car_position c)))
                                            row) |}).
        { unfold block_initial. rewrite Ho.
          now rewrite (remove_free_row 0 _ (emit _ st) row) by (auto; lia). }
        rewrite E. cbn [bind]. apply IH. cbn [free_cells].
        apply nth_error_list_set_eq. eapply nth_error_lt; eassumption.
      * apply mem_false in M.
        assert (E : block_initial c st = Err ValueError).
        { unfold block_initial, remove_free. rewrite Ho. cbn [emit free_cells].
          rewrite py_index_nonneg by (apply nth_error_lt in Hrow; lia). cbn [bind].
          rewrite (py_get_nonneg _ 0 row) by (auto; lia). cbn [bind].
          now rewrite (list_remove_absent _ _ M). }
        rewrite E. reflexivity.
Qed.

Lemma removable_spec (cs : list Car) :
  forall row,
    NoDup row ->
    (removable cs row = true
     <-> (forall c, In c cs -> is_origin (car_position c) = false ->
                    In (pt (px (car_position c)) (py (car_position c))) row)
         /\ distinct_points (filter (fun p => negb (is_origin p))
                                    (map car_position cs)) = true).
Proof.
  induction cs as [|c cs IH]; intros row Hnd; cbn [removable map filter].
  - split; [intros _; split; [intros c [] | reflexivity] | reflexivity].
  - destruct (is_origin (car_position c)) eqn:Ho; cbn [negb].
    + rewrite (IH row Hnd). split; intros [H1 H2]; (split; [|assumption]).
      * intros c' [<-|Hc'] Ho'; [congruence | auto].
      * intros c' Hc' Ho'. apply H1; [now right | assumption].
    + cbn [distinct_points]. rewrite !andb_true_iff, mem_In, negb_true_iff.
      split.
      * intros [Hin Hr].
        destruct (list_remove_spec _ _ _ Hnd (remove_first_In _ _ Hin)) as [Hnd' Hmem].
        apply (IH _ Hnd') in Hr. destruct Hr as [H1 H2].
        split; [|split; [|assumption]].
        -- intros c' [<-|Hc'] Ho'; [assumption|]. now apply Hmem, H1.
        -- destruct (existsb _ _) eqn:E; [|reflexivity]. exfalso.
           apply existsb_exists in E. destruct E as [p [Hp E]].
           apply filter_In in Hp. destruct Hp as [Hp Hpo].
           apply in_map_iff in Hp. destruct Hp as [c' [<- Hc']].
           apply negb_true_iff in Hpo. apply point_eqb_spec in E.
           destruct E as [E1 E2]. specialize (H1 c' Hc' Hpo).
           apply Hmem in H1. destruct H1 as [_ H1]. apply H1.
           now rewrite E1, E2.
      * intros [H1 [Hfresh H2]].
        assert (Hin : In (pt (px (car_position c)) (py (car_position c))) row)
          by (apply H1; [now left | assumption]).
        split; [assumption|].
        destruct (list_remove_spec _ _ _ Hnd (remove_first_In _ _ Hin)) as [Hnd' Hmem].
        apply (IH _ Hnd'). split; [|assumption].
        intros c' Hc' Ho'. apply Hmem. split; [apply H1; [now right | assumption]|].
        intros E. apply pt_inj in E.
        assert (X : existsb (point_eqb (car_position c))
                      (filter (fun p => negb (is_origin p)) (map car_position cs)) = true).
        { apply existsb_exists. exists (car_position c'). split.
          - apply filter_In. split; [now apply in_map | now rewrite Ho'].
          - apply point_eqb_spec. intuition. }
        congruence.
Qed.

Lemma pt_in_grid (g : Gen) (p : Point) :
  In (pt (px p) (py p)) (grid_cell_list g) <-> in_grid g p = true.
Proof.
  rewrite in_grid_spec. unfold grid_cell_list. rewrite in_grid_cells. split.
  - intros [x [y [Hx [Hy E]]]]. apply pt_inj in E. destruct E as [-> ->]. tauto.
  - intros [Hx Hy]. exists (px p), (py p). tauto.
Qed.

Lemma removable_grid (g : Gen) :
  removable (cars (state g)) (grid_cell_list g) = cars_removable g.
Proof.
  apply Bool.eq_iff_eq_true.
  rewrite (removable_spec (cars (state g)) (grid_cell_list g) (NoDup_grid_cells _ _)).
  unfold cars_removable. rewrite andb_true_iff, forallb_forall.
  split; intros [H1 H2]; (split; [|assumption]).
  - intros c Hc. destruct (is_origin (car_position c)) eqn:Ho; [reflexivity|].
    cbn [orb]. apply pt_in_grid. now apply H1.
  - intros c Hc Ho. apply pt_in_grid. specialize (H1 c Hc).
    rewrite Ho in H1. exact H1.
Qed.

Lemma max_time_nonzero (g : Gen) :
  min_speed g <> 0 -> max_time g = Ok (width g / min_speed g + 1).
Proof.
  intros H. unfold max_time, py_floordiv. fold (min_speed g).
  destruct (Z.eqb_spec (min_speed g) 0); [contradiction | reflexivity].
Qed.

(** X3.  When the largest element of the agent's speed range is 0 (an agent
    that may stand still), line 199 divides by zero: [generateInitString]
    raises [ZeroDivisionError] and emits nothing. *)
Theorem zero_speed_divides_by_zero (g : Gen) :
  Z.max (fst (agent_speed_range (agent (state g))))
        (snd (agent_speed_range (agent (state g)))) = 0 ->
  generateInitString g = Err ZeroDivisionError.
Proof.
  intros H. unfold generateInitString, generateInitString_state, max_time.
  rewrite H. reflexivity.
Qed.

Lemma zero_speed_divides_by_zero_witness :
  Z.max (fst (agent_speed_range (agent (state idle_agent_snapshot))))
        (snd (agent_speed_range (agent (state idle_agent_snapshot)))) = 0
  /\ generateInitString idle_agent_snapshot = Err ZeroDivisionError.
Proof.
  split; [reflexivity|].
  apply (zero_speed_divides_by_zero idle_agent_snapshot). reflexivity.
Defined.

(** X4.  When the least speed magnitude of the agent exceeds the width, the
    horizon is 1, the loop of line 207 never runs, and line 238 reads its
    variable [t] unbound: on cars that lines 201-205 accept,
    [generateInitString] raises [UnboundLocalError]. *)
Theorem short_horizon_unbound (g : Gen) :
  0 <= width g < min_speed g ->
  cars_removable g = true ->
  max_time g = Ok 1
  /\ generateInitString g = Err UnboundLocalError.
Proof.
  intros Hw Hc.
  assert (Hm : max_time g = Ok 1).
  { rewrite max_time_nonzero by lia. rewrite Z.div_small by lia. reflexivity. }
  split; [exact Hm|].
  unfold generateInitString, generateInitString_state. rewrite Hm. cbn [bind].
  pose proof (initial_loop_outcome (cars (state g))
                {| initString := [];
                   free_cells := map (fun _ : Z => grid_cell_list g) (range 0 1) |}
                (grid_cell_list g) eq_refl) as H.
  rewrite removable_grid, Hc in H. destruct H as [st' ->]. reflexivity.
Qed.

Lemma short_horizon_unbound_witness :
  0 <= width narrow_snapshot < min_speed narrow_snapshot
  /\ cars_removable narrow_snapshot = true
  /\ max_time narrow_snapshot = Ok 1
  /\ generateInitString narrow_snapshot = Err UnboundLocalError.
Proof.
  assert (H1 : 0 <= width narrow_snapshot < min_speed narrow_snapshot)
    by (cbn; lia).
  split; [exact H1|]. split; [reflexivity|].
  exact (short_horizon_unbound narrow_snapshot H1 eq_refl).
Defined.

(** X5.  When a car away from the origin is off the grid, or two cars away from
    the origin share a cell, the [remove] of line 205 does not find the cell:
    [generateInitString] raises [ValueError] (for a width >= 0 and a least
    speed magnitude other than 0). *)
Theorem misplaced_car_value_error (g : Gen) :
  0 <= width g -> min_speed g <> 0 ->
  cars_removable g = false ->
  generateInitString g = Err ValueError.
Proof.
  intros Hw Hs Hc.
  unfold generateInitString, generateInitString_state.
  rewrite (max_time_nonzero g Hs). cbn [bind].
  assert (Hpos : 0 <= width g / min_speed g).
  { apply Z.div_pos; [assumption|]. unfold min_speed in *. lia. }
  pose proof (initial_loop_outcome (cars (state g))
                {| initString := [];
                   free_cells := map (fun _ : Z => grid_cell_list g)
                                     (range 0 (width g / min_speed g + 1)) |}
                (grid_cell_list g)) as H.
  rewrite removable_grid, Hc in H. rewrite H; [reflexivity|].
  cbn [free_cells]. apply nth_error_const_rows. lia.
Qed.

Lemma misplaced_car_value_error_witness :
  0 <= width collision_snapshot
  /\ min_speed collision_snapshot <> 0
  /\ cars_removable collision_snapshot = false
  /\ generateInitString collision_snapshot = Err ValueError.
Proof.
  assert (H1 : 0 <= width collision_snapshot) by (cbn; lia).
  assert (H2 : min_speed collision_snapshot <> 0) by (cbn; lia).
  split; [exact H1|]. split; [exact H2|]. split; [reflexivity|].
  exact (misplaced_car_value_error collision_snapshot H1 H2 eq_refl).
Defined.

(* ===================================================================== *)
(** * Further properties: transition and instant facts *)
(* ===================================================================== *)

Lemma in_all_facts_next (g : Gen) (i j : Z) :
  In (NextInstant i j) (all_facts g) <-> 0 <= i < horizon g /\ j = i + 1.
Proof.
  unfold all_facts. rewrite !in_app_iff, in_sweep_facts. split.
  - intros [H | [[t' [Ht' [H | [c' [E _]]]]] | [[E | []] | [H | H]]]].
    + pose proof (initial_facts_shape g) as S. rewrite Forall_forall in S.
      destruct (S _ H).
    + pose proof (sweep_cars_shape g t') as S. rewrite Forall_forall in S.
      destruct (S _ H).
    + discriminate.
    + discriminate.
    + apply transition_facts_shape in H. destruct H as [? [_ []]].
    + unfold instant_facts in H. apply in_map_iff in H.
      destruct H as [k [E Hk]]. apply in_range in Hk.
      injection E as -> ->. split; [assumption | reflexivity].
  - intros [Hi ->]. do 4 right. unfold instant_facts. apply in_map_iff.
    exists i. split; [reflexivity | now apply in_range].
Qed.

(** X6.  On a valid snapshot the instant-successor facts are exactly
    [(next_instant i i+1)] for the instants [i] of [0, horizon): every instant
    of the horizon has one successor, and the chain ends at [horizon]. *)
Theorem instant_chain (g : Gen) :
  valid_snapshot g = true ->
  exists st,
    generateInitString_state g = Ok st
    /\ max_time g = Ok (horizon g)
    /\ forall i j, In (NextInstant i j) (initString st)
                   <-> 0 <= i < horizon g /\ j = i + 1.
Proof.
  intros Hv. eexists. split; [apply (generateInitString_state_valid g Hv)|].
  split; [apply (max_time_valid g Hv)|].
  intros i j. apply in_all_facts_next.
Qed.

Lemma instant_chain_witness :
  valid_snapshot crossing_snapshot = true
  /\ exists st,
       generateInitString_state crossing_snapshot = Ok st
       /\ max_time crossing_snapshot = Ok (horizon crossing_snapshot)
       /\ forall i j, In (NextInstant i j) (initString st)
                      <-> 0 <= i < horizon crossing_snapshot /\ j = i + 1.
Proof.
  split; [reflexivity|].
  apply (instant_chain crossing_snapshot). reflexivity.
Defined.

(** The transition facts of a cell of the grid. *)
Lemma in_cell_transitions (g : Gen) (t : Z) (row : list string) (x y : Z) (f : fact) :
  0 <= x -> 0 <= y < num_lanes g ->
  (In f (cell_transitions g t row (pt x y) x y)
   <-> f = UpNext (pt x y)
             (pt (Z.max 0 (x - 1))
                 (if mem (pt (Z.max 0 (x - 1)) (Z.max 0 (y - 1))) row
                  then Z.max 0 (y - 1) else y)) t
       \/ f = DownNext (pt x y)
                (pt (Z.max 0 (x - 1))
                    (if mem (pt (Z.max 0 (x - 1)) (Z.min (num_lanes g - 1) (y + 1))) row
                     then Z.min (num_lanes g - 1) (y + 1) else y)) t
       \/ exists s, 1 <= s <= 3
                    /\ f = ForwardNext (pt x y) (pt (Z.max 0 (x - s)) y) t (- s)).
Proof.
  intros Hx Hy. unfold cell_transitions. rewrite range_1_4.
  rewrite clamp_left, clamp_up, clamp_down by lia.
  assert (F : forall s, 1 <= s ->
             (if x =? 0 then x else Z.max 0 (x - s)) = Z.max 0 (x - s)).
  { intros s Hs. destruct (Z.eqb_spec x 0); lia. }
  cbn [In map app]. rewrite !F by lia. split.
  - intros [<-|[<-|[<-|[<-|[<-|[]]]]]]; auto;
      right; right; [exists 1 | exists 2 | exists 3]; (split; [lia | reflexivity]).
  - intros [->|[->|[s [Hs ->]]]]; auto.
    assert (Hs3 : s = 1 \/ s = 2 \/ s = 3) by lia. destruct Hs3 as [ -> | [ -> | -> ] ]; auto 6.
Qed.

Lemma forward_successor_facts (g : Gen) (t x y : Z) (n : string) (v : Z) :
  1 <= t < horizon g -> 0 <= x < width g -> 0 <= y < num_lanes g ->
  (In (ForwardNext (pt x y) n t v) (all_facts g)
   <-> (v = -1 \/ v = -2 \/ v = -3) /\ n = pt (Z.max 0 (x + v)) y).
Proof.
  intros Ht Hx Hy.
  rewrite (in_all_facts_transition g _ t) by reflexivity.
  rewrite in_transition_facts. split.
  - intros [t' [x' [y' [Ht' [Hx' [Hy' H]]]]]].
    apply in_cell_transitions in H; [|lia|lia].
    destruct H as [E|[E|[s [Hs E]]]]; try discriminate.
    assert (E1 : pt x y = pt x' y') by congruence.
    apply pt_inj in E1. destruct E1; subst x' y'.
    assert (Ev : v = - s) by congruence.
    assert (En : n = pt (Z.max 0 (x - s)) y) by congruence.
    subst v n. split; [lia|]. replace (x + - s) with (x - s) by lia. reflexivity.
  - intros [Hv ->]. exists t, x, y. repeat (split; [lia|]).
    apply in_cell_transitions; [lia|lia|]. right; right. exists (- v).
    split; [lia|]. rewrite Z.opp_involutive.
    replace (x - - v) with (x + v) by lia. reflexivity.
Qed.

(** X7.  On a valid snapshot, for every cell [(x, y)] of the grid and every
    instant [t] of [1, horizon), the forward successor facts of the cell are
    exactly three, one per speed -1, -2, -3, and the successor for speed [v] is
    [(max(0, x + v), y)]: the same lane, clamped at the left edge, whether the
    destination is blocked or not. *)
Theorem forward_successors (g : Gen) :
  valid_snapshot g = true ->
  exists st,
    generateInitString_state g = Ok st
    /\ forall t x y n v,
         1 <= t < horizon g -> 0 <= x < width g -> 0 <= y < num_lanes g ->
         (In (ForwardNext (pt x y) n t v) (initString st)
          <-> (v = -1 \/ v = -2 \/ v = -3) /\ n = pt (Z.max 0 (x + v)) y).
Proof.
  intros Hv. eexists. split; [apply (generateInitString_state_valid g Hv)|].
  intros t x y n v Ht Hx Hy. now apply forward_successor_facts.
Qed.

Lemma forward_successors_witness :
  valid_snapshot crossing_snapshot = true
  /\ exists st,
       generateInitString_state crossing_snapshot = Ok st
       /\ forall t x y n v,
            1 <= t < horizon crossing_snapshot ->
            0 <= x < width crossing_snapshot ->
            0 <= y < num_lanes crossing_snapshot ->
            (In (ForwardNext (pt x y) n t v) (initString st)
             <-> (v = -1 \/ v = -2 \/ v = -3) /\ n = pt (Z.max 0 (x + v)) y).
Proof.
  split; [reflexivity|].
  apply (forward_successors crossing_snapshot). reflexivity.
Defined.

(** The forward move of speed -1 from (3,1) at instant 1 leads onto the car
    of [crossing_snapshot]: the fact is emitted all the same. *)
Example forward_into_blocked_cell :
  exists st,
    generateInitString_state crossing_snapshot = Ok st
    /\ In (Blocked "pt2pt1" 1) (initString st)
    /\ In (ForwardNext "pt3pt1" "pt2pt1" 1 (-1)) (initString st).
Proof.
  eexists. split; [apply generateInitString_state_valid; reflexivity|].
  split; [apply names_blocked_true; vm_compute; reflexivity|].
  apply (forward_successor_facts crossing_snapshot 1 3 1);
    [vm_compute; split; congruence | cbn; lia | cbn; lia |].
  split; [auto | reflexivity].
Qed.

Lemma transition_in_grid (g : Gen) (f : fact) :
  In f (transition_facts g) ->
  exists t c n,
    1 <= t < horizon g /\ In c (grid_cell_list g) /\ In n (grid_cell_list g)
    /\ (f = UpNext c n t \/ f = DownNext c n t
        \/ exists v, -3 <= v <= -1 /\ f = ForwardNext c n t v).
Proof.
  intros H. apply in_transition_facts in H.
  destruct H as [t [x [y [Ht [Hx [Hy H]]]]]].
  apply in_cell_transitions in H; [|lia|lia].
  assert (Hc : In (pt x y) (grid_cell_list g))
    by (apply in_grid_cells; exists x, y; auto).
  assert (Hn : forall x' y', 0 <= x' < width g -> 0 <= y' < num_lanes g ->
                             In (pt x' y') (grid_cell_list g))
    by (intros x' y' ? ?; apply in_grid_cells; exists x', y'; auto).
  exists t, (pt x y).
  destruct H as [->|[->|[s [Hs ->]]]].
  - eexists. split; [exact Ht|]. split; [exact Hc|]. split; [|left; reflexivity].
    apply Hn; [lia|]. destruct (mem _ _); lia.
  - eexists. split; [exact Ht|]. split; [exact Hc|].
    split; [|right; left; reflexivity].
    apply Hn; [lia|]. destruct (mem _ _); lia.
  - eexists. split; [exact Ht|]. split; [exact Hc|]. split.
    2:{ right; right. exists (- s). split; [lia | reflexivity]. }
    apply Hn; lia.
Qed.

(** X8.  On a valid snapshot every transition fact (up, down or forward)
    relates two cells of the grid at an instant of [1, horizon), with a speed
    among -1, -2, -3 for a forward fact: no move leads off the grid. *)
Theorem transitions_stay_on_grid (g : Gen) :
  valid_snapshot g = true ->
  exists st,
    generateInitString_state g = Ok st
    /\ forall c n t,
         (In (UpNext c n t) (initString st) \/ In (DownNext c n t) (initString st)
          \/ exists v, In (ForwardNext c n t v) (initString st)) ->
         1 <= t < horizon g
         /\ In c (grid_cell_list g) /\ In n (grid_cell_list g).
Proof.
  intros Hv. eexists. split; [apply (generateInitString_state_valid g Hv)|].
  cbn [initString]. intros c n t H.
  assert (G : forall f, transition_fact t f -> In f (all_facts g) ->
              (f = UpNext c n t \/ f = DownNext c n t
               \/ exists v, f = ForwardNext c n t v) ->
              1 <= t < horizon g /\ In c (grid_cell_list g) /\ In n (grid_cell_list g)).
  { intros f Hf Hin Hshape.
    apply (in_all_facts_transition g f t Hf) in Hin.
    apply transition_in_grid in Hin.
    destruct Hin as [t' [c' [n' [Ht' [Hc' [Hn' E]]]]]].
    assert (c' = c /\ n' = n /\ t' = t) as [-> [-> ->]].
    { destruct Hshape as [->|[->|[v ->]]];
        destruct E as [E|[E|[v' [_ E]]]]; try discriminate;
        injection E; intros; subst; auto. }
    auto. }
  destruct H as [H|[H|[v H]]].
  - apply (G (UpNext c n t) eq_refl H). auto.
  - apply (G (DownNext c n t) eq_refl H). auto.
  - apply (G (ForwardNext c n t v) eq_refl H). eauto.
Qed.

Lemma transitions_stay_on_grid_witness :
  valid_snapshot crossing_snapshot = true
  /\ exists st,
       generateInitString_state crossing_snapshot = Ok st
       /\ forall c n t,
            (In (UpNext c n t) (initString st) \/ In (DownNext c n t) (initString st)
             \/ exists v, In (ForwardNext c n t v) (initString st)) ->
            1 <= t < horizon crossing_snapshot
            /\ In c (grid_cell_list crossing_snapshot)
            /\ In n (grid_cell_list crossing_snapshot).
Proof.
  split; [reflexivity|].
  apply (transitions_stay_on_grid crossing_snapshot). reflexivity.
Defined.

(* ===================================================================== *)
(** * Further properties: occupancy and blocked facts *)
(* ===================================================================== *)

Lemma in_then_row (f1 f2 : row_step) (row : list string) (f : fact) :
  In f (fst (then_row f1 f2 row))
  <-> In f (fst (f1 row)) \/ In f (fst (f2 (snd (f1 row)))).
Proof. unfold then_row. cbn [fst]. apply in_app_iff. Qed.

Lemma each_row_provenance {X : Type} (F : X -> row_step) (xs : list X) :
  forall row f,
    In f (fst (each_row F xs row)) ->
    exists x row', In x xs /\ In f (fst (F x row')).
Proof.
  induction xs as [|x xs IH]; intros row f H; cbn [each_row] in H; [destruct H|].
  apply in_then_row in H. destruct H as [H|H].
  - exists x, row. split; [now left | assumption].
  - destruct (IH _ _ H) as [x' [row' [Hx' H']]]. exists x', row'.
    split; [now right | assumption].
Qed.

Lemma block_row_facts (name : string) (fs : list fact) (row : list string) (f : fact) :
  In f (fst (block_row name fs row)) -> In f fs.
Proof. unfold block_row. destruct (mem name row); cbn; tauto. Qed.

Lemma sweep_car_facts (w t : Z) (c : Car) (row : list string) (f : fact) :
  In f (fst (sweep_car_row w t c row)) ->
  f = At (pt (px (project w c t)) (py (car_position c))) t (car_name c)
  \/ exists x, f = Blocked (pt x (py (car_position c))) t.
Proof.
  unfold sweep_car_row. intros H. apply in_then_row in H. destruct H as [H|H].
  - apply block_row_facts in H. cbn [project py] in H.
    destruct H as [<-|[<-|[]]]; [now left | right; eauto].
  - right. cbn [project py] in H.
    destruct (_ && _); [|destruct (_ <? _)]; try (destruct H; fail);
      apply each_row_provenance in H; destruct H as [x [row' [_ H]]];
      apply block_row_facts in H; destruct H as [<-|[]]; eauto.
Qed.

Lemma sweep_cars_facts (g : Gen) (t : Z) (row : list string) (f : fact) :
  In f (fst (sweep_cars_row g t row)) ->
  exists c, In c (cars (state g))
            /\ (f = At (pt (px (project (width g) c t)) (py (car_position c))) t
                       (car_name c)
                \/ exists x, f = Blocked (pt x (py (car_position c))) t).
Proof.
  unfold sweep_cars_row. intros H. apply each_row_provenance in H.
  destruct H as [c [row' [Hc H]]]. exists c. split; [assumption|].
  now apply sweep_car_facts in H.
Qed.

Lemma blocking_sweep_rest (t : Z) (y : Z) (b1 b2 : bool) (r1 r2 : list Z) :
  blocking_step t
    (if b1
     then each_row (fun x_co => block_row (pt x_co y) [Blocked (pt x_co y) t]) r1
     else if b2
          then each_row (fun x_co => block_row (pt x_co y) [Blocked (pt x_co y) t]) r2
          else skip_row).
Proof.
  destruct b1; [|destruct b2]; try (apply blocking_each; intros; apply blocking_cell).
  apply blocking_skip.
Qed.

(** The cell a car reaches at an instant of the horizon is blocked then. *)
Lemma arrival_blocked (g : Gen) (c : Car) (t : Z) :
  valid_snapshot g = true -> In c (cars (state g)) -> 1 <= t < horizon g ->
  In (Blocked (pt (px (project (width g) c t)) (py (car_position c))) t) (all_facts g).
Proof.
  intros Hv Hc Ht. destruct (valid_snapshot_spec g Hv) as [Hcars _].
  specialize (Hcars c Hc). apply in_grid_spec in Hcars.
  apply blocked_fact_iff; [lia|]. unfold blocked_source.
  destruct (Z.eqb_spec t 0); [lia|].
  apply covered_blocked.
  - apply blocking_sweep_cars.
  - unfold sweep_cars_row. apply (covers_each t) with (x := c); auto.
    + intros; apply blocking_sweep_car.
    + unfold sweep_car_row. apply (covers_then_l t).
      * apply blocking_car_cell.
      * apply blocking_sweep_rest.
      * cbn [project py]. apply covers_block_row.
  - apply NoDup_grid_cells.
  - apply in_grid_cells.
    exists (px (project (width g) c t)), (py (car_position c)).
    split; [|split; [lia | reflexivity]].
    cbn [project px]. apply project_x_range; auto using car_speed_nonneg; lia.
Qed.

(** The cell of a car away from the origin is blocked at instant 0. *)
Lemma initial_blocked (g : Gen) (c : Car) :
  valid_snapshot g = true -> In c (cars (state g)) ->
  is_origin (car_position c) = false ->
  In (Blocked (pt (px (car_position c)) (py (car_position c))) 0) (all_facts g).
Proof.
  intros Hv Hc Ho. pose proof (horizon_ge_2 g Hv).
  destruct (valid_snapshot_spec g Hv) as [Hcars _].
  apply blocked_fact_iff; [lia|]. unfold blocked_source, initial_facts.
  change (0 =? 0) with true. cbv iota.
  apply covered_blocked.
  - apply blocking_initial_cars.
  - apply (covers_each 0) with (x := c); auto.
    + intros; apply blocking_initial.
    + now apply covers_initial.
  - apply NoDup_grid_cells.
  - apply pt_in_grid. now apply Hcars.
Qed.

Lemma project_at_0 (w : Z) (c : Car) :
  0 <= px (car_position c) -> project w c 0 = car_position c.
Proof.
  intros H. unfold project, project_x. rewrite Z.mul_0_r, Z.sub_0_r.
  destruct (Z.leb_spec 0 (px (car_position c))); [|lia].
  now destruct (car_position c).
Qed.

Lemma car_is_not_agent (c : Car) : car_name c <> agent_name.
Proof. unfold car_name, agent_name. cbn [append]. discriminate. Qed.

(** X9.  On a valid snapshot the occupancy facts are of two kinds.  One names
    the agent: its own cell at instant 0.  Every other one names a car, at an
    instant of [0, horizon), on the cell the car is projected to at that
    instant, and that cell carries a blocked fact at the same instant.  No car
    is named like the agent. *)
Theorem occupancy_facts (g : Gen) :
  valid_snapshot g = true ->
  exists st,
    generateInitString_state g = Ok st
    /\ In (At (pt (px (agent_position (agent (state g))))
                  (py (agent_position (agent (state g))))) 0 agent_name)
          (initString st)
    /\ (forall c, car_name c <> agent_name)
    /\ forall cell t who,
         In (At cell t who) (initString st) ->
         (who = agent_name /\ t = 0
          /\ cell = pt (px (agent_position (agent (state g))))
                       (py (agent_position (agent (state g)))))
         \/ exists c, In c (cars (state g)) /\ who = car_name c
                      /\ 0 <= t < horizon g
                      /\ cell = pt (px (project (width g) c t))
                                   (py (project (width g) c t))
                      /\ In (Blocked cell t) (initString st).
Proof.
  intros Hv. pose proof (horizon_ge_2 g Hv) as Hh.
  destruct (valid_snapshot_spec g Hv) as [Hcars _].
  eexists. split; [apply (generateInitString_state_valid g Hv)|].
  cbn [initString]. split; [|split; [apply car_is_not_agent|]].
  { unfold all_facts. rewrite !in_app_iff. right; right; left. now left. }
  intros cell t who H.
  unfold all_facts in H. rewrite !in_app_iff, in_sweep_facts in H.
  destruct H as [H | [[t' [Ht' [H | [c' [E _]]]]] | [[E | []] | [H | H]]]].
  - right. apply initial_provenance in H.
    destruct H as [c [Hc [Ho [E|E]]]]; [|discriminate].
    injection E as -> -> ->. exists c.
    specialize (Hcars c Hc) as Hg. apply in_grid_spec in Hg.
    rewrite project_at_0 by lia.
    repeat (split; [assumption || reflexivity || lia|]).
    now apply initial_blocked.
  - right. apply sweep_cars_facts in H.
    destruct H as [c [Hc [E|[x E]]]]; [|discriminate].
    injection E as -> -> ->. exists c. cbn [project py].
    repeat (split; [assumption || reflexivity || lia|]).
    now apply arrival_blocked.
  - discriminate.
  - left. unfold agent_fact in E. injection E as <- <- <-. auto.
  - apply transition_facts_shape in H. destruct H as [? [_ []]].
  - unfold instant_facts in H. apply in_map_iff in H.
    destruct H as [? [? _]]. discriminate.
Qed.

Lemma occupancy_facts_witness :
  valid_snapshot crossing_snapshot = true
  /\ exists st,
       generateInitString_state crossing_snapshot = Ok st
       /\ In (At (pt (px (agent_position (agent (state crossing_snapshot))))
                     (py (agent_position (agent (state crossing_snapshot))))) 0
                 agent_name)
             (initString st)
       /\ (forall c, car_name c <> agent_name)
       /\ forall cell t who,
            In (At cell t who) (initString st) ->
            (who = agent_name /\ t = 0
             /\ cell = pt (px (agent_position (agent (state crossing_snapshot))))
                          (py (agent_position (agent (state crossing_snapshot)))))
            \/ exists c, In c (cars (state crossing_snapshot)) /\ who = car_name c
                         /\ 0 <= t < horizon crossing_snapshot
                         /\ cell = pt (px (project (width crossing_snapshot) c t))
                                      (py (project (width crossing_snapshot) c t))
                         /\ In (Blocked cell t) (initString st).
Proof.
  split; [reflexivity|].
  apply (occupancy_facts crossing_snapshot). reflexivity.
Defined.

(** X10.  On a valid snapshot, for every obstacle (whatever its speed) and
    every instant [t] of [1, horizon), the cell the obstacle is projected to at
    [t] carries a blocked fact at [t], even when another obstacle claimed the
    cell first.  An obstacle of speed 0 thus blocks its own cell at every
    instant from 1 on, the origin cell included. *)
Theorem arrival_cell_blocked (g : Gen) (c : Car) (t : Z) :
  valid_snapshot g = true ->
  In c (cars (state g)) ->
  1 <= t < horizon g ->
  exists st,
    generateInitString_state g = Ok st
    /\ In (Blocked (pt (px (project (width g) c t)) (py (project (width g) c t))) t)
          (initString st)
    /\ (car_speed c = 0 ->
        In (Blocked (pt (px (car_position c)) (py (car_position c))) t)
           (initString st)).
Proof.
  intros Hv Hc Ht. eexists. split; [apply (generateInitString_state_valid g Hv)|].
  cbn [initString]. pose proof (arrival_blocked g c t Hv Hc Ht) as H.
  split; [exact H|]. intros Hs.
  destruct (valid_snapshot_spec g Hv) as [Hcars _].
  specialize (Hcars c Hc). apply in_grid_spec in Hcars.
  replace (px (car_position c)) with (px (project (width g) c t)) at 1; [exact H|].
  cbn [project px]. unfold project_x. rewrite Hs, Z.mul_0_l, Z.sub_0_r.
  destruct (Z.leb_spec 0 (px (car_position c))); [reflexivity | lia].
Qed.

Lemma arrival_cell_blocked_witness :
  valid_snapshot meeting_snapshot = true
  /\ In (car_at 2 3 1 (-2)) (cars (state meeting_snapshot))
  /\ 1 <= 1 < horizon meeting_snapshot
  /\ exists st,
       generateInitString_state meeting_snapshot = Ok st
       /\ In (Blocked (pt (px (project (width meeting_snapshot) (car_at 2 3 1 (-2)) 1))
                          (py (project (width meeting_snapshot) (car_at 2 3 1 (-2)) 1))) 1)
             (initString st)
       /\ (car_speed (car_at 2 3 1 (-2)) = 0 ->
           In (Blocked (pt (px (car_position (car_at 2 3 1 (-2))))
                           (py (car_position (car_at 2 3 1 (-2))))) 1)
              (initString st)).
Proof.
  assert (H1 : valid_snapshot meeting_snapshot = true) by reflexivity.
  assert (H2 : In (car_at 2 3 1 (-2)) (cars (state meeting_snapshot)))
    by (right; now left).
  assert (H3 : 1 <= 1 < horizon meeting_snapshot) by (vm_compute; split; congruence).
  repeat (split; [assumption|]).
  exact (arrival_cell_blocked meeting_snapshot (car_at 2 3 1 (-2)) 1 H1 H2 H3).
Defined.

(** The two cars of [meeting_snapshot] are both on (1,1) at instant 1: the
    cell is blocked once, and only the first car has an occupancy fact. *)
Example meeting_cars_first_writer :
  exists st,
    generateInitString_state meeting_snapshot = Ok st
    /\ project 5 (car_at 1 2 1 (-1)) 1 = project 5 (car_at 2 3 1 (-2)) 1
    /\ In (At "pt1pt1" 1 "car1") (initString st)
    /\ ~ In (At "pt1pt1" 1 "car2") (initString st)
    /\ blocked_facts (filter (fun f => match f with
                                       | Blocked _ t | At _ t _ => t =? 1
                                       | _ => false
                                       end) (initString st))
       = [Blocked "pt1pt1" 1; Blocked "pt2pt1" 1].
Proof.
  eexists. split; [apply generateInitString_state_valid; reflexivity|].
  split; [reflexivity|]. split; [|split].
  - cbn [initString]. unfold all_facts. rewrite !in_app_iff. right; left.
    vm_compute. auto.
  - intros H.
    assert (E : existsb (fun f => match f with
                                  | At c t w => String.eqb c "pt1pt1" && (t =? 1)
                                                && String.eqb w "car2"
                                  | _ => false end)
                        (all_facts meeting_snapshot) = true).
    { apply existsb_exists. eexists. split; [exact H | reflexivity]. }
    vm_compute in E. discriminate.
  - vm_compute. reflexivity.
Qed.

(* ===================================================================== *)
(** * Further properties: the blocked facts as a whole *)
(* ===================================================================== *)

Lemma in_blocked_facts (fs : list fact) (f : fact) :
  In f (blocked_facts fs) <-> exists c t, f = Blocked c t /\ In (Blocked c t) fs.
Proof.
  unfold blocked_facts. rewrite filter_In. split.
  - intros [Hin Hb]. destruct f; try discriminate. eauto.
  - intros [c [t [-> Hin]]]. split; [assumption | reflexivity].
Qed.

Lemma blocked_facts_app (l1 l2 : list fact) :
  blocked_facts (l1 ++ l2) = blocked_facts l1 ++ blocked_facts l2.
Proof. apply filter_app. Qed.

Lemma NoDup_blocked_app (l1 l2 : list fact) :
  NoDup (blocked_facts l1) -> NoDup (blocked_facts l2) ->
  (forall c t, In (Blocked c t) l1 -> In (Blocked c t) l2 -> False) ->
  NoDup (blocked_facts (l1 ++ l2)).
Proof.
  intros H1 H2 Hd. rewrite blocked_facts_app. apply NoDup_app; auto.
  intros f Hf1 Hf2. apply in_blocked_facts in Hf1, Hf2.
  destruct Hf1 as [c [t [-> Hin1]]]. destruct Hf2 as [c' [t' [E Hin2]]].
  injection E as <- <-. eauto.
Qed.

Lemma NoDup_blocked_none (l : list fact) :
  (forall c t, ~ In (Blocked c t) l) -> NoDup (blocked_facts l).
Proof.
  intros H. replace (blocked_facts l) with (@nil fact); [constructor|].
  symmetry. destruct (blocked_facts l) as [|f r] eqn:E; [reflexivity|].
  assert (Hf : In f (blocked_facts l)) by (rewrite E; now left).
  apply in_blocked_facts in Hf. destruct Hf as [c [t [_ Hin]]].
  now apply H in Hin.
Qed.

Lemma NoDup_blocked_flat_map {X : Type} (F : X -> list fact) (xs : list X) :
  NoDup xs ->
  (forall x, In x xs -> NoDup (blocked_facts (F x))) ->
  (forall x x' c t, In x xs -> In x' xs ->
                    In (Blocked c t) (F x) -> In (Blocked c t) (F x') -> x = x') ->
  NoDup (blocked_facts (flat_map F xs)).
Proof.
  induction xs as [|x xs IH]; intros Hnd H1 H2; cbn [flat_map].
  - constructor.
  - inversion Hnd as [|? ? Hx Hnd']; subst. apply NoDup_blocked_app.
    + apply H1. now left.
    + apply IH; auto.
      * intros; apply H1; now right.
      * intros x1 x2 c t ? ?. apply H2; now right.
    + intros c t Hin1 Hin2. apply in_flat_map in Hin2.
      destruct Hin2 as [x' [Hx' Hin2]].
      assert (x = x') by (apply (H2 x x' c t); auto; [now left | now right]).
      subst. contradiction.
Qed.

Lemma once_skip : once_step skip_row.
Proof. intros row _. constructor. Qed.

Lemma once_block_row (name : string) (fs : list fact) :
  NoDup (blocked_facts fs) -> once_step (block_row name fs).
Proof.
  intros H row _. unfold block_row. destruct (mem name row); [exact H | constructor].
Qed.

Lemma once_then (t : Z) (f1 f2 : row_step) :
  blocking_step t f1 -> blocking_step t f2 ->
  once_step f1 -> once_step f2 -> once_step (then_row f1 f2).
Proof.
  intros B1 B2 O1 O2 row Hnd. unfold then_row. cbn [fst].
  destruct (B1 row Hnd) as (Hnd1 & Hsub1 & _ & _ & Hsh1).
  destruct (B2 _ Hnd1) as (_ & _ & _ & Hin2 & Hsh2).
  apply NoDup_blocked_app; auto.
  intros c t' Hb1 Hb2.
  rewrite Forall_forall in Hsh1, Hsh2.
  pose proof (Hsh1 _ Hb1) as E. cbn in E. subst t'.
  apply Hin2 in Hb2. apply Hsub1 in Hb2. tauto.
Qed.

Lemma once_each {X : Type} (t : Z) (f : X -> row_step) (xs : list X) :
  (forall x, blocking_step t (f x)) -> (forall x, once_step (f x)) ->
  once_step (each_row f xs).
Proof.
  intros B O. induction xs as [|x xs IH]; cbn [each_row].
  - apply once_skip.
  - apply (once_then t); auto. apply blocking_each. auto.
Qed.

Lemma once_cell (t : Z) (name : string) : once_step (block_row name [Blocked name t]).
Proof. apply once_block_row. cbn. repeat constructor. intros []. Qed.

Lemma once_car_cell (t : Z) (name who : string) :
  once_step (block_row name [At name t who; Blocked name t]).
Proof. apply once_block_row. cbn. repeat constructor. intros []. Qed.

Lemma once_sweep_car (w t : Z) (c : Car) : once_step (sweep_car_row w t c).
Proof.
  unfold sweep_car_row. apply (once_then t).
  - apply blocking_car_cell.
  - apply blocking_sweep_rest.
  - apply once_car_cell.
  - destruct (_ && _); [|destruct (_ <? _)];
      try (apply (once_each t); intros; [apply blocking_cell | apply once_cell]).
    apply once_skip.
Qed.

Lemma once_sweep_cars (g : Gen) (t : Z) : once_step (sweep_cars_row g t).
Proof.
  apply (once_each t); intros; [apply blocking_sweep_car | apply once_sweep_car].
Qed.

Lemma once_initial_cars (cs : list Car) : once_step (each_row block_initial_row cs).
Proof.
  apply (once_each 0); intros c; [apply blocking_initial|].
  unfold block_initial_row. destruct (_ || _); [apply once_car_cell | apply once_skip].
Qed.

Lemma NoDup_blocked_all_facts (g : Gen) : NoDup (blocked_facts (all_facts g)).
Proof.
  unfold all_facts.
  assert (Hinit : forall c t, In (Blocked c t) (initial_facts g) -> t = 0).
  { intros c t H. pose proof (initial_facts_shape g) as S.
    rewrite Forall_forall in S. exact (S _ H). }
  assert (Hsweep : forall c t, In (Blocked c t) (sweep_facts g) ->
                     1 <= t < horizon g
                     /\ In (Blocked c t) (fst (sweep_cars_row g t (grid_cell_list g)))).
  { intros c t H. apply in_sweep_facts in H.
    destruct H as [t' [Ht' [H | [c' [E _]]]]]; [|discriminate].
    pose proof (sweep_cars_shape g t') as S. rewrite Forall_forall in S.
    pose proof (S _ H) as E. cbn in E. subst t'. auto. }
  apply NoDup_blocked_app; [| |].
  - apply (once_initial_cars (cars (state g)) (grid_cell_list g)).
    apply NoDup_grid_cells.
  - apply NoDup_blocked_app; [| |].
    + unfold sweep_facts. apply NoDup_blocked_flat_map.
      * apply NoDup_range.
      * intros t _. rewrite sweep_instant_fst. apply NoDup_blocked_app.
        -- apply (once_sweep_cars g t (grid_cell_list g)). apply NoDup_grid_cells.
        -- apply NoDup_blocked_none. intros c t' H. apply in_map_iff in H.
           destruct H as [? [? _]]. discriminate.
        -- intros c t' _ H. apply in_map_iff in H.
           destruct H as [? [? _]]. discriminate.
      * intros t t' c u _ _ H H'. rewrite sweep_instant_fst, in_app_iff in H, H'.
        assert (G : forall t0, In (Blocked c u) (fst (sweep_cars_row g t0 (grid_cell_list g)))
                               \/ In (Blocked c u)
                                     (map (fun cell => NotBlocked cell t0)
                                          (snd (sweep_cars_row g t0 (grid_cell_list g))))
                               -> u = t0).
        { intros t0 [H0|H0].
          - pose proof (sweep_cars_shape g t0) as S. rewrite Forall_forall in S.
            exact (S _ H0).
          - apply in_map_iff in H0. destruct H0 as [? [? _]]. discriminate. }
        rewrite <- (G t H), <- (G t' H'). reflexivity.
    + apply NoDup_blocked_none. intros c t H. rewrite !in_app_iff in H.
      destruct H as [[E|[]] | [H | H]].
      * discriminate.
      * apply transition_facts_shape in H. destruct H as [? [_ []]].
      * unfold instant_facts in H. apply in_map_iff in H.
        destruct H as [? [? _]]. discriminate.
    + intros c t _ H. rewrite !in_app_iff in H.
      destruct H as [[E|[]] | [H | H]].
      * discriminate.
      * apply transition_facts_shape in H. destruct H as [? [_ []]].
      * unfold instant_facts in H. apply in_map_iff in H.
        destruct H as [? [? _]]. discriminate.
  - intros c t H1 H2. rewrite !in_app_iff in H2.
    destruct H2 as [H2 | [[E|[]] | [H2 | H2]]].
    + apply Hinit in H1. apply Hsweep in H2. lia.
    + discriminate.
    + apply transition_facts_shape in H2. destruct H2 as [? [_ []]].
    + unfold instant_facts in H2. apply in_map_iff in H2.
      destruct H2 as [? [? _]]. discriminate.
Qed.

(** X11.  On a valid snapshot no blocked fact is emitted twice: when several
    obstacles claim the same cell at the same instant (by position or by
    sweep), the first one records it and the others leave it alone. *)
Theorem blocked_facts_unique (g : Gen) :
  valid_snapshot g = true ->
  exists st,
    generateInitString_state g = Ok st
    /\ NoDup (blocked_facts (initString st)).
Proof.
  intros Hv. eexists. split; [apply (generateInitString_state_valid g Hv)|].
  apply NoDup_blocked_all_facts.
Qed.

Lemma blocked_facts_unique_witness :
  valid_snapshot meeting_snapshot = true
  /\ exists st,
       generateInitString_state meeting_snapshot = Ok st
       /\ NoDup (blocked_facts (initString st)).
Proof.
  split; [reflexivity|].
  apply (blocked_facts_unique meeting_snapshot). reflexivity.
Defined.

(** X12.  On a valid snapshot every blocked fact names a cell of the grid in
    the lane of some obstacle, at an instant of [0, horizon): obstacles only
    move along their lane, so a lane without obstacles is never blocked, and a
    snapshot without obstacles has no blocked fact at all. *)
Theorem blocked_cells_in_car_lanes (g : Gen) :
  valid_snapshot g = true ->
  exists st,
    generateInitString_state g = Ok st
    /\ (forall cell t,
          In (Blocked cell t) (initString st) ->
          exists c x, In c (cars (state g)) /\ 0 <= x < width g
                      /\ 0 <= t < horizon g
                      /\ cell = pt x (py (car_position c)))
    /\ (cars (state g) = [] -> forall cell t, ~ In (Blocked cell t) (initString st)).
Proof.
  intros Hv. eexists. split; [apply (generateInitString_state_valid g Hv)|].
  cbn [initString].
  assert (G : forall cell t,
             In (Blocked cell t) (all_facts g) ->
             exists c x, In c (cars (state g)) /\ 0 <= x < width g
                         /\ 0 <= t < horizon g
                         /\ cell = pt x (py (car_position c))).
  { intros cell t H. pose proof H as H'. apply in_all_facts_blocked in H'.
    destruct H' as [Ht Hs].
    destruct (partition_swept g t cell Ht) as (_ & _ & Hg).
    specialize (Hg H). apply in_grid_cells in Hg.
    destruct Hg as [x' [y' [Hx' [Hy' E']]]].
    assert (P : exists c x, In c (cars (state g)) /\ cell = pt x (py (car_position c))).
    { unfold blocked_source in Hs. destruct (Z.eqb_spec t 0).
      - apply initial_provenance in Hs.
        destruct Hs as [c [Hc [_ [E|E]]]]; [discriminate|].
        injection E as ->. eauto.
      - apply sweep_cars_facts in Hs.
        destruct Hs as [c [Hc [E|[x E]]]]; [discriminate|].
        injection E as ->. eauto. }
    destruct P as [c [x [Hc E]]]. exists c, x.
    rewrite E in E'. apply pt_inj in E'. destruct E' as [-> _]. auto. }
  split; [exact G|].
  intros Hno cell t H. destruct (G cell t H) as [c [_ [Hc _]]].
  rewrite Hno in Hc. destruct Hc.
Qed.

Lemma blocked_cells_in_car_lanes_witness :
  valid_snapshot crossing_snapshot = true
  /\ exists st,
       generateInitString_state crossing_snapshot = Ok st
       /\ (forall cell t,
             In (Blocked cell t) (initString st) ->
             exists c x, In c (cars (state crossing_snapshot))
                         /\ 0 <= x < width crossing_snapshot
                         /\ 0 <= t < horizon crossing_snapshot
                         /\ cell = pt x (py (car_position c)))
       /\ (cars (state crossing_snapshot) = [] ->
           forall cell t, ~ In (Blocked cell t) (initString st)).
Proof.
  split; [reflexivity|].
  apply (blocked_cells_in_car_lanes crossing_snapshot). reflexivity.
Defined.

(* ===================================================================== *)
(** * Further properties: plan files *)
(* ===================================================================== *)

Lemma space_free_not_newline (c : ascii) :
  negb (is_space c) = true -> Ascii.eqb c newline = false.
Proof. by_ascii c. Qed.

Lemma readlines_from_skip (body cur rest : string) :
  all_chars (fun c => negb (Ascii.eqb c newline)) body = true ->
  readlines_from cur (body ++ rest) = readlines_from (cur ++ body) rest.
Proof.
  revert cur. induction body as [|c body IH]; intros cur H; simpl.
  - now rewrite append_empty_r.
  - simpl in H. apply andb_true_iff in H. destruct H as [H1 H2].
    destruct (Ascii.eqb c newline); [discriminate|].
    rewrite IH by assumption. unfold snoc. now rewrite append_assoc.
Qed.

Lemma token_no_newline (s : string) :
  is_token s = true -> all_chars (fun c => negb (Ascii.eqb c newline)) s = true.
Proof.
  intros H. apply is_token_spec in H. destruct H as [_ H].
  apply all_chars_impl with (p := fun c => negb (is_space c)); [|assumption].
  intros c Hc. now rewrite space_free_not_newline.
Qed.

(** A line of tokens is read back as one line. *)
Lemma readlines_join (toks : list string) :
  forallb is_token toks = true ->
  forall cur rest,
    readlines_from cur (join_tokens toks ++ rest)
    = (cur ++ join_tokens toks)%string :: readlines_from EmptyString rest.
Proof.
  induction toks as [|t r IH]; intros H cur rest.
  - cbn [join_tokens append readlines_from].
    change (Ascii.eqb newline newline) with true. cbv iota. reflexivity.
  - cbn [forallb] in H. apply andb_true_iff in H. destruct H as [Ht Hr].
    apply token_no_newline in Ht.
    cbn [join_tokens]. destruct r as [|t' r'].
    + rewrite append_assoc, readlines_from_skip by assumption.
      cbn [append readlines_from].
      change (Ascii.eqb newline newline) with true. cbv iota.
      unfold snoc. now rewrite append_assoc.
    + rewrite append_assoc, readlines_from_skip by assumption.
      cbn [append readlines_from]. change (Ascii.eqb " " newline) with false.
      cbv iota. rewrite (IH Hr). unfold snoc.
      rewrite !append_assoc. reflexivity.
Qed.

Lemma plan_tokens_are_tokens (p : plan_action) : forallb is_token (plan_tokens p) = true.
Proof.
  destruct p; cbn [plan_tokens forallb];
    rewrite ?is_token_pt, ?is_token_str, ?is_token_app;
    auto using is_token_str.
Qed.

Lemma readlines_plan_line (p : plan_action) (rest : string) :
  readlines (plan_line p ++ rest) = plan_line p :: readlines rest.
Proof.
  unfold readlines. rewrite plan_line_join.
  rewrite (readlines_join _ (plan_tokens_are_tokens p)). reflexivity.
Qed.

Lemma str_no_newline (z : Z) :
  all_chars (fun c => negb (Ascii.eqb c newline)) (str z) = true.
Proof.
  apply all_chars_impl with (p := fun c => negb (is_space c)); [|apply str_no_space].
  intros c Hc. now rewrite space_free_not_newline.
Qed.

Lemma readlines_sas_plan (ps : list plan_action) (cost : Z) :
  readlines (sas_plan ps cost)
  = map plan_line ps
    ++ [("; cost = " ++ str cost ++ " (unit cost)" ++ String newline EmptyString)%string].
Proof.
  induction ps as [|p ps IH]; cbn [sas_plan fold_right map app].
  - unfold readlines.
    replace ("; cost = " ++ str cost ++ " (unit cost)" ++ String newline EmptyString)%string
      with (("; cost = " ++ str cost ++ " (unit cost)") ++ String newline EmptyString)%string
      by (now rewrite !append_assoc).
    rewrite readlines_from_skip.
    + cbn [append readlines_from].
      change (Ascii.eqb newline newline) with true. cbv iota. reflexivity.
    + rewrite !all_chars_app, str_no_newline. reflexivity.
  - fold (sas_plan ps cost). rewrite readlines_plan_line, IH. reflexivity.
Qed.

Lemma generatePlan_line_translate {A : Type} (actions : list A) (p : plan_action)
      (seq : list A) :
  generatePlan_line actions (plan_line p) seq
  = (a <- translate_action actions p ;; Ok (seq ++ [a])).
Proof.
  destruct p; cbn [translate_action].
  - apply generatePlan_line_up.
  - apply generatePlan_line_down.
  - apply generatePlan_line_forward.
Qed.

Lemma for_each_plan_lines {A : Type} (actions : list A) (ps : list plan_action)
      (tail : list string) :
  forall seq,
    for_each (generatePlan_line actions) (map plan_line ps ++ tail) seq
    = (acts <- map_m (translate_action actions) ps ;;
       for_each (generatePlan_line actions) tail (seq ++ acts)).
Proof.
  induction ps as [|p ps IH]; intros seq; cbn [map app for_each map_m bind].
  - now rewrite app_nil_r.
  - rewrite generatePlan_line_translate.
    destruct (translate_action actions p) as [a|e]; cbn [bind]; [|reflexivity].
    rewrite IH. destruct (map_m _ ps) as [acts|e]; cbn [bind]; [|reflexivity].
    now rewrite <- app_assoc.
Qed.

(** X14.  On a plan file as the planner writes it (one well-formed line per
    action, then the cost comment) [generatePlan] returns the translations of
    the actions, in plan order, and nothing for the comment line; it raises
    exactly when the translation of some action does, with the exception of
    the first such action.  The translation of a lateral line looks at the
    lanes, that of a forward line takes [env.actions] at the index given by
    the speed. *)
Theorem generatePlan_sas_plan {A : Type} (actions : list A)
        (ps : list plan_action) (cost : Z) :
  generatePlan actions (sas_plan ps cost) = map_m (translate_action actions) ps.
Proof.
  unfold generatePlan. rewrite readlines_sas_plan, for_each_plan_lines.
  destruct (map_m _ ps) as [acts|e]; cbn [bind app]; [|reflexivity].
  cbn [for_each]. unfold generatePlan_line at 1.
  cbn [append first_char bind]. change (Ascii.eqb ";" "(") with false.
  reflexivity.
Qed.

(** ** simulateSolution when a line raises *)

Lemma simulate_line_outcome {A : Type} (actions : list A) (line : string) (env : list A) :
  match generatePlan_line actions line env with
  | Ok env' => simulateSolution_line actions line env = Finished env'
  | Err e => simulateSolution_line actions line env = Raised e env
  end.
Proof.
  unfold generatePlan_line, simulateSolution_line, try_in, and_then, env_step,
    env_render.
  destruct (first_char line) as [c|e]; cbn [bind]; [|reflexivity].
  destruct (Ascii.eqb c "("); [|reflexivity].
  destruct (py_get (split_ws line) 0) as [tok|e]; cbn [bind]; [|reflexivity].
  destruct (map_m _ _) as [coords|e]; cbn [bind]; [|reflexivity].
  destruct (String.eqb_spec (drop_first tok) "up") as [->|Hu].
  - change (String.eqb "up" "down") with false.
    change (String.eqb "up" "forward") with false. cbv iota.
    destruct (Nat.eqb (distinct_count coords) 1);
      destruct (py_get actions _); reflexivity.
  - destruct (String.eqb_spec (drop_first tok) "down") as [->|Hd].
    + change (String.eqb "down" "forward") with false. cbv iota. cbn [bind].
      destruct (Nat.eqb (distinct_count coords) 1);
        destruct (py_get actions _); reflexivity.
    + cbn [bind]. destruct (String.eqb (drop_first tok) "forward"); [|reflexivity].
      destruct (py_get (split_ws line) (-1)); cbn [bind]; [|reflexivity].
      destruct (py_int _); cbn [bind]; [|reflexivity].
      destruct (py_get actions _); reflexivity.
Qed.

Lemma simulate_lines_raised {A : Type} (actions : list A) (lines : list string) :
  forall env e steps,
    simulate_lines actions lines env = Raised e steps ->
    exists pre line post,
      lines = pre ++ line :: post
      /\ for_each (generatePlan_line actions) pre env = Ok steps
      /\ generatePlan_line actions line steps = Err e.
Proof.
  induction lines as [|line rest IH]; intros env e steps H;
    cbn [simulate_lines] in H; [discriminate|].
  pose proof (simulate_line_outcome actions line env) as L.
  destruct (generatePlan_line actions line env) as [env'|e'] eqn:G.
  - rewrite L in H. cbn [and_then] in H.
    destruct (IH _ _ _ H) as [pre [l [post [-> [Hpre Hl]]]]].
    exists (line :: pre), l, post. split; [reflexivity|]. split; [|assumption].
    cbn [for_each]. now rewrite G.
  - rewrite L in H. cbn [and_then] in H. injection H as <- <-.
    exists [], line, rest. auto.
Qed.

(** X18.  When [simulateSolution] is stopped by an exception, the environment
    has been stepped through exactly the translation of the lines before the
    offending one, and the offending line is one on which the translator
    raises that exception: no step is taken for it. *)
Theorem simulation_stops_before_offending_line {A : Type} (actions : list A)
        (plan_file : string) (e : pyerr) (steps : list A) :
  simulateSolution actions plan_file = Raised e steps ->
  exists pre line post,
    readlines plan_file = pre ++ line :: post
    /\ for_each (generatePlan_line actions) pre [] = Ok steps
    /\ generatePlan_line actions line steps = Err e
    /\ generatePlan actions plan_file = Err e.
Proof.
  unfold simulateSolution, env_render, generatePlan. intros H.
  destruct (simulate_lines_raised actions _ _ _ _ H) as [pre [line [post [E [Hpre Hl]]]]].
  exists pre, line, post. repeat (split; [assumption|]).
  rewrite E.
  assert (G : forall l1 l2 s s', for_each (generatePlan_line actions) l1 s = Ok s' ->
                for_each (generatePlan_line actions) (l1 ++ l2) s
                = for_each (generatePlan_line actions) l2 s').
  { induction l1 as [|x l1 IH1]; intros l2 s s' H1; cbn [app for_each] in *.
    - now injection H1 as ->.
    - destruct (generatePlan_line actions x s); cbn [bind] in *; [|discriminate].
      now apply IH1. }
  rewrite (G _ _ _ _ Hpre). cbn [for_each]. now rewrite Hl.
Qed.

Lemma simulation_stops_before_offending_line_witness :
  simulateSolution grid_driving_actions
    ("(up pt1pt1 pt0pt0 1 2)" ++ String newline "(forward pt0pt0 pt1pt0 x)")
  = Raised ValueError ["up"%string]
  /\ exists pre line post,
       readlines ("(up pt1pt1 pt0pt0 1 2)" ++ String newline "(forward pt0pt0 pt1pt0 x)")
       = pre ++ line :: post
       /\ for_each (generatePlan_line grid_driving_actions) pre [] = Ok ["up"%string]
       /\ generatePlan_line grid_driving_actions line ["up"%string] = Err ValueError
       /\ generatePlan grid_driving_actions
            ("(up pt1pt1 pt0pt0 1 2)" ++ String newline "(forward pt0pt0 pt1pt0 x)")
          = Err ValueError.
Proof.
  assert (H : simulateSolution grid_driving_actions
                ("(up pt1pt1 pt0pt0 1 2)" ++ String newline "(forward pt0pt0 pt1pt0 x)")
              = Raised ValueError ["up"%string]) by reflexivity.
  split; [exact H|].
  exact (simulation_stops_before_offending_line grid_driving_actions _ _ _ H).
Defined.

(** ** PDDLAgent *)

Lemma py_get_middle {A : Type} (pre post : list A) (a : A) :
  py_get (pre ++ a :: post) (Z.of_nat (List.length pre)) = Ok a.
Proof.
  apply py_get_nonneg; [lia|]. rewrite Nat2Z.id.
  rewrite nth_error_app2, Nat.sub_diag by lia. reflexivity.
Qed.

Lemma py_get_past_end {A : Type} (l : list A) :
  py_get l (Z.of_nat (List.length l)) = Err IndexError.
Proof.
  unfold py_get, py_index.
  destruct (Z.ltb_spec (Z.of_nat (List.length l)) 0); [lia|].
  destruct (Z.ltb_spec (Z.of_nat (List.length l)) (Z.of_nat (List.length l))); [lia|].
  now rewrite andb_false_r.
Qed.

Lemma steps_replay {A : Type} (post : list A) :
  forall pre,
    steps (List.length post)
          {| action_plan := pre ++ post; time_step := Z.of_nat (List.length pre) |}
    = Ok (post, {| action_plan := pre ++ post;
                   time_step := Z.of_nat (List.length (pre ++ post)) |}).
Proof.
  induction post as [|a post IH]; intros pre; cbn [List.length steps].
  - now rewrite app_nil_r.
  - unfold step at 1. cbn [action_plan time_step].
    rewrite py_get_middle. cbn [bind fst snd].
    replace (pre ++ a :: post) with ((pre ++ [a]) ++ post) by (now rewrite <- app_assoc).
    replace (Z.of_nat (List.length pre) + 1) with (Z.of_nat (List.length (pre ++ [a])))
      by (rewrite length_app; cbn; lia).
    rewrite IH. reflexivity.
Qed.

(** X15.  An agent initialised from a plan file that translates to the list
    [plan] replays it: the first [len(plan)] calls of [step] return the actions
    of [plan] in order, and the next call raises [IndexError] (the agent has no
    action left, and does not start over). *)
Theorem agent_replays_plan {A : Type} (actions : list A) (plan_file : string)
        (plan : list A) :
  generatePlan actions plan_file = Ok plan ->
  exists agent agent',
    initialize actions plan_file = Ok agent
    /\ steps (List.length plan) agent = Ok (plan, agent')
    /\ step agent' = Err IndexError.
Proof.
  intros H. unfold initialize. rewrite H. cbn [bind].
  eexists. eexists. split; [reflexivity|].
  split; [apply (steps_replay plan [])|].
  unfold step. cbn [action_plan time_step app].
  now rewrite py_get_past_end.
Qed.

Lemma agent_replays_plan_witness :
  generatePlan grid_driving_actions
    (sas_plan [PUp 3 1 2 1 0 1; PForward 2 1 0 1 1 2 (-2)] 2)
  = Ok ["forward[-1]"; "forward[-2]"]%string
  /\ exists agent agent',
       initialize grid_driving_actions
         (sas_plan [PUp 3 1 2 1 0 1; PForward 2 1 0 1 1 2 (-2)] 2) = Ok agent
       /\ steps (List.length ["forward[-1]"; "forward[-2]"]%string) agent
          = Ok (["forward[-1]"; "forward[-2]"]%string, agent')
       /\ step agent' = Err IndexError.
Proof.
  assert (H : generatePlan grid_driving_actions
                (sas_plan [PUp 3 1 2 1 0 1; PForward 2 1 0 1 1 2 (-2)] 2)
              = Ok ["forward[-1]"; "forward[-2]"]%string) by reflexivity.
  split; [exact H|].
  exact (agent_replays_plan grid_driving_actions _ _ H).
Defined.

(* ===================================================================== *)
(** * Further properties: the declared objects *)
(* ===================================================================== *)

Lemma initial_at_facts (cs : list Car) :
  forall row,
    removable cs row = true ->
    forall c, In c cs -> is_origin (car_position c) = false ->
              In (At (pt (px (car_position c)) (py (car_position c))) 0 (car_name c))
                 (fst (each_row block_initial_row cs row)).
Proof.
  induction cs as [|c' cs IH]; intros row Hr c Hc Ho; [destruct Hc|].
  cbn [removable] in Hr. cbn [each_row]. apply in_then_row.
  unfold block_initial_row at 1 3.
  destruct (is_origin (car_position c')) eqn:Ho'.
  - assert (E : negb (px (car_position c') =? 0) || negb (py (car_position c') =? 0)
                = false).
    { unfold is_origin in Ho'. apply andb_true_iff in Ho'. destruct Ho' as [-> ->].
      reflexivity. }
    rewrite E. destruct Hc as [->|Hc]; [congruence|].
    right. cbn [skip_row snd]. now apply IH.
  - rewrite (is_origin_false _ Ho'). apply andb_true_iff in Hr.
    destruct Hr as [Hm Hr]. unfold block_row. rewrite Hm. cbn [fst snd].
    destruct Hc as [->|Hc]; [left; now left|]. right. now apply IH.
Qed.

Lemma valid_cars_removable (g : Gen) :
  valid_snapshot g = true -> cars_removable g = true.
Proof.
  intros Hv. destruct (valid_snapshot_spec g Hv) as [Hcars [Hd _]].
  unfold cars_removable. rewrite Hd, andb_true_r. apply forallb_forall.
  intros c Hc. rewrite (Hcars c Hc). apply orb_true_r.
Qed.

Lemma car_name_not_numeral (c : Car) (z : Z) : car_name c <> str z.
Proof.
  intros E. pose proof (str_numeral z) as H. rewrite <- E in H.
  unfold car_name in H. cbn in H. discriminate.
Qed.

Lemma car_name_not_cell (c : Car) (x y : Z) : car_name c <> pt x y.
Proof. unfold car_name, pt. cbn [append]. discriminate. Qed.

(** X16.  The problem file declares the agent, the time objects, the three
    speeds and the grid cells, and nothing else.  On a valid snapshot every car
    away from the origin is named by an occupancy fact of instant 0, yet no car
    name is ever among the declared objects. *)
Theorem cars_never_declared (g : Gen) :
  valid_snapshot g = true ->
  exists st,
    generateInitString_state g = Ok st
    /\ (forall c, In c (cars (state g)) -> is_origin (car_position c) = false ->
                  In (At (pt (px (car_position c)) (py (car_position c))) 0 (car_name c))
                     (initString st))
    /\ (forall c, ~ In (car_name c) (declared_objects g))
    /\ forall o, In o (declared_objects g)
                 <-> o = agent_name
                     \/ (exists i, 0 <= i < width g /\ o = str i)
                     \/ (exists s, -3 <= s <= -1 /\ o = str s)
                     \/ In o (grid_cell_list g).
Proof.
  intros Hv. eexists. split; [apply (generateInitString_state_valid g Hv)|].
  cbn [initString].
  assert (D : forall o, In o (declared_objects g)
                 <-> o = agent_name
                     \/ (exists i, 0 <= i < width g /\ o = str i)
                     \/ (exists s, -3 <= s <= -1 /\ o = str s)
                     \/ In o (grid_cell_list g)).
  { intros o. unfold declared_objects, problem_objects.
    cbn [flat_map snd]. rewrite app_nil_r, !in_app_iff.
    unfold time_objects, speed_objects. rewrite in_map_iff. cbn [In map]. split.
    - intros [[<-|[]] | [[i [<- Hi]] | [[<-|[<-|[<-|[]]]] | H]]]; auto.
      + apply in_range in Hi. right; left. eauto.
      + right; right; left. exists (-1). split; [lia | reflexivity].
      + right; right; left. exists (-2). split; [lia | reflexivity].
      + right; right; left. exists (-3). split; [lia | reflexivity].
    - intros [->|[[i [Hi ->]]|[[s [Hs ->]]|H]]]; auto.
      + right; left. exists i. split; [reflexivity | now apply in_range].
      + right; right; left.
        assert (Hs3 : s = -1 \/ s = -2 \/ s = -3) by lia.
        destruct Hs3 as [ -> | [ -> | -> ] ]; auto. }
  split; [|split; [|exact D]].
  - intros c Hc Ho. unfold all_facts. rewrite in_app_iff. left.
    unfold initial_facts. apply initial_at_facts; auto.
    rewrite removable_grid. now apply valid_cars_removable.
  - intros c H. apply D in H.
    destruct H as [E|[[i [_ E]]|[[s [_ E]]|H]]].
    + now apply car_is_not_agent in E.
    + now apply car_name_not_numeral in E.
    + now apply car_name_not_numeral in E.
    + apply in_grid_cells in H. destruct H as [x [y [_ [_ E]]]].
      now apply car_name_not_cell in E.
Qed.

Lemma cars_never_declared_witness :
  valid_snapshot crossing_snapshot = true
  /\ exists st,
       generateInitString_state crossing_snapshot = Ok st
       /\ (forall c, In c (cars (state crossing_snapshot)) ->
                     is_origin (car_position c) = false ->
                     In (At (pt (px (car_position c)) (py (car_position c))) 0
                            (car_name c))
                        (initString st))
       /\ (forall c, ~ In (car_name c) (declared_objects crossing_snapshot))
       /\ forall o, In o (declared_objects crossing_snapshot)
                    <-> o = agent_name
                        \/ (exists i, 0 <= i < width crossing_snapshot /\ o = str i)
                        \/ (exists s, -3 <= s <= -1 /\ o = str s)
                        \/ In o (grid_cell_list crossing_snapshot).
Proof.
  split; [reflexivity|].
  apply (cars_never_declared crossing_snapshot). reflexivity.
Defined.

(** ** The text of the objects section *)

Lemma split_ws_from_cut (a : string) :
  forall cur sp b,
    is_space sp = true ->
    split_ws_from cur (a ++ String sp b)
    = split_ws_from cur (a ++ String sp EmptyString) ++ split_ws_from EmptyString b.
Proof.
  induction a as [|c a IH]; intros cur sp b Hsp; cbn [append split_ws_from].
  - rewrite Hsp. destruct (is_empty cur); cbn [split_ws_from];
      [reflexivity | reflexivity].
  - destruct (is_space c).
    + destruct (is_empty cur); rewrite (IH EmptyString sp b Hsp); reflexivity.
    + apply IH. assumption.
Qed.

Lemma fold_left_spaced (l : list string) :
  forall acc,
    fold_left (fun a obj => (a ++ obj ++ " ")%string) l acc = (acc ++ spaced l)%string.
Proof.
  induction l as [|o l IH]; intros acc; cbn [fold_left spaced fold_right].
  - now rewrite append_empty_r.
  - rewrite IH. rewrite !append_assoc. reflexivity.
Qed.

Lemma split_ws_spaced (l : list string) (rest : string) :
  forallb is_token l = true ->
  split_ws_from EmptyString (spaced l ++ rest) = l ++ split_ws_from EmptyString rest.
Proof.
  induction l as [|o l IH]; intros H; cbn [spaced fold_right app append]; [reflexivity|].
  cbn [forallb] in H. apply andb_true_iff in H. destruct H as [Ho Hl].
  apply is_token_spec in Ho. destruct Ho as [Hne Hns].
  rewrite append_assoc, split_ws_from_token by assumption.
  cbn [append split_ws_from]. change (is_space " ") with true. cbv iota.
  rewrite Hne. f_equal. now apply IH.
Qed.

Lemma addObjects_text (ty : string) (l : list string) (last : bool) (prev : string) :
  addObjects ty l last prev
  = (prev ++ spaced l ++ " - " ++ ty ++ String newline " "
       ++ (if last then addFooter else EmptyString))%string.
Proof.
  unfold addObjects. rewrite fold_left_spaced. cbn [append].
  destruct last; rewrite ?append_assoc, ?append_empty_r; reflexivity.
Qed.

Lemma split_ws_type_tail (ty : string) (last : bool) :
  is_token ty = true ->
  split_ws_from EmptyString
    (" - " ++ ty ++ String newline " " ++ (if last then addFooter else EmptyString))
  = ["-"%string; ty] ++ (if last then [")"%string] else []).
Proof.
  intros H. apply is_token_spec in H. destruct H as [Hne Hns].
  cbn [append split_ws_from]. change (is_space " ") with true.
  change (is_space "-") with false. cbv iota. cbn [is_empty snoc append].
  f_equal. rewrite split_ws_from_token by assumption.
  cbn [append split_ws_from]. change (is_space newline) with true. cbv iota.
  rewrite Hne. f_equal. destruct last; reflexivity.
Qed.

(** The tokens one call of [addObjects] adds to a text that ends in
    whitespace. *)
Lemma addObjects_tokens (ty : string) (l : list string) (last : bool)
      (p : string) (sp : ascii) :
  forallb is_token l = true -> is_token ty = true -> is_space sp = true ->
  split_ws (addObjects ty l last (p ++ String sp EmptyString))
  = split_ws (p ++ String sp EmptyString) ++ l ++ ["-"%string; ty]
    ++ (if last then [")"%string] else []).
Proof.
  intros Hl Hty Hsp. rewrite addObjects_text. unfold split_ws.
  rewrite append_assoc. cbn [append].
  rewrite split_ws_from_cut by assumption. f_equal.
  rewrite split_ws_spaced by assumption. f_equal.
  now apply split_ws_type_tail.
Qed.

Lemma addObjects_open (ty : string) (l : list string) (prev : string) :
  addObjects ty l false prev
  = ((prev ++ spaced l ++ " - " ++ ty ++ String newline EmptyString)
       ++ String " " EmptyString)%string.
Proof.
  rewrite addObjects_text. rewrite !append_assoc. cbn [append]. reflexivity.
Qed.

Lemma grid_cells_are_tokens (g : Gen) : forallb is_token (grid_cell_list g) = true.
Proof.
  apply forallb_forall. intros c H. apply in_grid_cells in H.
  destruct H as [x [y [_ [_ ->]]]]. apply is_token_pt.
Qed.

Lemma time_objects_are_tokens (g : Gen) : forallb is_token (time_objects g) = true.
Proof.
  apply forallb_forall. intros c H. unfold time_objects in H.
  apply in_map_iff in H. destruct H as [i [<- _]]. apply is_token_str.
Qed.

(** X17.  The objects section that the four calls of [addObjects] build reads
    back, token by token, as the opening keyword, then for each call the
    objects in order followed by a dash and their type, and one closing
    parenthesis: every declared object appears once, under its own type. *)
Theorem object_strings_tokens (g : Gen) :
  split_ws (object_strings g)
  = ["(:objects"; agent_name; "-"; "agent"]%string
    ++ time_objects g ++ ["-"; "time"]%string
    ++ speed_objects ++ ["-"; "speed"]%string
    ++ grid_cell_list g ++ ["-"; "gridcell"; ")"]%string.
Proof.
  unfold object_strings.
  rewrite (addObjects_open "speed"), (addObjects_tokens "gridcell");
    [|apply grid_cells_are_tokens | reflexivity | reflexivity].
  rewrite <- (addObjects_open "speed").
  rewrite (addObjects_open "time"), (addObjects_tokens "speed");
    [|reflexivity | reflexivity | reflexivity].
  rewrite <- (addObjects_open "time").
  rewrite (addObjects_open "agent"), (addObjects_tokens "time");
    [|apply time_objects_are_tokens | reflexivity | reflexivity].
  rewrite <- (addObjects_open "agent").
  change (addHeader "objects") with ("(:objects" ++ String " " EmptyString)%string.
  rewrite (addObjects_tokens "agent"); [|reflexivity | reflexivity | reflexivity].
  cbn [app]. rewrite <- !app_assoc. reflexivity.
Qed.

(* ===================================================================== *)
(** * Further properties: the text of the problem file *)
(* ===================================================================== *)

Lemma scan_piece (a rest : string) (d d' : nat) :
  paren_scan d a = Some d' -> paren_scan d (a ++ rest) = paren_scan d' rest.
Proof.
  revert d. induction a as [|c a IH]; intros d H; cbn [append paren_scan] in *.
  - now injection H as ->.
  - destruct (Ascii.eqb c "("); [now apply IH|].
    destruct (Ascii.eqb c ")"); [|now apply IH].
    destruct d; [discriminate | now apply IH].
Qed.

Lemma scan_free (s : string) (d : nat) :
  all_chars no_paren s = true -> paren_scan d s = Some d.
Proof.
  induction s as [|c s IH]; intros H; cbn [paren_scan all_chars] in *; [reflexivity|].
  apply andb_true_iff in H. destruct H as [Hc Hs]. unfold no_paren in Hc.
  apply andb_true_iff in Hc. destruct Hc as [H1 H2].
  apply negb_true_iff in H1, H2. rewrite H1, H2. now apply IH.
Qed.

Lemma numeral_no_paren (c : ascii) : numeral_char c = true -> no_paren c = true.
Proof. by_ascii c. Qed.

Lemma cell_char_no_paren (c : ascii) : cell_char c = true -> no_paren c = true.
Proof. by_ascii c. Qed.

Lemma str_no_paren (z : Z) : all_chars no_paren (str z) = true.
Proof.
  apply all_chars_impl with (p := numeral_char);
    [apply numeral_no_paren | apply str_numeral].
Qed.

Lemma pt_no_paren (x y : Z) : all_chars no_paren (pt x y) = true.
Proof.
  apply all_chars_impl with (p := cell_char);
    [apply cell_char_no_paren | apply pt_cell_chars].
Qed.

Lemma car_name_no_paren (c : Car) : all_chars no_paren (car_name c) = true.
Proof. unfold car_name. rewrite all_chars_app, str_no_paren. reflexivity. Qed.

Lemma spaced_no_paren (l : list string) :
  (forall s, In s l -> all_chars no_paren s = true) ->
  all_chars no_paren (spaced l) = true.
Proof.
  induction l as [|o l IH]; intros H; cbn [spaced fold_right]; [reflexivity|].
  rewrite all_chars_app. cbn [all_chars]. rewrite (H o) by (now left).
  cbn. apply IH. intros s Hs. apply H. now right.
Qed.

Ltac scan_pieces :=
  rewrite ?append_assoc;
  repeat (erewrite scan_piece;
          [| first [ apply scan_free; solve [auto using str_no_paren]
                   | reflexivity ] ]).

Lemma scan_render_fact (f : fact) (rest : string) (d : nat) :
  (forall s, In s (fact_names f) -> all_chars no_paren s = true) ->
  paren_scan d (render_fact f ++ rest) = paren_scan d rest.
Proof.
  intros H.
  destruct f as [c t who | c t | c t | c n t | c n t | c n t s | i j];
    cbn [fact_names] in H; unfold render_fact;
    try (assert (Hc : all_chars no_paren c = true) by (apply H; cbn; auto));
    try (assert (Hw : all_chars no_paren who = true) by (apply H; cbn; auto));
    try (assert (Hn : all_chars no_paren n = true) by (apply H; cbn; auto));
    scan_pieces; reflexivity.
Qed.

Lemma scan_render (fs : list fact) (rest : string) (d : nat) :
  (forall f s, In f fs -> In s (fact_names f) -> all_chars no_paren s = true) ->
  paren_scan d (render fs ++ rest) = paren_scan d rest.
Proof.
  induction fs as [|f fs IH]; intros H; cbn [render fold_right append]; [reflexivity|].
  rewrite append_assoc, scan_render_fact.
  - apply IH. intros f' s Hf'. apply H. now right.
  - intros s. apply H. now left.
Qed.

Lemma grid_cell_no_paren (g : Gen) (c : string) :
  In c (grid_cell_list g) -> all_chars no_paren c = true.
Proof.
  intros H. apply in_grid_cells in H. destruct H as [x [y [_ [_ ->]]]].
  apply pt_no_paren.
Qed.

(** The names of the emitted facts are cell names, car names or the agent. *)
Lemma all_facts_names (g : Gen) (f : fact) (s : string) :
  In f (all_facts g) -> In s (fact_names f) -> all_chars no_paren s = true.
Proof.
  unfold all_facts. rewrite !in_app_iff, in_sweep_facts.
  intros [H | [[t' [Ht' [H | [c' [E Hc']]]]] | [[E | []] | [H | H]]]] Hs.
  - apply initial_provenance in H. destruct H as [c [_ [_ [E|E]]]]; subst f;
      cbn [fact_names In] in Hs.
    + destruct Hs as [<-|[<-|[]]]; [apply pt_no_paren | apply car_name_no_paren].
    + destruct Hs as [<-|[]]. apply pt_no_paren.
  - apply sweep_cars_facts in H. destruct H as [c [_ [E|[x E]]]]; subst f;
      cbn [fact_names In] in Hs.
    + destruct Hs as [<-|[<-|[]]]; [apply pt_no_paren | apply car_name_no_paren].
    + destruct Hs as [<-|[]]. apply pt_no_paren.
  - subst f. cbn [fact_names In] in Hs. destruct Hs as [<-|[]].
    apply (grid_cell_no_paren g).
    exact (proj1 (proj1 (proj2 (swept_row_spec g t')) _ Hc')).
  - subst f. unfold agent_fact in Hs. cbn [fact_names In] in Hs.
    destruct Hs as [<-|[<-|[]]]; [apply pt_no_paren | reflexivity].
  - apply transition_in_grid in H.
    destruct H as [t [c [n [_ [Hc [Hn E]]]]]].
    destruct E as [->|[->|[v [_ ->]]]]; cbn [fact_names In] in Hs;
      destruct Hs as [<-|[<-|[]]]; eauto using grid_cell_no_paren.
  - unfold instant_facts in H. apply in_map_iff in H.
    destruct H as [i [<- _]]. destruct Hs.
Qed.

Lemma scan_object_strings (g : Gen) (rest : string) (d : nat) :
  paren_scan d (object_strings g ++ rest) = paren_scan d rest.
Proof.
  unfold object_strings. rewrite !addObjects_text.
  assert (H1 : all_chars no_paren (spaced [agent_name]) = true) by reflexivity.
  assert (H2 : all_chars no_paren (spaced (time_objects g)) = true).
  { apply spaced_no_paren. intros s Hs. unfold time_objects in Hs.
    apply in_map_iff in Hs. destruct Hs as [i [<- _]]. apply str_no_paren. }
  assert (H3 : all_chars no_paren (spaced speed_objects) = true) by reflexivity.
  assert (H4 : all_chars no_paren (spaced (grid_cell_list g)) = true).
  { apply spaced_no_paren. intros s Hs. now apply (grid_cell_no_paren g). }
  generalize dependent (spaced [agent_name]).
  generalize dependent (spaced (time_objects g)).
  generalize dependent (spaced speed_objects).
  generalize dependent (spaced (grid_cell_list g)).
  intros s4 H4 s3 H3 s2 H2 s1 H1.
  unfold addHeader, addFooter. scan_pieces. reflexivity.
Qed.

Lemma scan_goal (g : Gen) (rest : string) (d : nat) :
  paren_scan d (addGoalState g ++ rest) = paren_scan d rest.
Proof.
  unfold addGoalState, generateGoalString, render_condition, addHeader, addFooter.
  rewrite !append_assoc.
  repeat (erewrite scan_piece by reflexivity).
  rewrite scan_render.
  - scan_pieces. reflexivity.
  - intros f s Hf Hs. apply in_map_iff in Hf. destruct Hf as [i [<- _]].
    cbn [fact_names In] in Hs.
    destruct Hs as [<-|[<-|[]]]; [apply pt_no_paren | reflexivity].
Qed.

(** X19.  On a valid snapshot [generateProblemPDDLFile] produces its text, and
    the text (header, objects, init, goal, footer) is well parenthesised: read
    from the left, no closing parenthesis comes without its opening one, and
    every opening parenthesis is closed at the end. *)
Theorem problem_file_well_parenthesised (g : Gen) :
  valid_snapshot g = true ->
  exists text,
    generateProblemPDDLFile g = Ok text /\ well_parenthesised text.
Proof.
  intros Hv. unfold generateProblemPDDLFile, addInitState, generateInitString.
  rewrite (generateInitString_state_valid g Hv). cbn [bind initString].
  eexists. split; [reflexivity|].
  unfold well_parenthesised, addProblemHeader, addHeader.
  rewrite !append_assoc.
  repeat (erewrite scan_piece by reflexivity).
  rewrite scan_object_strings.
  repeat (erewrite scan_piece by reflexivity).
  rewrite scan_render by apply all_facts_names.
  unfold addFooter at 1. rewrite !append_assoc.
  repeat (erewrite scan_piece by reflexivity).
  rewrite scan_goal. reflexivity.
Qed.

Lemma problem_file_well_parenthesised_witness :
  valid_snapshot crossing_snapshot = true
  /\ exists text,
       generateProblemPDDLFile crossing_snapshot = Ok text /\ well_parenthesised text.
Proof.
  split; [reflexivity|].
  apply (problem_file_well_parenthesised crossing_snapshot). reflexivity.
Defined.
(* ===================================================================== *)
(** * Further properties: the text of the domain file *)
(* ===================================================================== *)

Lemma scan_app (a r : string) (d : nat) :
  paren_scan d (a ++ r)
  = match paren_scan d a with
    | Some d' => paren_scan d' r
    | None => None
    end.
Proof.
  revert d. induction a as [|c a IH]; intros d; cbn [append paren_scan].
  - reflexivity.
  - destruct (Ascii.eqb c "("); [apply IH|].
    destruct (Ascii.eqb c ")"); [|apply IH].
    destruct d; [reflexivity | apply IH].
Qed.

Lemma scan_shift (s : string) (k : nat) :
  forall d d', paren_scan d s = Some d' ->
               paren_scan (d + k) s = Some (d' + k)%nat.
Proof.
  induction s as [|c s IH]; intros d d' H; cbn [paren_scan] in *.
  - injection H as ->. reflexivity.
  - destruct (Ascii.eqb c "("); [exact (IH (S d) d' H)|].
    destruct (Ascii.eqb c ")"); [|exact (IH d d' H)].
    destruct d as [|d]; [discriminate|]. exact (IH d d' H).
Qed.

Lemma scan_balanced (s : string) (d : nat) :
  balanced s = true -> paren_scan d s = Some d.
Proof.
  unfold balanced. intros H.
  destruct (paren_scan 0 s) as [[|n]|] eqn:E; try discriminate.
  exact (scan_shift s d 0 0 E).
Qed.

Lemma scan_footer (d : nat) :
  paren_scan d addFooter = match d with O => None | S d' => Some d' end.
Proof. destruct d; reflexivity. Qed.

Ltac scan_through :=
  rewrite ?append_assoc;
  repeat (erewrite scan_piece
           by first [ reflexivity
                    | apply scan_free; assumption
                    | apply scan_balanced; assumption ]).

Lemma add_parameters_plain (parameters : list (string * string)) :
  plain_parameters parameters = true ->
  forall acc, add_parameters parameters acc
              = (acc ++ add_parameters parameters EmptyString)%string
              /\ all_chars no_paren (add_parameters parameters EmptyString) = true.
Proof.
  unfold add_parameters, plain_parameters.
  induction parameters as [|p ps IH]; intros H acc; cbn [fold_left forallb] in *.
  - now rewrite append_empty_r.
  - apply andb_true_iff in H. destruct H as [Hp Hps].
    apply andb_true_iff in Hp. destruct Hp as [H1 H2].
    destruct (IH Hps (acc ++ " ?" ++ fst p ++ " - " ++ snd p)%string) as [E _].
    destruct (IH Hps (EmptyString ++ " ?" ++ fst p ++ " - " ++ snd p)%string)
      as [E0 Hfree].
    split.
    + rewrite E, E0. now rewrite !append_assoc.
    + rewrite E0. rewrite !all_chars_app, H1, H2, Hfree. reflexivity.
Qed.

Lemma types_plain (types : list (string * option string)) :
  forallb (fun item =>
             all_chars no_paren (fst item)
             && match snd item with
                | Some _supertype => all_chars no_paren _supertype
                | None => true
                end) types = true ->
  exists body,
    all_chars no_paren body = true
    /\ forall acc,
         fold_left (fun acc item =>
                      match snd item with
                      | None => acc ++ fst item ++ line_end
                      | Some _supertype =>
                          acc ++ fst item ++ " - " ++ _supertype ++ line_end
                      end)%string types acc = (acc ++ body)%string.
Proof.
  induction types as [|[name sup] ts IH]; intros H;
    cbn [fold_left forallb fst snd] in *.
  - exists EmptyString. split; [reflexivity|]. intros acc. now rewrite append_empty_r.
  - apply andb_true_iff in H. destruct H as [Hp Hts].
    apply andb_true_iff in Hp. destruct Hp as [H1 H2].
    destruct (IH Hts) as [body [Hbody E]]. destruct sup as [sup|].
    + exists (name ++ " - " ++ sup ++ line_end ++ body)%string. split.
      * rewrite !all_chars_app, H1, H2, Hbody. reflexivity.
      * intros acc. rewrite E, !append_assoc. reflexivity.
    + exists (name ++ line_end ++ body)%string. split.
      * rewrite !all_chars_app, H1, Hbody. reflexivity.
      * intros acc. rewrite E, !append_assoc. reflexivity.
Qed.

(** The strings of a fresh generator. *)
Lemma new_domain_depths : domain_depths 0 new_domain.
Proof.
  unfold domain_depths, new_domain. cbn [domain_header type_string
    predicate_strings action_strings].
  split; [discriminate|]. split; [reflexivity|]. split; [|reflexivity].
  intros d. cbn [Nat.leb]. rewrite Nat.sub_0_r. reflexivity.
Qed.

Lemma scan_predicates (k d : nat) (text piece : string) :
  paren_scan d text = (if (k <=? S d)%nat then Some (S d - k)%nat else None) ->
  (forall d', paren_scan d' piece = Some d') ->
  paren_scan d (text ++ piece) = (if (k <=? S d)%nat then Some (S d - k)%nat else None)
  /\ paren_scan d ((text ++ piece) ++ addFooter)
     = (if (S k <=? S d)%nat then Some (S d - S k)%nat else None).
Proof.
  intros Ht Hp. rewrite !scan_app, Ht.
  destruct (Nat.leb_spec k (S d)) as [Hk|Hk].
  - rewrite Hp. split; [reflexivity|]. rewrite scan_footer.
    destruct (Nat.leb_spec (S k) (S d)) as [Hk'|Hk'].
    + destruct (S d - k)%nat as [|n] eqn:E; [lia|]. f_equal. lia.
    + destruct (S d - k)%nat as [|n] eqn:E; [reflexivity|lia].
  - split; [reflexivity|].
    destruct (Nat.leb_spec (S k) (S d)) as [Hk'|Hk']; [lia|reflexivity].
Qed.

(** One call keeps the bookkeeping, a flagged predicate closing one more
    parenthesis. *)
Lemma call_depths (k : nat) (s : DomainGen) (c : domain_call) :
  plain_call c = true ->
  domain_depths k s ->
  domain_depths (closing_predicates [c] + k) (call s c).
Proof.
  intros Hc (Hh & Ht & Hp & Ha).
  destruct c as [name | types | name ps last | name ps pre eff];
    cbn [plain_call] in Hc; unfold closing_predicates;
    cbn [call filter List.length Nat.add].
  - (* addDomainHeader *)
    unfold addDomainHeader, domain_depths.
    cbn [domain_header type_string predicate_strings action_strings].
    split; [|auto]. intros h d E.
    assert (E' : h = ("(define (domain " ++ name ++ " ) " ++ line_end
                        ++ "(:requirements :strips :typing) " ++ line_end)%string)
      by congruence.
    rewrite E'. clear E E'. scan_through.
    reflexivity.
  - (* addTypes *)
    unfold addTypes, domain_depths.
    cbn [domain_header type_string predicate_strings action_strings].
    split; [exact Hh|]. split; [|auto]. intros d.
    destruct (types_plain types Hc) as [body [Hbody E]]. rewrite E.
    scan_through.
    reflexivity.
  - (* addPredicate *)
    apply andb_true_iff in Hc. destruct Hc as [Hn Hps].
    destruct (add_parameters_plain ps Hps ("(" ++ name)%string) as [E Hfree].
    assert (Hpiece : forall d',
               paren_scan d' (add_parameters ps ("(" ++ name) ++ ") " ++ line_end)
               = Some d').
    { intros d'. rewrite E. scan_through.
      reflexivity. }
    unfold addPredicate, domain_depths.
    cbn [domain_header type_string predicate_strings action_strings].
    split; [exact Hh|]. split; [exact Ht|]. split; [|exact Ha]. intros d.
    destruct (scan_predicates k d _ _ (Hp d) Hpiece) as [E1 E2].
    destruct last; cbn [List.length Nat.add]; assumption.
  - (* addAction *)
    apply andb_true_iff in Hc. destruct Hc as [Hc He].
    apply andb_true_iff in Hc. destruct Hc as [Hc Hpre].
    apply andb_true_iff in Hc. destruct Hc as [Hn Hps].
    destruct (add_parameters_plain ps Hps ":parameters ("%string) as [E Hfree].
    unfold addAction, domain_depths.
    cbn [domain_header type_string predicate_strings action_strings].
    split; [exact Hh|]. split; [exact Ht|]. split; [exact Hp|]. intros d.
    rewrite scan_app, Ha. rewrite E. unfold addHeader. scan_through.
    reflexivity.
Qed.

Lemma closing_predicates_cons (c : domain_call) (cs : list domain_call) :
  closing_predicates (c :: cs) = (closing_predicates [c] + closing_predicates cs)%nat.
Proof.
  unfold closing_predicates. cbn [filter].
  destruct c as [| | ? ? [|] |]; reflexivity.
Qed.

Lemma calls_depths (cs : list domain_call) :
  forallb plain_call cs = true ->
  forall k s, domain_depths k s ->
              domain_depths (closing_predicates cs + k) (calls cs s).
Proof.
  unfold calls.
  induction cs as [|c cs IH]; intros H k s Hs; cbn [fold_left forallb] in *.
  - exact Hs.
  - apply andb_true_iff in H. destruct H as [Hc Hcs].
    rewrite closing_predicates_cons.
    replace (closing_predicates [c] + closing_predicates cs + k)%nat
      with (closing_predicates cs + (closing_predicates [c] + k))%nat by lia.
    apply IH; [assumption|]. now apply call_depths.
Qed.

Lemma calls_header (cs : list domain_call) :
  forall s, domain_header (calls cs s) = None
            <-> domain_header s = None /\ forall name, ~ In (AddDomainHeader name) cs.
Proof.
  unfold calls.
  induction cs as [|c cs IH]; intros s; cbn [fold_left].
  - split; [intros H; split; [exact H | intros name []] | intros [H _]; exact H].
  - rewrite IH. split.
    + intros [H Hcs]. destruct c as [name | types | name ps last | name ps pre eff];
        cbn [call addDomainHeader addTypes addPredicate addAction domain_header] in H;
        try discriminate;
        (split; [exact H|]); intros name' [E|Hin]; try discriminate;
        exact (Hcs name' Hin).
    + intros [H Hcs]. split.
      * destruct c as [name | types | name ps last | name ps pre eff];
          cbn [call addDomainHeader addTypes addPredicate addAction domain_header];
          try exact H.
        exfalso. apply (Hcs name). now left.
      * intros name Hin. apply (Hcs name). now right.
Qed.

(** X20.  Whatever the calls of the four builders of the domain file on a
    fresh generator, as long as the names they are given carry no parenthesis
    and the preconditions and effects are balanced: [generateDomainPDDL] has a
    header to write exactly when [addDomainHeader] was called, and the text it
    writes is well parenthesised exactly when one [addPredicate] call, and
    only one, was flagged [isLastPredicate].  Without the flag the predicates
    section stays open; with two the closing footer has nothing left to
    close. *)
Theorem domain_file_parentheses (cs : list domain_call) :
  forallb plain_call cs = true ->
  (generateDomainPDDL (calls cs new_domain) = None
   <-> forall name, ~ In (AddDomainHeader name) cs)
  /\ forall text,
       generateDomainPDDL (calls cs new_domain) = Some text ->
       (well_parenthesised text <-> closing_predicates cs = 1%nat).
Proof.
  intros Hcs. split.
  - unfold generateDomainPDDL.
    destruct (domain_header (calls cs new_domain)) as [h|] eqn:E.
    + split; [discriminate|]. intros H.
      assert (E' : domain_header (calls cs new_domain) = None)
        by (apply calls_header; split; [reflexivity | exact H]).
      congruence.
    + split; [|reflexivity]. intros _. now apply (calls_header cs new_domain).
  - intros text Htext.
    destruct (calls_depths cs Hcs 0%nat new_domain new_domain_depths)
      as (Hh & Ht & Hp & Ha).
    unfold generateDomainPDDL in Htext.
    destruct (domain_header (calls cs new_domain)) as [h|] eqn:E; [|discriminate].
    assert (E' : text = (h ++ type_string (calls cs new_domain)
                           ++ predicate_strings (calls cs new_domain)
                           ++ action_strings (calls cs new_domain)
                           ++ addFooter)%string)
      by congruence.
    rewrite E'. clear Htext E'.
    unfold well_parenthesised.
    rewrite Nat.add_0_r in Hp.
    rewrite scan_app, (Hh h 0%nat eq_refl), scan_app, Ht, scan_app, Hp.
    destruct (Nat.leb_spec (closing_predicates cs) 2) as [Hk|Hk].
    + rewrite scan_app, Ha, scan_footer.
      destruct (2 - closing_predicates cs)%nat as [|n] eqn:En.
      * split; [discriminate | lia].
      * split; [intros H; injection H as ->; lia | intros H; f_equal; lia].
    + split; [discriminate | lia].
Qed.

Lemma domain_file_parentheses_witness :
  forallb plain_call domain_calls = true
  /\ exists text,
       generateDomainPDDLFile = Some text /\ well_parenthesised text.
Proof.
  split; [reflexivity|].
  eexists. split; [reflexivity|].
  apply (proj2 (domain_file_parentheses domain_calls eq_refl)); reflexivity.
Defined.

(** The two ways of getting the flag wrong. *)
Example predicates_left_open :
  exists text,
    generateDomainPDDL
      (calls [AddDomainHeader "d"; AddPredicate "p" [("x", "t")] false]%string new_domain)
    = Some text
    /\ paren_scan 0 text = Some 1%nat.
Proof. eexists. split; reflexivity. Qed.

Example predicates_closed_twice :
  exists text,
    generateDomainPDDL
      (calls [AddDomainHeader "d"; AddPredicate "p" [("x", "t")] true;
              AddPredicate "q" [("x", "t")] true]%string new_domain)
    = Some text
    /\ paren_scan 0 text = None.
Proof. eexists. split; reflexivity. Qed.
